(** * pm-indexing-sim: leaf-node update strategies and their cost ledgers

    A shallow embedding of the six simulators of the repository

      - [article1_sorted_unsorted.cpp]  (module [Article1])
      - [article2_wbtree.cpp]           (module [Article2])
      - [article3_bztree.cpp]           (module [Article3])
      - [article1_extension.cpp], [article2_extension.cpp],
        [article3_extension.cpp]        (module [Extension])
      - the [main] functions of the first three files
                                        (modules [Main1], [Main2], [Main3])

    Conventions.

    - [uint64_t] values (keys, counters) are integers of [Z]; every
      addition on a counter is followed by its reduction modulo 2^64
      ([wrap64]).
    - [int] variables (counts, positions, loop indices) are integers of
      [Z] as well; they stay far below 2^31 in every loop of the program.
    - A C array [uint64_t keys[CAP]] is a [list Z]; reads and writes go
      through [rd] and [wr].  The array of a freshly declared leaf is not
      initialised in the source: [fresh] takes its initial content as an
      argument.
    - [Stats& s] parameters and the global counters of article 1 are
      threaded explicitly.
    - [double] is the binary64 type [float] of the kernel. *)

From Stdlib Require Import ZArith List Lia Bool Sorted Floats Uint63.
From stdpp Require Import base list.

Open Scope Z_scope.

(** ** Fake persistent-memory counters *)

Definition wrap64 (x : Z) : Z := x mod 2 ^ 64.

(** [struct Stats { uint64_t Nw = 0; uint64_t Nclf = 0; uint64_t Nmf = 0; }] *)
Record Stats : Type := mkStats { Nw : Z; Nclf : Z; Nmf : Z }.

Definition Stats0 : Stats := mkStats 0 0 0.

(** The three fields hold [uint64_t] values. *)
Definition stats_ok (s : Stats) : Prop :=
  0 <= Nw s < 2 ^ 64 /\ 0 <= Nclf s < 2 ^ 64 /\ 0 <= Nmf s < 2 ^ 64.

(** [inline void pcm_write(Stats &s, uint64_t w = 1) { s.Nw += w; }] *)
Definition pcm_write (s : Stats) (w : Z) : Stats :=
  mkStats (wrap64 (Nw s + w)) (Nclf s) (Nmf s).

(** [inline void pcm_flush(Stats &s) { s.Nclf++; }] *)
Definition pcm_flush (s : Stats) : Stats :=
  mkStats (Nw s) (wrap64 (Nclf s + 1)) (Nmf s).

(** [inline void pcm_fence(Stats &s) { s.Nmf++; }] *)
Definition pcm_fence (s : Stats) : Stats :=
  mkStats (Nw s) (Nclf s) (wrap64 (Nmf s + 1)).

(** The fixed-coefficient bookkeeping of the extension simulators:
    [s.Nw += w; s.Nclf += f; s.Nmf += m;]. *)
Definition charge (s : Stats) (w f m : Z) : Stats :=
  mkStats (wrap64 (Nw s + w)) (wrap64 (Nclf s + f)) (wrap64 (Nmf s + m)).

(** ** Arrays and leaves *)

(** [a[i]]; an index outside the array is undefined behaviour in the
    source and reads as 0 here. *)
Definition rd (a : list Z) (i : Z) : Z :=
  if i <? 0 then 0 else a !!! Z.to_nat i.

(** [a[i] = v]; an index outside the array leaves the list as it is. *)
Definition wr (a : list Z) (i : Z) (v : Z) : list Z :=
  if i <? 0 then a else <[Z.to_nat i := v]> a.

(** [struct LeafNode { uint64_t keys[CAP]; int count = 0; }], the layout
    shared by the leaves of articles 1, 2 and 3. *)
Record LeafNode : Type := mkLeaf { keys : list Z; count : Z }.

(** A leaf as its declaration leaves it: [count] is 0 and the [cap] slots
    hold whatever [junk] was in memory. *)
Definition fresh (cap : Z) (junk : list Z) : LeafNode :=
  mkLeaf (resize (Z.to_nat cap) 0 junk) 0.

(** The stored key sequence: the first [count] slots. *)
Definition live (leaf : LeafNode) : list Z :=
  take (Z.to_nat (count leaf)) (keys leaf).

(** The leaf owns [cap] slots and [count] of them are in use. *)
Definition leaf_ok (cap : Z) (leaf : LeafNode) : Prop :=
  length (keys leaf) = Z.to_nat cap /\ 0 <= count leaf <= cap.

(** ** The loops shared by the sorted leaves

    [while (pos < count && keys[pos] < key) pos++;]
    The loop runs at most [count - pos] times, which is the fuel
    [find_pos] passes. *)
Fixpoint find_pos_loop (fuel : nat) (a : list Z) (cnt key pos : Z) : Z :=
  match fuel with
  | O => pos
  | S fuel' =>
      if (pos <? cnt) && (rd a pos <? key)
      then find_pos_loop fuel' a cnt key (pos + 1)
      else pos
  end.

Definition find_pos (a : list Z) (cnt key : Z) : Z :=
  find_pos_loop (Z.to_nat cnt) a cnt key 0.

(** [for (int i = count; i > pos; i--) { keys[i] = keys[i-1]; pcm_write(); }]
    The loop runs [count - pos] times, the fuel [shift_right] passes. *)
Fixpoint shift_loop (fuel : nat) (a : list Z) (s : Stats) (i pos : Z)
  : list Z * Stats :=
  match fuel with
  | O => (a, s)
  | S fuel' =>
      if pos <? i
      then shift_loop fuel' (wr a i (rd a (i - 1))) (pcm_write s 1) (i - 1) pos
      else (a, s)
  end.

Definition shift_right (a : list Z) (s : Stats) (cnt pos : Z) : list Z * Stats :=
  shift_loop (Z.to_nat (cnt - pos)) a s cnt pos.

(** [for (int i = 0; i < count; i++) if (keys[i] == key) return true;
     return false;] *)
Fixpoint scan_loop (fuel : nat) (a : list Z) (cnt key i : Z) : bool :=
  match fuel with
  | O => false
  | S fuel' =>
      if i <? cnt
      then if rd a i =? key then true else scan_loop fuel' a cnt key (i + 1)
      else false
  end.

Definition linear_scan (leaf : LeafNode) (key : Z) : bool :=
  scan_loop (Z.to_nat (count leaf)) (keys leaf) (count leaf) key 0.

(** [int lo = 0, hi = count - 1;
     while (lo <= hi) {
       int mid = (lo + hi) / 2;
       if (keys[mid] == k) return true;
       if (keys[mid] < k) lo = mid + 1; else hi = mid - 1;
     }
     return false;]
    Every round shrinks [hi - lo + 1], which starts at [count]. *)
Fixpoint bsearch_loop (fuel : nat) (a : list Z) (k lo hi : Z) : bool :=
  match fuel with
  | O => false
  | S fuel' =>
      if lo <=? hi
      then
        let mid := Z.quot (lo + hi) 2 in
        if rd a mid =? k then true
        else if rd a mid <? k then bsearch_loop fuel' a k (mid + 1) hi
        else bsearch_loop fuel' a k lo (mid - 1)
      else false
  end.

Definition binary_search (leaf : LeafNode) (k : Z) : bool :=
  bsearch_loop (Z.to_nat (count leaf)) (keys leaf) k 0 (count leaf - 1).

(** ** Clock readings and conversions to [double] *)

(** [static_cast<double>(n)] for a [uint64_t]: rounding to nearest; a
    value of 2^63 or more is halved with a sticky low bit, converted and
    doubled. *)
Definition u64_to_double (n : Z) : float :=
  if n <? 2 ^ 63 then PrimFloat.of_uint63 (Uint63.of_Z n)
  else
    let h := PrimFloat.of_uint63
               (Uint63.of_Z (Z.lor (Z.shiftr n 1) (Z.land n 1))) in
    PrimFloat.add h h.

(** [static_cast<double>(d)] for a signed tick count [d] of magnitude
    below 2^63. *)
Definition i64_to_double (d : Z) : float :=
  if 0 <=? d then PrimFloat.of_uint63 (Uint63.of_Z d)
  else PrimFloat.opp (PrimFloat.of_uint63 (Uint63.of_Z (- d))).

(** [std::chrono::duration<double>(t1 - t0).count()] for two samples of
    [high_resolution_clock], whose tick is the nanosecond: the tick
    difference, converted, divided by 1e9. *)
Definition seconds_between (t0 t1 : Z) : float :=
  PrimFloat.div (i64_to_double (t1 - t0)) 1000000000%float.

(** ** article1_sorted_unsorted.cpp *)
Module Article1.

Definition CAP : Z := 128.

(** [void insert_sorted(LeafNode &leaf, uint64_t key)]; the counters are
    the globals [Nw], [Nclf], [Nmf] of the file. *)
Definition insert_sorted (leaf : LeafNode) (key : Z) (s : Stats)
  : LeafNode * Stats :=
  if CAP <=? count leaf then (leaf, s)
  else
    let pos := find_pos (keys leaf) (count leaf) key in
    let '(a, s) := shift_right (keys leaf) s (count leaf) pos in
    let a := wr a pos key in
    let leaf := mkLeaf a (count leaf + 1) in
    let s := pcm_write s 1 in
    let s := pcm_flush s in
    let s := pcm_fence s in
    (leaf, s).

(** [void insert_unsorted(LeafNode &leaf, uint64_t key)] *)
Definition insert_unsorted (leaf : LeafNode) (key : Z) (s : Stats)
  : LeafNode * Stats :=
  if CAP <=? count leaf then (leaf, s)
  else
    let leaf := mkLeaf (wr (keys leaf) (count leaf) key) (count leaf + 1) in
    let s := pcm_write s 1 in
    let s := pcm_flush s in
    let s := pcm_fence s in
    (leaf, s).

(** [bool search_leaf(const LeafNode &leaf, uint64_t target)] *)
Definition search_leaf (leaf : LeafNode) (target : Z) : bool :=
  linear_scan leaf target.

(** [class SimpleBPlusTree { public: vector<LeafNode> leaves; ... }] *)
Record SimpleBPlusTree : Type := mkTree { leaves : list LeafNode }.

(** [leaves[i]]; an index outside the vector is undefined behaviour in the
    source and reads as an empty leaf here. *)
Definition leaf_at (ls : list LeafNode) (i : Z) : LeafNode :=
  nth (Z.to_nat i) ls (mkLeaf [] 0).

(** [SimpleBPlusTree(int num_leaves) { leaves.resize(num_leaves); }]: the
    vector value-initialises its new elements, which zero-fills their
    arrays before [count = 0] applies. *)
Definition SimpleBPlusTree_new (num_leaves : Z) : SimpleBPlusTree :=
  mkTree (repeat (fresh CAP []) (Z.to_nat num_leaves)).

(** [void insert(uint64_t key) {
       int i = key % leaves.size();
       insert_unsorted(leaves[i], key); }]
    With no leaf the remainder is undefined in the source. *)
Definition SimpleBPlusTree_insert (t : SimpleBPlusTree) (key : Z) (s : Stats)
  : SimpleBPlusTree * Stats :=
  let i := key mod Z.of_nat (length (leaves t)) in
  let '(lf, s) := insert_unsorted (leaf_at (leaves t) i) key s in
  (mkTree (<[Z.to_nat i := lf]> (leaves t)), s).

(** [uint64_t size() {
       uint64_t total = 0;
       for (auto &l : leaves) total += l.count;
       return total; }] *)
Definition SimpleBPlusTree_size (t : SimpleBPlusTree) : Z :=
  fold_left (fun total l => wrap64 (total + count l)) (leaves t) 0.

(** A sequence of [index.insert(key)] calls, oldest first. *)
Definition SimpleBPlusTree_inserts (ks : list Z) (st : SimpleBPlusTree * Stats)
  : SimpleBPlusTree * Stats :=
  fold_left (fun st k => SimpleBPlusTree_insert (fst st) k (snd st)) ks st.

End Article1.

(** ** article2_wbtree.cpp *)
Module Article2.

Definition CAP : Z := 32.

(** [LeafBTreeVolatile::insert] *)
Definition LeafBTreeVolatile_insert (leaf : LeafNode) (k : Z) (s : Stats)
  : LeafNode * Stats :=
  if CAP <=? count leaf then (leaf, s)
  else
    let pos := find_pos (keys leaf) (count leaf) k in
    let '(a, s) := shift_right (keys leaf) s (count leaf) pos in
    let a := wr a pos k in
    let leaf := mkLeaf a (count leaf + 1) in
    let s := pcm_write s 1 in
    (leaf, s).

(** [LeafBTreeVolatile::search]; the [Stats&] argument is not used. *)
Definition LeafBTreeVolatile_search (leaf : LeafNode) (k : Z) (s : Stats)
  : bool * Stats :=
  (binary_search leaf k, s).

(** [LeafBTreeLog::insert] *)
Definition LeafBTreeLog_insert (leaf : LeafNode) (k : Z) (s : Stats)
  : LeafNode * Stats :=
  if CAP <=? count leaf then (leaf, s)
  else
    let s := pcm_write s 4 in
    let s := pcm_flush s in
    let s := pcm_fence s in
    let pos := find_pos (keys leaf) (count leaf) k in
    let '(a, s) := shift_right (keys leaf) s (count leaf) pos in
    let a := wr a pos k in
    let leaf := mkLeaf a (count leaf + 1) in
    let s := pcm_write s 1 in
    let s := pcm_flush s in
    let s := pcm_fence s in
    (leaf, s).

(** [LeafBTreeLog::search] *)
Definition LeafBTreeLog_search (leaf : LeafNode) (k : Z) (s : Stats)
  : bool * Stats :=
  (binary_search leaf k, s).

(** [LeafWBTree::insert] *)
Definition LeafWBTree_insert (leaf : LeafNode) (k : Z) (s : Stats)
  : LeafNode * Stats :=
  if CAP <=? count leaf then (leaf, s)
  else
    let idx := count leaf in
    let leaf := mkLeaf (wr (keys leaf) idx k) (count leaf + 1) in
    let s := pcm_write s 2 in
    let s := pcm_flush s in
    let s := pcm_fence s in
    (leaf, s).

(** [LeafWBTree::search] *)
Definition LeafWBTree_search (leaf : LeafNode) (k : Z) (s : Stats)
  : bool * Stats :=
  (linear_scan leaf k, s).

End Article2.

(** ** article3_bztree.cpp *)
Module Article3.

Definition CAP : Z := 32.

(** The [uint64_t*] values the program forms: the address of a key slot,
    [&leaf.keys[i]], and the address of the counter seen as a 64-bit
    word, [(uint64_t* )&leaf.count]. *)
Inductive word_ptr : Type :=
| key_slot (i : Z)
| count_word.

(** [struct PMwCAS_Entry { uint64_t* addr; uint64_t new_val; }] *)
Record PMwCAS_Entry : Type := mkEntry { addr : word_ptr; new_val : Z }.

(** [struct PMwCAS_Descriptor { vector<PMwCAS_Entry> entries; }] *)
Record PMwCAS_Descriptor : Type := mkDesc { entries : list PMwCAS_Entry }.

(** The [int] held by the four low-order bytes of a 64-bit word. *)
Definition int_of_low32 (v : Z) : Z :=
  let w := v mod 2 ^ 32 in
  if w <? 2 ^ 31 then w else w - 2 ^ 32.

(** [*(e.addr) = e.new_val].  The 64-bit store through the address of
    [count] covers the [int] and the four bytes of padding that close
    the struct; on the little-endian target the [int] receives the low
    half of the word. *)
Definition store (a : word_ptr) (v : Z) (leaf : LeafNode) : LeafNode :=
  match a with
  | key_slot i => mkLeaf (wr (keys leaf) i v) (count leaf)
  | count_word => mkLeaf (keys leaf) (int_of_low32 v)
  end.

(** The body of [for (auto &e : desc.entries)]. *)
Definition apply_entry (st : LeafNode * Stats) (e : PMwCAS_Entry)
  : LeafNode * Stats :=
  (store (addr e) (new_val e) (fst st), pcm_write (snd st) 1).

(** [bool pmwcas(PMwCAS_Descriptor &desc, Stats &s)] *)
Definition pmwcas (desc : PMwCAS_Descriptor) (leaf : LeafNode) (s : Stats)
  : bool * LeafNode * Stats :=
  let s := pcm_write s 2 in
  let s := pcm_flush s in
  let s := pcm_fence s in
  let '(leaf, s) := fold_left apply_entry (entries desc) (leaf, s) in
  let s := pcm_flush s in
  let s := pcm_fence s in
  (true, leaf, s).

(** [d.entries.push_back(e)] *)
Definition push_back (d : PMwCAS_Descriptor) (e : PMwCAS_Entry)
  : PMwCAS_Descriptor :=
  mkDesc (entries d ++ [e]).

(** The descriptor [bztree_insert] builds before it calls [pmwcas]. *)
Definition bztree_descriptor (leaf : LeafNode) (key : Z) : PMwCAS_Descriptor :=
  let d := mkDesc [] in
  let d := push_back d (mkEntry (key_slot (count leaf)) key) in
  let d := push_back d (mkEntry count_word (wrap64 (count leaf + 1))) in
  d.

(** [void bztree_insert(LeafNode &leaf, uint64_t key, Stats &s)] *)
Definition bztree_insert (leaf : LeafNode) (key : Z) (s : Stats)
  : LeafNode * Stats :=
  if CAP <=? count leaf then (leaf, s)
  else
    let d := bztree_descriptor leaf key in
    let '(_, leaf, s) := pmwcas d leaf s in
    (leaf, s).

(** [bool search_leaf(const LeafNode &leaf, uint64_t key)] *)
Definition search_leaf (leaf : LeafNode) (key : Z) : bool :=
  linear_scan leaf key.

Definition OPS : Z := 100000.

(** In [main]: [double secs = duration<double>(t1 - t0).count();
    double throughput = OPS / secs;] for the clock readings [t0], [t1]. *)
Definition main_throughput (t0 t1 : Z) : float :=
  let secs := seconds_between t0 t1 in
  PrimFloat.div (i64_to_double OPS) secs.

End Article3.

(** ** The standard-library pieces the extension simulators call *)

(** [std::lower_bound(v.begin(), v.end(), val)] as an offset into [v].
    The function belongs to the C++ library, not to the repository; the
    model follows the halving loop of its implementations:
    [while (len > 0) { half = len >> 1; middle = first + half;
       if (middle[0] < val) { first = middle + 1; len = len - half - 1; }
       else len = half; }
     return first;]
    [len] decreases in every round, so [length v] rounds suffice. *)
Fixpoint lower_bound_loop (fuel : nat) (v : list Z) (val : Z) (first len : nat)
  : nat :=
  match fuel with
  | O => first
  | S fuel' =>
      if (0 <? len)%nat
      then
        let half := Nat.div2 len in
        let middle := (first + half)%nat in
        if v !!! middle <? val
        then lower_bound_loop fuel' v val (middle + 1)%nat (len - half - 1)%nat
        else lower_bound_loop fuel' v val first half
      else first
  end.

Definition lower_bound (v : list Z) (val : Z) : nat :=
  lower_bound_loop (length v) v val 0%nat (length v).

(** [v.insert(v.begin() + it, key)] *)
Definition vector_insert (v : list Z) (it : nat) (key : Z) : list Z :=
  take it v ++ key :: drop it v.

(** [v.push_back(key)] *)
Definition vector_push_back (v : list Z) (key : Z) : list Z := v ++ [key].

(** The random source of a driver: the engine [std::mt19937_64 rng(seed)]
    and the two distributions drawing from it,
    [uniform_int_distribution<uint64_t> dist_key(1, 1'000'000'000ULL)] and
    [uniform_real_distribution<double> dist01(0.0, 1.0)].  Each draw
    returns a value and the engine state it leaves. *)
Record RandomSource : Type := mkRandomSource {
  engine : Type;
  mt19937_64 : Z -> engine;
  dist_key : engine -> Z * engine;
  dist01 : engine -> float * engine
}.

(** The contract of [uniform_real_distribution<double>(0.0, 1.0)]: every
    draw [r] has [0.0 <= r] and [r < 1.0]. *)
Definition unit_draws (R : RandomSource) : Prop :=
  forall g : engine R,
    PrimFloat.leb 0 (fst (dist01 R g)) = true /\
    PrimFloat.ltb (fst (dist01 R g)) 1 = true.

(** A small random source to run the drivers on: a 64-bit linear
    congruential engine, keys in 1 .. 10^9 from its state, and reals
    0.25 or 0.75 by the top bit of the state. *)
Definition lcg_next (g : Z) : Z :=
  (6364136223846793005 * g + 1442695040888963407) mod 2 ^ 64.

Definition lcg_source : RandomSource :=
  mkRandomSource Z (fun seed => seed mod 2 ^ 64)
    (fun g => (1 + g mod 1000000000, lcg_next g))
    (fun g => (if Z.testbit g 63 then 0.75%float else 0.25%float, lcg_next g)).

(** ** article1_extension.cpp, article2_extension.cpp, article3_extension.cpp *)
Module Extension.

(** A [LeafType] argument of the [run_mixed_workload] template: a
    default-constructible struct with [insert] and [search]. *)
Record LeafType : Type := mkLeafType {
  leaf_t : Type;
  leaf_new : leaf_t;
  leaf_insert : leaf_t -> Z -> Stats -> leaf_t * Stats;
  leaf_search : leaf_t -> Z -> Stats -> bool * Stats;
  leaf_keys : leaf_t -> list Z
}.

(** [auto it = std::lower_bound(keys.begin(), keys.end(), key);
     keys.insert(it, key);] *)
Definition insert_in_order (v : list Z) (key : Z) : list Z :=
  vector_insert v (lower_bound v key) key.

(** [auto it = std::lower_bound(keys.begin(), keys.end(), key);
     return it != keys.end() && *it == key;] *)
Definition lookup_in_order (v : list Z) (key : Z) : bool :=
  let it := lower_bound v key in
  negb (it =? length v)%nat && (v !!! it =? key).

(** [for (auto k : keys) if (k == key) return true; return false;] *)
Fixpoint lookup_by_scan (v : list Z) (key : Z) : bool :=
  match v with
  | [] => false
  | k :: v' => if k =? key then true else lookup_by_scan v' key
  end.

(** article1_extension.cpp: [struct UnsortedLeaf] *)
Definition UnsortedLeaf_insert (v : list Z) (key : Z) (s : Stats)
  : list Z * Stats :=
  (vector_push_back v key, charge s 1 1 1).

Definition UnsortedLeaf_search (v : list Z) (key : Z) (s : Stats)
  : bool * Stats :=
  (lookup_by_scan v key, s).

Definition UnsortedLeaf : LeafType :=
  mkLeafType (list Z) [] UnsortedLeaf_insert UnsortedLeaf_search id.

(** The six structs whose [insert] places the key at its lower bound
    and whose [search] looks it up there; they differ in the three
    coefficients added to the counters. *)
Definition ordered_insert (w f m : Z) (v : list Z) (key : Z) (s : Stats)
  : list Z * Stats :=
  (insert_in_order v key, charge s w f m).

Definition ordered_search (v : list Z) (key : Z) (s : Stats) : bool * Stats :=
  (lookup_in_order v key, s).

Definition ordered_leaf (w f m : Z) : LeafType :=
  mkLeafType (list Z) [] (ordered_insert w f m) ordered_search id.

(** article1_extension.cpp: [struct SortedLeaf] *)
Definition SortedLeaf : LeafType := ordered_leaf 4 2 1.
(** article2_extension.cpp: [struct LeafBaseline], [LeafLogging], [LeafWBTree] *)
Definition LeafBaseline : LeafType := ordered_leaf 4 2 1.
Definition LeafLogging : LeafType := ordered_leaf 8 4 2.
Definition LeafWBTree : LeafType := ordered_leaf 2 1 1.
(** article3_extension.cpp: [struct BzLeaf], [struct SimpleLeaf] *)
Definition BzLeaf : LeafType := ordered_leaf 3 3 2.
Definition SimpleLeaf : LeafType := ordered_leaf 4 2 1.

(** [struct MixedResult { double throughput_ops_sec; Stats stats; }] *)
Record MixedResult : Type := mkMixedResult {
  throughput_ops_sec : float;
  stats : Stats
}.

Section Driver.

Variable R : RandomSource.
Variable L : LeafType.

(** The local variables [leaf], [stats] and [rng] of the driver. *)
Record Locals : Type := mkLocals {
  l_leaf : leaf_t L;
  l_stats : Stats;
  l_rng : engine R
}.

(** [leaf.insert(dist_key(rng), stats);] *)
Definition prefill_step (st : Locals) : Locals :=
  let '(key, g) := dist_key R (l_rng st) in
  let '(lf, s) := leaf_insert L (l_leaf st) key (l_stats st) in
  mkLocals lf s g.

(** [leaf.insert(key, stats);] with the engine left in state [g]. *)
Definition do_insert (st : Locals) (key : Z) (g : engine R) : Locals :=
  let '(lf, s) := leaf_insert L (l_leaf st) key (l_stats st) in
  mkLocals lf s g.

(** [(void) leaf.search(key, stats);] with the engine left in state [g]. *)
Definition do_search (st : Locals) (key : Z) (g : engine R) : Locals :=
  let '(_, s) := leaf_search L (l_leaf st) key (l_stats st) in
  mkLocals (l_leaf st) s g.

(** [double r = dist01(rng); uint64_t key = dist_key(rng);
     if (r < write_ratio) leaf.insert(key, stats);
     else (void) leaf.search(key, stats);] *)
Definition timed_step (write_ratio : float) (st : Locals) : Locals :=
  let '(r, g) := dist01 R (l_rng st) in
  let '(key, g) := dist_key R g in
  if PrimFloat.ltb r write_ratio
  then do_insert st key g
  else do_search st key g.

(** The declarations that open the driver. *)
Definition start (seed : Z) : Locals :=
  mkLocals (leaf_new L) Stats0 (mt19937_64 R seed).

(** [for (uint64_t i = 0; i < prefill; ++i) ...] *)
Definition after_prefill (seed prefill : Z) : Locals :=
  Nat.iter (Z.to_nat prefill) prefill_step (start seed).

(** [for (uint64_t i = 0; i < num_ops; ++i) ...] *)
Definition after_timed (seed prefill num_ops : Z) (write_ratio : float)
  : Locals :=
  Nat.iter (Z.to_nat num_ops) (timed_step write_ratio)
    (after_prefill seed prefill).

(** The body of [run_mixed_workload<LeafType>(prefill, num_ops,
    write_ratio)] with the seed of its file, down to its [return]:
    the locals as the two loops leave them, and [res].  [t0] and [t1]
    are the two readings of the clock, taken around the second loop. *)
Definition run_frame (seed : Z) (prefill num_ops : Z)
  (write_ratio : float) (t0 t1 : Z) : Locals * MixedResult :=
  let st := after_timed seed prefill num_ops write_ratio in
  let elapsed := seconds_between t0 t1 in
  let res :=
    mkMixedResult (PrimFloat.div (u64_to_double num_ops) elapsed)
      (l_stats st) in
  (st, res).

(** [MixedResult run_mixed_workload<LeafType>(...)]: the returned [res]. *)
Definition run_mixed_workload (seed : Z) (prefill num_ops : Z)
  (write_ratio : float) (t0 t1 : Z) : MixedResult :=
  snd (run_frame seed prefill num_ops write_ratio t0 t1).

End Driver.

Arguments mkLocals {R L} _ _ _.
Arguments l_leaf {R L} _.
Arguments l_stats {R L} _.
Arguments l_rng {R L} _.

(** The seeds the three files give their engine. *)
Definition seed_article1 : Z := 42.
Definition seed_article2 : Z := 123.
Definition seed_article3 : Z := 321.

End Extension.

(** * The vocabulary of the properties *)

(** ** Ledgers *)

(** The ledger [s'] is [s] advanced by [w] writes, [f] flushes and [m]
    fences in 64-bit arithmetic. *)
Definition advanced (s s' : Stats) (w f m : Z) : Prop :=
  Nw s' = wrap64 (Nw s + w) /\
  Nclf s' = wrap64 (Nclf s + f) /\
  Nmf s' = wrap64 (Nmf s + m).

(** No counter of [s] passes 2^64 - 1 when advanced by [w], [f], [m]. *)
Definition has_room (s : Stats) (w f m : Z) : Prop :=
  stats_ok s /\ Nw s + w < 2 ^ 64 /\ Nclf s + f < 2 ^ 64 /\ Nmf s + m < 2 ^ 64.

(** ** Stored sequences *)

(** The number of leading keys of [l] that are below [key]. *)
Fixpoint rank (l : list Z) (key : Z) : nat :=
  match l with
  | [] => O
  | x :: l' => if x <? key then S (rank l' key) else O
  end.

(** [l] with [key] placed after its [rank l key] leading keys. *)
Definition insert_at_rank (l : list Z) (key : Z) : list Z :=
  take (rank l key) l ++ key :: drop (rank l key) l.

(** The number of keys a sorted insert of [key] moves. *)
Definition shifts (leaf : LeafNode) (key : Z) : Z :=
  count leaf - Z.of_nat (rank (live leaf) key).

(** The number of keys each insert of [ks] moves, starting from the
    stored sequence [l]. *)
Fixpoint shift_distances (l ks : list Z) : list Z :=
  match ks with
  | [] => []
  | k :: ks' =>
      (Z.of_nat (length l) - Z.of_nat (rank l k))
        :: shift_distances (insert_at_rank l k) ks'
  end.

(** One write per moved key and one for each new key. *)
Definition shift_writes (l ks : list Z) : Z :=
  fold_right Z.add 0 (shift_distances l ks) + Z.of_nat (length ks).

(** What an insert of an array leaf does: nothing on a full leaf;
    otherwise the stored sequence becomes [place (live leaf) key] and the
    ledger advances by [w leaf key], [f], [m]. *)
Definition array_insert_spec (cap : Z)
  (insert : LeafNode -> Z -> Stats -> LeafNode * Stats)
  (place : list Z -> Z -> list Z) (w : LeafNode -> Z -> Z) (f m : Z) : Prop :=
  forall (leaf : LeafNode) (key : Z) (s : Stats),
    (cap <= count leaf -> insert leaf key s = (leaf, s)) /\
    (leaf_ok cap leaf -> count leaf < cap ->
     leaf_ok cap (fst (insert leaf key s)) /\
     count (fst (insert leaf key s)) = count leaf + 1 /\
     live (fst (insert leaf key s)) = place (live leaf) key /\
     (stats_ok s -> advanced s (snd (insert leaf key s)) (w leaf key) f m)).

Definition append (l : list Z) (key : Z) : list Z := l ++ [key].

(** ** The thirteen leaf variants of the repository, under one interface *)

(** The array leaves, named by the label their file prints for them. *)
Inductive array_variant : Type :=
| sorted_a1          (* insert_sorted, search_leaf: article1_sorted_unsorted.cpp *)
| unsorted_a1        (* insert_unsorted, search_leaf: article1_sorted_unsorted.cpp *)
| btree_volatile     (* LeafBTreeVolatile: article2_wbtree.cpp *)
| btree_log          (* LeafBTreeLog: article2_wbtree.cpp *)
| wbtree_simplified  (* LeafWBTree: article2_wbtree.cpp *)
| bztree_sim.        (* bztree_insert, search_leaf: article3_bztree.cpp *)

(** The vector leaves of the extension simulators. *)
Inductive vector_variant : Type :=
| unsorted_leaf      (* UnsortedLeaf: article1_extension.cpp *)
| sorted_leaf        (* SortedLeaf: article1_extension.cpp *)
| baseline           (* LeafBaseline: article2_extension.cpp *)
| logging            (* LeafLogging: article2_extension.cpp *)
| wbtree             (* LeafWBTree: article2_extension.cpp *)
| simple_leaf        (* SimpleLeaf: article3_extension.cpp *)
| bztree_leaf.       (* BzLeaf: article3_extension.cpp *)

Inductive variant : Type :=
| array_backed (a : array_variant)
| vector_backed (e : vector_variant).

Definition a_cap (a : array_variant) : Z :=
  match a with
  | sorted_a1 | unsorted_a1 => Article1.CAP
  | btree_volatile | btree_log | wbtree_simplified => Article2.CAP
  | bztree_sim => Article3.CAP
  end.

Definition a_insert (a : array_variant)
  : LeafNode -> Z -> Stats -> LeafNode * Stats :=
  match a with
  | sorted_a1 => Article1.insert_sorted
  | unsorted_a1 => Article1.insert_unsorted
  | btree_volatile => Article2.LeafBTreeVolatile_insert
  | btree_log => Article2.LeafBTreeLog_insert
  | wbtree_simplified => Article2.LeafWBTree_insert
  | bztree_sim => Article3.bztree_insert
  end.

Definition a_search (a : array_variant)
  : LeafNode -> Z -> Stats -> bool * Stats :=
  match a with
  | sorted_a1 | unsorted_a1 => fun leaf k s => (Article1.search_leaf leaf k, s)
  | btree_volatile => Article2.LeafBTreeVolatile_search
  | btree_log => Article2.LeafBTreeLog_search
  | wbtree_simplified => Article2.LeafWBTree_search
  | bztree_sim => fun leaf k s => (Article3.search_leaf leaf k, s)
  end.

Definition e_leaf (e : vector_variant) : Extension.LeafType :=
  match e with
  | unsorted_leaf => Extension.UnsortedLeaf
  | sorted_leaf => Extension.SortedLeaf
  | baseline => Extension.LeafBaseline
  | logging => Extension.LeafLogging
  | wbtree => Extension.LeafWBTree
  | simple_leaf => Extension.SimpleLeaf
  | bztree_leaf => Extension.BzLeaf
  end.

(** A leaf strategy: its node type, the node a declaration creates (out
    of the memory content [junk] for an array), [insert], [search], the
    stored key sequence, the number of stored keys, and the capacity its
    [insert] checks, when it checks one. *)
Record Strategy : Type := mkStrategy {
  st_node : Type;
  st_new : list Z -> st_node;
  st_insert : st_node -> Z -> Stats -> st_node * Stats;
  st_search : st_node -> Z -> Stats -> bool * Stats;
  st_keys : st_node -> list Z;
  st_count : st_node -> Z;
  st_cap : option Z
}.

Definition strategy (v : variant) : Strategy :=
  match v with
  | array_backed a =>
      mkStrategy LeafNode (fresh (a_cap a)) (a_insert a) (a_search a)
        live count (Some (a_cap a))
  | vector_backed e =>
      mkStrategy (Extension.leaf_t (e_leaf e))
        (fun _ => Extension.leaf_new (e_leaf e))
        (Extension.leaf_insert (e_leaf e))
        (Extension.leaf_search (e_leaf e))
        (Extension.leaf_keys (e_leaf e))
        (fun n => Z.of_nat (length (Extension.leaf_keys (e_leaf e) n)))
        None
  end.

(** The variants whose insert puts the key at its place in the order:
    sorted shift, logging sorted shift, and the lower-bound inserts. *)
Definition keeps_order (v : variant) : bool :=
  match v with
  | array_backed (sorted_a1 | btree_volatile | btree_log) => true
  | array_backed _ => false
  | vector_backed unsorted_leaf => false
  | vector_backed _ => true
  end.

(** The effect of one accepted insert on the stored sequence. *)
Definition place (v : variant) : list Z -> Z -> list Z :=
  if keeps_order v then insert_at_rank else append.

(** A sequence of [insert] calls, oldest first. *)
Definition insert_all (S : Strategy) (ks : list Z) (st : st_node S * Stats)
  : st_node S * Stats :=
  fold_left (fun st k => st_insert S (fst st) k (snd st)) ks st.

(** No insert of [ks] into a new leaf is dropped for capacity. *)
Definition fits (S : Strategy) (ks : list Z) : Prop :=
  match st_cap S with
  | Some c => Z.of_nat (length ks) <= c
  | None => True
  end.

(** The state of a node that the inserts maintain. *)
Definition good (v : variant) : st_node (strategy v) -> Prop :=
  match v with
  | array_backed a => fun n =>
      leaf_ok (a_cap a) n /\
      (keeps_order (array_backed a) = true -> StronglySorted Z.le (live n))
  | vector_backed e => fun n =>
      keeps_order (vector_backed e) = true ->
      StronglySorted Z.le (Extension.leaf_keys (e_leaf e) n)
  end.

Definition has_space (S : Strategy) (n : st_node S) : Prop :=
  match st_cap S with
  | Some c => st_count S n < c
  | None => True
  end.

(** The ledger coefficients of one accepted insert of an array leaf. *)
Definition a_w (a : array_variant) : LeafNode -> Z -> Z :=
  match a with
  | sorted_a1 | btree_volatile => fun leaf key => shifts leaf key + 1
  | btree_log => fun leaf key => 4 + (shifts leaf key + 1)
  | unsorted_a1 => fun _ _ => 1
  | wbtree_simplified => fun _ _ => 2
  | bztree_sim => fun _ _ => 4
  end.

Definition a_f (a : array_variant) : Z :=
  match a with
  | btree_volatile => 0
  | sorted_a1 | unsorted_a1 | wbtree_simplified => 1
  | btree_log | bztree_sim => 2
  end.

(** ** Sequences of inserts *)

(** The number of inserts a node with [cnt] stored keys still accepts. *)
Definition room (S : Strategy) (n : st_node S) (ks : list Z) : nat :=
  match st_cap S with
  | Some c => Z.to_nat (c - st_count S n)
  | None => length ks
  end.

(** The three coefficients a vector leaf adds to the ledger per insert. *)
Definition e_w (e : vector_variant) : Z :=
  match e with
  | unsorted_leaf => 1
  | sorted_leaf | baseline | simple_leaf => 4
  | logging => 8
  | wbtree => 2
  | bztree_leaf => 3
  end.

Definition e_f (e : vector_variant) : Z :=
  match e with
  | unsorted_leaf | wbtree => 1
  | sorted_leaf | baseline | simple_leaf => 2
  | logging => 4
  | bztree_leaf => 3
  end.

Definition e_m (e : vector_variant) : Z :=
  match e with
  | unsorted_leaf | sorted_leaf | baseline | simple_leaf | wbtree => 1
  | logging | bztree_leaf => 2
  end.

(** The writes an accepted insert of an array leaf records besides the
    one per moved key. *)
Definition a_fix (a : array_variant) : Z :=
  match a with
  | sorted_a1 | unsorted_a1 | btree_volatile => 1
  | wbtree_simplified => 2
  | bztree_sim => 4
  | btree_log => 5
  end.

(** The keys the sorted inserts of [ks] move in total, none for a leaf
    that appends. *)
Definition moved_keys (a : array_variant) (l ks : list Z) : Z :=
  if keeps_order (array_backed a)
  then fold_right Z.add 0 (shift_distances l ks)
  else 0.

(** ** The multi-leaf tree of article 1 *)

(** The keys the leaves of a tree hold in total. *)
Definition stored_total (ls : list LeafNode) : Z :=
  fold_right (fun l acc => count l + acc) 0 ls.

(** A tree of [n] leaves, each within its capacity, where leaf [i] holds
    only keys whose remainder modulo [n] is [i]. *)
Definition tree_ok (n : nat) (t : Article1.SimpleBPlusTree) : Prop :=
  length (Article1.leaves t) = n /\
  forall (i : nat) (leaf : LeafNode),
    Article1.leaves t !! i = Some leaf ->
    leaf_ok Article1.CAP leaf /\
    forall k, In k (live leaf) -> k mod Z.of_nat n = Z.of_nat i.

(** ** Words of a leaf, as the PMwCAS entries address them *)

(** The address [a] lies in the leaf. *)
Definition in_leaf (leaf : LeafNode) (a : Article3.word_ptr) : Prop :=
  match a with
  | Article3.key_slot i => 0 <= i < Z.of_nat (length (keys leaf))
  | Article3.count_word => True
  end.

(** The word at [a] holds the 64-bit value [v]: a key slot holds it as it
    is, the counter holds its low half. *)
Definition holds (leaf : LeafNode) (a : Article3.word_ptr) (v : Z) : Prop :=
  match a with
  | Article3.key_slot i => rd (keys leaf) i = v
  | Article3.count_word => count leaf = Article3.int_of_low32 v
  end.

(** The word at [a] is the same in [leaf] and [leaf']. *)
Definition same_word (leaf leaf' : LeafNode) (a : Article3.word_ptr) : Prop :=
  match a with
  | Article3.key_slot i => rd (keys leaf') i = rd (keys leaf) i
  | Article3.count_word => count leaf' = count leaf
  end.

(** The store one entry of a descriptor makes. *)
Definition store_entry (leaf : LeafNode) (e : Article3.PMwCAS_Entry) : LeafNode :=
  Article3.store (Article3.addr e) (Article3.new_val e) leaf.

(** ** The streams of the drivers *)

(** The engine after one prefill draw, and after the two draws of one
    timed operation. *)
Definition skip_key (R : RandomSource) (g : engine R) : engine R :=
  snd (dist_key R g).

Definition skip_op (R : RandomSource) (g : engine R) : engine R :=
  snd (dist_key R (snd (dist01 R g))).

(** The ledger of [n] inserts of a vector leaf, started at zero. *)
Definition ledger_of (e : vector_variant) (n : nat) : Stats :=
  mkStats (wrap64 (e_w e * Z.of_nat n)) (wrap64 (e_f e * Z.of_nat n))
    (wrap64 (e_m e * Z.of_nat n)).

(** The ledger of the driver is the ledger of as many inserts as the leaf
    holds keys. *)
Definition in_step (R : RandomSource) (e : vector_variant)
  (st : Extension.Locals R (e_leaf e)) : Prop :=
  Extension.l_stats st
  = ledger_of e
      (length (Extension.leaf_keys (e_leaf e) (Extension.l_leaf st))).

(** ** What a run of the driver does, read off the engine

    The engine state after seeding and after every draw is a function of
    the seed.  So the draws of a run, and with them the operations it
    performs, can be listed from the seed without running the driver. *)

(** The timed operation when it is an insert, and when it is a search:
    the two draws, then [leaf.insert(key, stats)] or
    [leaf.search(key, stats)]. *)
Definition insert_op (R : RandomSource) (L : Extension.LeafType)
  (st : Extension.Locals R L) : Extension.Locals R L :=
  Extension.do_insert R L st
    (fst (dist_key R (snd (dist01 R (Extension.l_rng st)))))
    (snd (dist_key R (snd (dist01 R (Extension.l_rng st))))).

Definition search_op (R : RandomSource) (L : Extension.LeafType)
  (st : Extension.Locals R L) : Extension.Locals R L :=
  Extension.do_search R L st
    (fst (dist_key R (snd (dist01 R (Extension.l_rng st)))))
    (snd (dist_key R (snd (dist01 R (Extension.l_rng st))))).

(** The [n] keys drawn one after the other from the engine state [g]. *)
Fixpoint key_draws (R : RandomSource) (n : nat) (g : engine R) : list Z :=
  match n with
  | O => []
  | S n' => fst (dist_key R g) :: key_draws R n' (skip_key R g)
  end.

(** Of [n] pairs of draws (a real, then a key) from the engine state [g]:
    the keys whose real is below [write_ratio], in the order drawn. *)
Fixpoint timed_inserts (R : RandomSource) (write_ratio : float) (n : nat)
  (g : engine R) : list Z :=
  match n with
  | O => []
  | S n' =>
      let r := fst (dist01 R g) in
      let key := fst (dist_key R (snd (dist01 R g))) in
      if PrimFloat.ltb r write_ratio
      then key :: timed_inserts R write_ratio n' (skip_op R g)
      else timed_inserts R write_ratio n' (skip_op R g)
  end.

(** The keys a run hands to [insert], first to last: the [prefill] keys
    drawn first, then the keys of the timed operations whose real is
    below [write_ratio]. *)
Definition inserted_keys (R : RandomSource) (seed prefill num_ops : Z)
  (write_ratio : float) : list Z :=
  key_draws R (Z.to_nat prefill) (mt19937_64 R seed)
  ++ timed_inserts R write_ratio (Z.to_nat num_ops)
       (Nat.iter (Z.to_nat prefill) (skip_key R) (mt19937_64 R seed)).

(** [insert] called on the keys of [ks], first to last. *)
Definition insert_keys (L : Extension.LeafType) (ks : list Z)
  (st : Extension.leaf_t L * Stats) : Extension.leaf_t L * Stats :=
  fold_left (fun st k => Extension.leaf_insert L (fst st) k (snd st)) ks st.

(** ** The [main] functions of article2_wbtree.cpp and article3_bztree.cpp

    Their console and file output aside, each [main] computes the rows it
    writes to its CSV file: a throughput and the three counters (and, for
    article 3, a number of search hits).  The engine and its distribution
    are those of a [RandomSource]; the clock readings are arguments. *)

(** [for (auto &k : v) k = dist(rng);] for a vector of [n] elements: the
    keys drawn, first to last, and the engine afterwards. *)
Fixpoint draw_keys (R : RandomSource) (n : nat) (g : engine R)
  : list Z * engine R :=
  match n with
  | O => ([], g)
  | S n' =>
      let '(k, g) := dist_key R g in
      let '(ks, g) := draw_keys R n' g in
      (k :: ks, g)
  end.

(** [for (auto k : keys) leaf.insert(k, stats);] *)
Definition insert_each (insert : LeafNode -> Z -> Stats -> LeafNode * Stats)
  (ks : list Z) (st : LeafNode * Stats) : LeafNode * Stats :=
  fold_left (fun st k => insert (fst st) k (snd st)) ks st.

Module Main3.

(** [const int PREFILL = CAP * 7 / 10;] *)
Definition PREFILL : Z := Z.quot (Article3.CAP * 7) 10.

(** [for (int i = 0; i < PREFILL; i++)
       bztree_insert(leaf, dist(rng), stats);] with [n] rounds to go. *)
Fixpoint prefill_loop (R : RandomSource) (n : nat)
  (st : LeafNode * Stats * engine R) : LeafNode * Stats * engine R :=
  match n with
  | O => st
  | S n' =>
      let '(leaf, stats, g) := st in
      let '(k, g) := dist_key R g in
      let '(leaf, stats) := Article3.bztree_insert leaf k stats in
      prefill_loop R n' (leaf, stats, g)
  end.

(** [int hits = 0;
     for (int i = 0; i < 5000; i++)
       if (search_leaf(leaf, ops[i])) hits++;] over the first 5000 keys. *)
Definition count_hits (leaf : LeafNode) (ops : list Z) : Z :=
  fold_left (fun hits k => if Article3.search_leaf leaf k then hits + 1 else hits)
    (take 5000 ops) 0.

(** The row written to [results/bztree_metrics.csv]. *)
Record Row : Type := mkRow {
  throughput : float;
  row_Nw : Z;
  row_Nclf : Z;
  row_Nmf : Z;
  search_hits : Z
}.

(** The keys [main] draws: [PREFILL] for the prefill, then [OPS]. *)
Definition prefill_keys (R : RandomSource) : list Z :=
  fst (draw_keys R (Z.to_nat PREFILL) (mt19937_64 R 123)).

Definition ops_keys (R : RandomSource) : list Z :=
  fst (draw_keys R (Z.to_nat Article3.OPS)
         (snd (draw_keys R (Z.to_nat PREFILL) (mt19937_64 R 123)))).

(** [int main()]: [junk] is what the array of [leaf] holds at its
    declaration, [t0] and [t1] are the clock readings. *)
Definition main (R : RandomSource) (junk : list Z) (t0 t1 : Z) : Row :=
  let rng := mt19937_64 R 123 in
  let leaf := fresh Article3.CAP junk in
  let stats := Stats0 in
  let '(leaf, stats, rng) :=
    prefill_loop R (Z.to_nat PREFILL) (leaf, stats, rng) in
  let '(ops, rng) := draw_keys R (Z.to_nat Article3.OPS) rng in
  let '(leaf, stats) := insert_each Article3.bztree_insert ops (leaf, stats) in
  let throughput := Article3.main_throughput t0 t1 in
  let hits := count_hits leaf ops in
  mkRow throughput (Nw stats) (Nclf stats) (Nmf stats) hits.

End Main3.

Module Main2.

(** [const int PREFILL = CAP * 7 / 10;] and [const int OPS = 100000;] *)
Definition PREFILL : Z := Z.quot (Article2.CAP * 7) 10.
Definition OPS : Z := 100000.

(** [template<typename LeafType>
     double run_insert_benchmark(LeafType &leaf, Stats &stats,
                                 const vector<uint64_t> &keys)]:
    the leaf and the ledger after the loop, and the returned
    [keys.size() / secs]. *)
Definition run_insert_benchmark
  (insert : LeafNode -> Z -> Stats -> LeafNode * Stats)
  (leaf : LeafNode) (stats : Stats) (ks : list Z) (t0 t1 : Z)
  : LeafNode * Stats * float :=
  let '(leaf, stats) := insert_each insert ks (leaf, stats) in
  let secs := seconds_between t0 t1 in
  (leaf, stats, PrimFloat.div (u64_to_double (Z.of_nat (length ks))) secs).

(** A row of [results/wbtree_insert_metrics.csv]. *)
Record Row : Type := mkRow {
  throughput : float;
  row_Nw : Z;
  row_Nclf : Z;
  row_Nmf : Z
}.

(** One of the three blocks of [main]:
    [{ Leaf leaf; Stats s; for (auto k : prefill) leaf.insert(k, s);
       double tp = run_insert_benchmark(leaf, s, bench); csv << ... }] *)
Definition block (insert : LeafNode -> Z -> Stats -> LeafNode * Stats)
  (junk prefill bench : list Z) (t0 t1 : Z) : Row :=
  let leaf := fresh Article2.CAP junk in
  let s := Stats0 in
  let '(leaf, s) := insert_each insert prefill (leaf, s) in
  let '(_, s, tp) := run_insert_benchmark insert leaf s bench t0 t1 in
  mkRow tp (Nw s) (Nclf s) (Nmf s).

(** [int main()]: the rows of the volatile leaf, of the logging leaf and
    of the simplified wB+-Tree leaf, in that order.  Each block has its
    own array content at declaration and its own clock readings. *)
Definition main (R : RandomSource) (junk1 junk2 junk3 : list Z)
  (c1 c2 c3 : Z * Z) : Row * Row * Row :=
  let rng := mt19937_64 R 123 in
  let '(prefill, rng) := draw_keys R (Z.to_nat PREFILL) rng in
  let '(bench, rng) := draw_keys R (Z.to_nat OPS) rng in
  (block Article2.LeafBTreeVolatile_insert junk1 prefill bench (fst c1) (snd c1),
   block Article2.LeafBTreeLog_insert junk2 prefill bench (fst c2) (snd c2),
   block Article2.LeafWBTree_insert junk3 prefill bench (fst c3) (snd c3)).

End Main2.

(** Each key of [l] is below the next. *)
Fixpoint ascendingb (l : list Z) : bool :=
  match l with
  | [] => true
  | x :: l' =>
      match l' with
      | [] => true
      | y :: _ => (x <? y) && ascendingb l'
      end
  end.

(** A random source whose keys count up from the seed: 1 + seed,
    2 + seed, and so on. *)
Definition counter_source : RandomSource :=
  mkRandomSource Z (fun seed => seed)
    (fun g => (1 + g mod 1000000000, g + 1))
    (fun g => (0.5%float, g + 1)).

(** ** The [main] function of article1_sorted_unsorted.cpp *)

Module Main1.

(** [const int NUM_LEAVES = 64;], [const int PREFILL = 200'000;] and
    [const int BENCH_OPS = 50'000;] *)
Definition NUM_LEAVES : Z := 64.
Definition PREFILL : Z := 200000.
Definition BENCH_OPS : Z := 50000.

Section Main.

(** The engine [mt19937_64 rng(123)] and the distribution
    [uniform_int_distribution<uint64_t> dist(1, 100'000'000)] of this
    file: the engine states, the state after construction, and a draw. *)
Variable E : Type.
Variable rng0 : E.
Variable dist : E -> Z * E.

(** [for (auto &k : bench_keys) k = dist(rng);] *)
Fixpoint draw (n : nat) (g : E) : list Z * E :=
  match n with
  | O => ([], g)
  | S n' =>
      let '(k, g) := dist g in
      let '(ks, g) := draw n' g in
      (k :: ks, g)
  end.

(** [for (int i = 0; i < PREFILL; i++) index.insert(dist(rng));] with [n]
    rounds to go; the ledger is the global counters of the file. *)
Fixpoint prefill_loop (n : nat) (st : Article1.SimpleBPlusTree * Stats * E)
  : Article1.SimpleBPlusTree * Stats * E :=
  match n with
  | O => st
  | S n' =>
      let '(index, s, g) := st in
      let '(k, g) := dist g in
      let '(index, s) := Article1.SimpleBPlusTree_insert index k s in
      prefill_loop n' (index, s, g)
  end.

(** [for (auto k : bench_keys) { insert_sorted(base_leaf, k); ib++; }] *)
Definition sorted_loop (ks : list Z) (st : LeafNode * Stats * Z)
  : LeafNode * Stats * Z :=
  fold_left
    (fun st k =>
       let '(leaf, s, ib) := st in
       let '(leaf, s) := Article1.insert_sorted leaf k s in
       (leaf, s, ib + 1))
    ks st.

(** [for (auto k : bench_keys) { index.insert(k); iu++; pcm_write(); }] *)
Definition tree_loop (ks : list Z)
  (st : Article1.SimpleBPlusTree * Stats * Z)
  : Article1.SimpleBPlusTree * Stats * Z :=
  fold_left
    (fun st k =>
       let '(index, s, iu) := st in
       let '(index, s) := Article1.SimpleBPlusTree_insert index k s in
       (index, pcm_write s 1, iu + 1))
    ks st.

(** [int hits = 0;
     for (int i = 0; i < 5'000; i++)
       if (search_leaf(base_leaf, bench_keys[i])) hits++;] *)
Definition count_hits (leaf : LeafNode) (ks : list Z) : Z :=
  fold_left (fun hits k => if Article1.search_leaf leaf k then hits + 1 else hits)
    (take 5000 ks) 0.

(** A row of [results/article1_metrics.csv]. *)
Record Row : Type := mkRow {
  throughput : float;
  row_Nw : Z;
  row_Nclf : Z;
  row_Nmf : Z;
  search_hits : Z
}.

(** The keys [main] draws: [PREFILL] for the tree, then [BENCH_OPS]. *)
Definition prefill_keys : list Z := fst (draw (Z.to_nat PREFILL) rng0).

Definition bench_keys : list Z :=
  fst (draw (Z.to_nat BENCH_OPS) (snd (draw (Z.to_nat PREFILL) rng0))).

(** [int main()]: the row labelled [sorted] and the row labelled
    [unsorted].  [junk] is what the array of [base_leaf] holds at its
    declaration; [t0 .. t3] are the four clock readings. *)
Definition main (junk : list Z) (t0 t1 t2 t3 : Z) : Row * Row :=
  let index := Article1.SimpleBPlusTree_new NUM_LEAVES in
  let '(index, s, rng) := prefill_loop (Z.to_nat PREFILL) (index, Stats0, rng0) in
  let '(bench, rng) := draw (Z.to_nat BENCH_OPS) rng in
  let base_leaf := fresh Article1.CAP junk in
  let '(base_leaf, s, ib) := sorted_loop bench (base_leaf, s, 0) in
  let '(index, s, iu) := tree_loop bench (index, s, 0) in
  let secs_base := seconds_between t0 t1 in
  let secs_tree := seconds_between t2 t3 in
  let tp_base := PrimFloat.div (i64_to_double ib) secs_base in
  let tp_tree := PrimFloat.div (i64_to_double iu) secs_tree in
  let hits := count_hits base_leaf bench in
  (mkRow tp_base (Nw s) (Nclf s) (Nmf s) hits,
   mkRow tp_tree (Nw s / 4) (Nclf s / 4) (Nmf s / 4) hits).

(** The tree [index] as [main] leaves it. *)
Definition final_index : Article1.SimpleBPlusTree :=
  let index := Article1.SimpleBPlusTree_new NUM_LEAVES in
  let '(index, s, rng) := prefill_loop (Z.to_nat PREFILL) (index, Stats0, rng0) in
  let '(bench, rng) := draw (Z.to_nat BENCH_OPS) rng in
  let '(index, _, _) := tree_loop bench (index, s, 0) in
  index.

End Main.

End Main1.

(** A distribution for the [main] of article 1 whose keys count up from
    the engine state. *)
Definition counting_dist (g : Z) : Z * Z := (1 + g mod 100000000, g + 1).

(** * Properties *)

(** ** Counters *)

Lemma wrap64_add_l (x y : Z) : wrap64 (wrap64 x + y) = wrap64 (x + y).
Proof. unfold wrap64. apply Zplus_mod_idemp_l. Qed.

Lemma wrap64_small (x : Z) : 0 <= x < 2 ^ 64 -> wrap64 x = x.
Proof. intros H. unfold wrap64. apply Z.mod_small. exact H. Qed.

Lemma wrap64_range (x : Z) : 0 <= wrap64 x < 2 ^ 64.
Proof. unfold wrap64. apply Z.mod_pos_bound. lia. Qed.

(** A 64-bit counter advanced by less than 2^64, and not by 0, changes. *)
Lemma wrap64_moves (x w : Z) :
  0 <= x < 2 ^ 64 -> 0 < w < 2 ^ 64 -> wrap64 (x + w) <> x.
Proof.
  intros Hx Hw E. unfold wrap64 in E.
  destruct (Z_lt_le_dec (x + w) (2 ^ 64)) as [H|H].
  - rewrite Z.mod_small in E by lia. lia.
  - replace (x + w) with ((x + w - 2 ^ 64) + 1 * 2 ^ 64) in E by lia.
    rewrite Z_mod_plus_full, Z.mod_small in E by lia. lia.
Qed.

Lemma advanced_exact s s' w f m :
  0 <= w -> 0 <= f -> 0 <= m ->
  advanced s s' w f m -> has_room s w f m ->
  Nw s' = Nw s + w /\ Nclf s' = Nclf s + f /\ Nmf s' = Nmf s + m.
Proof.
  intros Hw Hf Hm (A1 & A2 & A3) ((B1 & B2 & B3) & C1 & C2 & C3).
  rewrite A1, A2, A3. rewrite !wrap64_small; lia.
Qed.

(** ** The PMwCAS primitive *)

Module Article3Facts.
Import Article3.

(** Applying the entries touches the write counter once per entry and
    nothing else of the ledger. *)
Lemma apply_entries_cost (es : list PMwCAS_Entry) (leaf : LeafNode) (s : Stats) :
  0 <= Nw s < 2 ^ 64 ->
  let r := fold_left apply_entry es (leaf, s) in
  Nw (snd r) = wrap64 (Nw s + Z.of_nat (length es)) /\
  Nclf (snd r) = Nclf s /\ Nmf (snd r) = Nmf s.
Proof.
  revert leaf s. induction es as [|e es IH]; intros leaf s Hs.
  - simpl. rewrite Z.add_0_r, wrap64_small; auto.
  - cbn [fold_left length]. unfold apply_entry at 2. cbn [fst snd].
    specialize (IH (store (addr e) (new_val e) leaf) (pcm_write s 1)).
    cbv zeta in IH. destruct IH as (IH1 & IH2 & IH3).
    { simpl. apply wrap64_range. }
    cbn [pcm_write Nw Nclf Nmf] in *.
    rewrite wrap64_add_l in IH1.
    replace (Nw s + Z.of_nat (S (length es)))
      with (Nw s + 1 + Z.of_nat (length es)) by lia.
    auto.
Qed.

Lemma pmwcas_ledger (desc : PMwCAS_Descriptor) (leaf : LeafNode) (s : Stats) :
  let r := pmwcas desc leaf s in
  fst (fst r) = true /\
  advanced s (snd r) (2 + Z.of_nat (length (entries desc))) 2 2.
Proof.
  intros r. subst r. unfold pmwcas.
  pose proof (apply_entries_cost (entries desc) leaf
                (pcm_fence (pcm_flush (pcm_write s 2)))) as H.
  cbv zeta in H.
  destruct (fold_left apply_entry (entries desc)
              (leaf, pcm_fence (pcm_flush (pcm_write s 2)))) as [lf s1].
  cbn [fst snd pcm_fence pcm_flush pcm_write Nw Nclf Nmf] in *.
  destruct H as (H1 & H2 & H3); [apply wrap64_range|].
  split; [reflexivity|]. unfold advanced. simpl.
  rewrite H1, H2, H3, !wrap64_add_l.
  repeat split; f_equal; lia.
Qed.

(** C1. Committing a descriptor of [k] entries returns [true] and
    advances the ledger by [2 + k] word writes, 2 flushes and 2 fences,
    whatever the entries are; the counters being 64-bit, the advance
    is modulo 2^64, and it is the plain sum whenever the counters have
    room for it. *)
Theorem pmwcas_cost (desc : PMwCAS_Descriptor) (leaf : LeafNode) (s : Stats) :
  let k := Z.of_nat (length (entries desc)) in
  let r := pmwcas desc leaf s in
  fst (fst r) = true /\
  advanced s (snd r) (2 + k) 2 2 /\
  (has_room s (2 + k) 2 2 ->
   Nw (snd r) = Nw s + (2 + k) /\
   Nclf (snd r) = Nclf s + 2 /\
   Nmf (snd r) = Nmf s + 2).
Proof.
  intros k r.
  destruct (pmwcas_ledger desc leaf s) as [A1 A2]. fold r k in A1, A2.
  split; [exact A1|]. split; [exact A2|].
  intros Hroom. apply (advanced_exact s (snd r)); auto; lia.
Qed.

(** The instance of C1 at a three-entry descriptor on a fresh leaf. *)
Lemma pmwcas_cost_witness :
  let desc := mkDesc [mkEntry (key_slot 0) 7; mkEntry (key_slot 1) 9;
                      mkEntry count_word 2] in
  let r := pmwcas desc (fresh CAP []) Stats0 in
  has_room Stats0 5 2 2 /\
  Nw (snd r) = 5 /\ Nclf (snd r) = 2 /\ Nmf (snd r) = 2.
Proof.
  intros desc r.
  assert (Hroom : has_room Stats0 5 2 2).
  { unfold has_room, stats_ok. simpl. lia. }
  split; [exact Hroom|].
  exact (proj2 (proj2 (pmwcas_cost desc (fresh CAP []) Stats0)) Hroom).
Defined.

End Article3Facts.

(** ** Arrays *)

Lemma wr_length a i v : length (wr a i v) = length a.
Proof. unfold wr. destruct (i <? 0); [reflexivity|apply length_insert]. Qed.

Lemma wr_lookup a i v (j : nat) :
  0 <= i -> (Z.to_nat i < length a)%nat ->
  wr a i v !! j = if decide (j = Z.to_nat i) then Some v else a !! j.
Proof.
  intros Hi Hlen. unfold wr.
  destruct (Z.ltb_spec i 0) as [?|_]; [lia|].
  destruct (decide (j = Z.to_nat i)) as [->|Hne].
  - apply list_lookup_insert_eq. exact Hlen.
  - apply list_lookup_insert_ne. congruence.
Qed.

Lemma rd_lookup a i x : 0 <= i -> a !! Z.to_nat i = Some x -> rd a i = x.
Proof.
  intros Hi Hx. unfold rd.
  destruct (Z.ltb_spec i 0) as [?|_]; [lia|].
  apply list_lookup_total_correct. exact Hx.
Qed.

Lemma lookup_rd a i :
  0 <= i -> (Z.to_nat i < length a)%nat -> a !! Z.to_nat i = Some (rd a i).
Proof.
  intros Hi Hlen.
  destruct (lookup_lt_is_Some_2 a (Z.to_nat i) Hlen) as [x Hx].
  rewrite Hx. f_equal. symmetry. apply rd_lookup; assumption.
Qed.

(** ** The insertion point and the shift, on the stored sequence *)

Lemma rank_le_length l key : (rank l key <= length l)%nat.
Proof.
  induction l as [|x l IH]; simpl; [lia|].
  destruct (x <? key); simpl; lia.
Qed.

Lemma find_pos_loop_rank (fuel : nat) :
  forall (a : list Z) (cnt key pos : Z),
    0 <= pos <= cnt -> (Z.to_nat cnt <= length a)%nat ->
    cnt - pos <= Z.of_nat fuel ->
    find_pos_loop fuel a cnt key pos
    = pos + Z.of_nat (rank (drop (Z.to_nat pos) (take (Z.to_nat cnt) a)) key).
Proof.
  induction fuel as [|fuel IH]; intros a cnt key pos Hpos Hlen Hfuel.
  - assert (pos = cnt) as -> by lia. simpl.
    rewrite drop_ge; [simpl; lia|]. rewrite length_take. lia.
  - simpl. destruct (Z.ltb_spec pos cnt) as [Hlt|Hge].
    + assert (Hx : take (Z.to_nat cnt) a !! Z.to_nat pos = Some (rd a pos)).
      { rewrite lookup_take_lt by lia. apply lookup_rd; lia. }
      rewrite (drop_S _ _ _ Hx). simpl.
      destruct (rd a pos <? key); simpl; [|lia].
      rewrite IH by lia.
      replace (Z.to_nat (pos + 1)) with (S (Z.to_nat pos)) by lia. lia.
    + assert (pos = cnt) as -> by lia. simpl.
      rewrite drop_ge; [simpl; lia|]. rewrite length_take. lia.
Qed.

Lemma find_pos_rank (a : list Z) (cnt key : Z) :
  0 <= cnt -> (Z.to_nat cnt <= length a)%nat ->
  find_pos a cnt key = Z.of_nat (rank (take (Z.to_nat cnt) a) key).
Proof.
  intros Hc Hlen. unfold find_pos.
  rewrite find_pos_loop_rank by lia. reflexivity.
Qed.

Lemma shift_loop_spec (n : nat) :
  forall (a : list Z) (s : Stats) (i pos : Z),
    0 <= pos -> i = pos + Z.of_nat n -> (Z.to_nat i < length a)%nat ->
    let r := shift_loop n a s i pos in
    length (fst r) = length a /\
    (forall j : nat,
        fst r !! j =
        if decide (pos < Z.of_nat j <= i) then a !! (j - 1)%nat else a !! j) /\
    wrap64 (Nw (snd r)) = wrap64 (Nw s + Z.of_nat n) /\
    Nclf (snd r) = Nclf s /\ Nmf (snd r) = Nmf s.
Proof.
  induction n as [|n IH]; intros a s i pos Hpos Hi Hlen r.
  - subst r. simpl. rewrite Z.add_0_r. repeat split; trivial.
    intros j. destruct (decide _) as [H|_]; [lia|reflexivity].
  - subst r. simpl. destruct (Z.ltb_spec pos i) as [_|?]; [|lia].
    specialize (IH (wr a i (rd a (i - 1))) (pcm_write s 1) (i - 1) pos).
    cbv zeta in IH. rewrite wr_length in IH.
    destruct IH as (L & P & W & F & M); [lia|lia|lia|].
    split; [exact L|]. split; [|split; [|split]].
    + intros j. rewrite P. clear P.
      assert (Hprev : a !! Z.to_nat (i - 1) = Some (rd a (i - 1)))
        by (apply lookup_rd; lia).
      destruct (decide (pos < Z.of_nat j <= i - 1)) as [H1|H1].
      * rewrite wr_lookup by lia.
        destruct (decide _) as [?|_]; [lia|].
        destruct (decide _) as [_|?]; [reflexivity|lia].
      * rewrite wr_lookup by lia.
        destruct (decide (j = Z.to_nat i)) as [->|Hne].
        -- destruct (decide _) as [_|?]; [|lia].
           rewrite <- Hprev. f_equal. lia.
        -- destruct (decide _) as [?|_]; [lia|reflexivity].
    + rewrite W. simpl. rewrite wrap64_add_l. f_equal. lia.
    + rewrite F. reflexivity.
    + rewrite M. reflexivity.
Qed.

(** The shift followed by the store of the key, read on the first
    [cnt + 1] slots: the key lands at [pos] among the first [cnt] ones. *)
Lemma shift_store_live (a : list Z) (s : Stats) (cnt pos key : Z) :
  0 <= pos <= cnt -> (Z.to_nat cnt < length a)%nat ->
  let r := shift_right a s cnt pos in
  let l := take (Z.to_nat cnt) a in
  length (wr (fst r) pos key) = length a /\
  take (Z.to_nat (cnt + 1)) (wr (fst r) pos key)
  = take (Z.to_nat pos) l ++ key :: drop (Z.to_nat pos) l.
Proof.
  intros Hpos Hlen r l. subst r. unfold shift_right.
  destruct (shift_loop_spec (Z.to_nat (cnt - pos)) a s cnt pos)
    as (L & P & _); [lia|lia|lia|].
  split; [rewrite wr_length; exact L|].
  apply list_eq. intros j.
  destruct (decide (j < Z.to_nat (cnt + 1))%nat) as [Hj|Hj].
  - rewrite lookup_take_lt by exact Hj.
    rewrite wr_lookup by lia.
    assert (Hl : length (take (Z.to_nat pos) l) = Z.to_nat pos).
    { subst l. rewrite !length_take. lia. }
    destruct (decide (j = Z.to_nat pos)) as [->|Hne].
    + rewrite lookup_app_r by lia. rewrite Hl, Nat.sub_diag. reflexivity.
    + rewrite P. destruct (decide (pos < Z.of_nat j <= cnt)) as [H1|H1].
      * rewrite lookup_app_r by lia. rewrite Hl.
        replace (j - Z.to_nat pos)%nat with (S (j - 1 - Z.to_nat pos)) by lia.
        simpl. rewrite lookup_drop. subst l.
        rewrite lookup_take_lt by lia. f_equal. lia.
      * rewrite lookup_app_l by lia. subst l.
        rewrite !lookup_take_lt by lia. reflexivity.
  - rewrite lookup_take_ge by lia. symmetry. apply lookup_ge_None_2.
    rewrite length_app. simpl. rewrite length_drop. subst l.
    rewrite !length_take. lia.
Qed.

(** ** Insertion at the rank keeps a sequence ordered *)

Lemma insert_at_rank_cons x l key :
  insert_at_rank (x :: l) key
  = if x <? key then x :: insert_at_rank l key else key :: x :: l.
Proof. unfold insert_at_rank. simpl. destruct (x <? key); reflexivity. Qed.

Lemma insert_at_rank_In l key k :
  In k (insert_at_rank l key) <-> k = key \/ In k l.
Proof.
  induction l as [|x l IH].
  - simpl. intuition.
  - rewrite insert_at_rank_cons. destruct (x <? key); simpl.
    + rewrite IH. intuition.
    + intuition.
Qed.

Lemma insert_at_rank_length l key :
  length (insert_at_rank l key) = S (length l).
Proof.
  induction l as [|x l IH]; [reflexivity|].
  rewrite insert_at_rank_cons. destruct (x <? key); simpl; auto.
Qed.

Lemma insert_at_rank_sorted l key :
  StronglySorted Z.le l -> StronglySorted Z.le (insert_at_rank l key).
Proof.
  induction 1 as [|x l Hs IH Hall].
  - repeat constructor.
  - rewrite insert_at_rank_cons. destruct (Z.ltb_spec x key) as [Hlt|Hge].
    + constructor; [exact IH|].
      apply Forall_forall. intros y Hy.
      apply list_elem_of_In, insert_at_rank_In in Hy.
      destruct Hy as [->|Hy]; [lia|].
      rewrite Forall_forall in Hall. apply Hall. apply list_elem_of_In, Hy.
    + constructor; [constructor; assumption|].
      constructor; [exact Hge|].
      eapply Forall_impl; [exact Hall|]. simpl. intros y Hy. lia.
Qed.

Lemma rank_lookup_lt l key : forall (i : nat) x,
  (i < rank l key)%nat -> l !! i = Some x -> x < key.
Proof.
  induction l as [|y l IH]; intros i x Hi Hx; simpl in *; [lia|].
  destruct (Z.ltb_spec y key) as [Hlt|Hge]; [|lia].
  destruct i as [|i]; simpl in Hx.
  - congruence.
  - apply (IH i); [lia|exact Hx].
Qed.

Lemma rank_lookup_ge l key :
  StronglySorted Z.le l ->
  forall (i : nat) x, (rank l key <= i)%nat -> l !! i = Some x -> key <= x.
Proof.
  induction 1 as [|y l Hs IH Hall]; intros i x Hi Hx; simpl in *.
  - discriminate.
  - destruct (Z.ltb_spec y key) as [Hlt|Hge].
    + destruct i as [|i]; [lia|]. simpl in Hx.
      apply (IH i); [lia|exact Hx].
    + destruct i as [|i]; simpl in Hx.
      * congruence.
      * rewrite Forall_forall in Hall.
        assert (y <= x); [|lia].
        apply Hall. eapply list_elem_of_lookup_2. exact Hx.
Qed.

Lemma sorted_lookup_le l :
  StronglySorted Z.le l ->
  forall (i j : nat) x y,
    (i <= j)%nat -> l !! i = Some x -> l !! j = Some y -> x <= y.
Proof.
  induction 1 as [|z l Hs IH Hall]; intros i j x y Hij Hx Hy.
  - discriminate.
  - destruct i as [|i], j as [|j]; simpl in *; try lia.
    + assert (x = y) by congruence. lia.
    + injection Hx as ->. rewrite Forall_forall in Hall.
      apply Hall. eapply list_elem_of_lookup_2. exact Hy.
    + apply (IH i j); [lia|assumption..].
Qed.

(** On an ordered vector the library's lower bound is the rank. *)
Lemma lower_bound_loop_rank (v : list Z) (val : Z) :
  StronglySorted Z.le v ->
  forall (fuel first len : nat),
    (len <= fuel)%nat -> (first + len <= length v)%nat ->
    (first <= rank v val <= first + len)%nat ->
    lower_bound_loop fuel v val first len = rank v val.
Proof.
  intros Hs. induction fuel as [|fuel IH]; intros first len Hf Hlen Hr.
  - simpl. lia.
  - simpl. destruct (Nat.ltb_spec 0 len) as [Hpos|Hz]; [|lia].
    assert (Hh : (Nat.div2 len < len)%nat) by (apply Nat.lt_div2; lia).
    set (half := Nat.div2 len) in *.
    destruct (lookup_lt_is_Some_2 v (first + half)%nat) as [x Hx]; [lia|].
    rewrite (list_lookup_total_correct _ _ _ Hx).
    destruct (Z.ltb_spec x val) as [Hlt|Hge].
    + apply IH; [lia|lia|].
      split; [|lia].
      destruct (Nat.le_gt_cases (rank v val) (first + half)) as [Hle|?]; [|lia].
      pose proof (rank_lookup_ge v val Hs _ _ Hle Hx). lia.
    + apply IH; [lia|lia|].
      split; [lia|].
      destruct (Nat.le_gt_cases (rank v val) (first + half)) as [?|Hgt]; [lia|].
      pose proof (rank_lookup_lt v val _ _ Hgt Hx). lia.
Qed.

Lemma lower_bound_rank (v : list Z) (val : Z) :
  StronglySorted Z.le v -> lower_bound v val = rank v val.
Proof.
  intros Hs. unfold lower_bound.
  apply lower_bound_loop_rank; [exact Hs|lia|lia|].
  pose proof (rank_le_length v val). lia.
Qed.

(** ** The searches find exactly the stored keys *)

Lemma take_lookup_rd (a : list Z) (cnt j : Z) :
  0 <= j < cnt -> (Z.to_nat cnt <= length a)%nat ->
  take (Z.to_nat cnt) a !! Z.to_nat j = Some (rd a j).
Proof.
  intros Hj Hlen. rewrite lookup_take_lt by lia. apply lookup_rd; lia.
Qed.

Lemma In_take_rd (a : list Z) (cnt k : Z) :
  0 <= cnt -> (Z.to_nat cnt <= length a)%nat ->
  In k (take (Z.to_nat cnt) a) <-> exists j, 0 <= j < cnt /\ rd a j = k.
Proof.
  intros Hc Hlen. rewrite <- list_elem_of_In, list_elem_of_lookup. split.
  - intros [i Hi]. pose proof (lookup_lt_Some _ _ _ Hi) as Hlt.
    rewrite length_take in Hlt. exists (Z.of_nat i). split; [lia|].
    pose proof (take_lookup_rd a cnt (Z.of_nat i)) as H.
    rewrite Nat2Z.id in H. rewrite H in Hi by lia. congruence.
  - intros (j & Hj & <-). exists (Z.to_nat j).
    apply take_lookup_rd; assumption.
Qed.

Lemma scan_loop_spec (fuel : nat) :
  forall (a : list Z) (cnt key i : Z),
    0 <= i -> cnt - i <= Z.of_nat fuel ->
    scan_loop fuel a cnt key i = true <-> exists j, i <= j < cnt /\ rd a j = key.
Proof.
  induction fuel as [|fuel IH]; intros a cnt key i Hi Hfuel; simpl.
  - split; [discriminate|]. intros (j & Hj & _). lia.
  - destruct (Z.ltb_spec i cnt) as [Hlt|Hge].
    + destruct (Z.eqb_spec (rd a i) key) as [Heq|Hne].
      * split; [|reflexivity]. intros _. exists i. split; [lia|exact Heq].
      * rewrite IH by lia. split; intros (j & Hj & Hr); exists j.
        -- split; [lia|exact Hr].
        -- split; [|exact Hr]. destruct (Z.eq_dec j i) as [->|?]; [tauto|lia].
    + split; [discriminate|]. intros (j & Hj & _). lia.
Qed.

Lemma linear_scan_spec (cap : Z) (leaf : LeafNode) (key : Z) :
  leaf_ok cap leaf -> linear_scan leaf key = true <-> In key (live leaf).
Proof.
  intros [Hlen Hc]. unfold linear_scan, live.
  rewrite scan_loop_spec by lia. rewrite In_take_rd by lia. reflexivity.
Qed.

Lemma bsearch_loop_spec (a : list Z) (cnt k : Z) :
  (Z.to_nat cnt <= length a)%nat ->
  StronglySorted Z.le (take (Z.to_nat cnt) a) ->
  forall (fuel : nat) (lo hi : Z),
    0 <= lo -> hi < cnt -> hi - lo + 1 <= Z.of_nat fuel ->
    bsearch_loop fuel a k lo hi = true <-> exists j, lo <= j <= hi /\ rd a j = k.
Proof.
  intros Hlen Hs.
  assert (Hmono : forall i j, 0 <= i <= j -> j < cnt -> rd a i <= rd a j).
  { intros i j Hij Hj.
    apply (sorted_lookup_le _ Hs (Z.to_nat i) (Z.to_nat j)); [lia|..];
      apply take_lookup_rd; lia. }
  induction fuel as [|fuel IH]; intros lo hi Hlo Hhi Hfuel; simpl.
  - split; [discriminate|]. intros (j & Hj & _). lia.
  - destruct (Z.leb_spec lo hi) as [Hle|Hgt].
    + assert (Hmid : lo <= Z.quot (lo + hi) 2 <= hi).
      { rewrite Z.quot_div_nonneg by lia.
        split; [apply Z.div_le_lower_bound|apply Z.div_le_upper_bound]; lia. }
      set (mid := Z.quot (lo + hi) 2) in *.
      destruct (Z.eqb_spec (rd a mid) k) as [Heq|Hne].
      * split; [|reflexivity]. intros _. exists mid. split; [lia|exact Heq].
      * destruct (Z.ltb_spec (rd a mid) k) as [Hlt|Hge].
        -- rewrite IH by lia. split; intros (j & Hj & Hr); exists j.
           ++ split; [lia|exact Hr].
           ++ split; [|exact Hr].
              destruct (Z.le_gt_cases j mid) as [Hjm|?]; [|lia].
              pose proof (Hmono j mid). lia.
        -- rewrite IH by lia. split; intros (j & Hj & Hr); exists j.
           ++ split; [lia|exact Hr].
           ++ split; [|exact Hr].
              destruct (Z.le_gt_cases mid j) as [Hjm|?]; [|lia].
              pose proof (Hmono mid j). lia.
    + split; [discriminate|]. intros (j & Hj & _). lia.
Qed.

Lemma binary_search_spec (cap : Z) (leaf : LeafNode) (k : Z) :
  leaf_ok cap leaf -> StronglySorted Z.le (live leaf) ->
  binary_search leaf k = true <-> In k (live leaf).
Proof.
  intros [Hlen Hc] Hs. unfold binary_search, live in *.
  rewrite (bsearch_loop_spec (keys leaf) (count leaf) k) by (trivial; lia).
  rewrite In_take_rd by lia.
  split; intros (j & Hj & Hr); exists j; (split; [lia|exact Hr]).
Qed.

Lemma lookup_by_scan_spec (v : list Z) (key : Z) :
  Extension.lookup_by_scan v key = true <-> In key v.
Proof.
  induction v as [|x v IH]; simpl.
  - split; [discriminate|tauto].
  - destruct (Z.eqb_spec x key) as [->|Hne].
    + tauto.
    + rewrite IH. intuition.
Qed.

Lemma lookup_in_order_spec (v : list Z) (key : Z) :
  StronglySorted Z.le v ->
  Extension.lookup_in_order v key = true <-> In key v.
Proof.
  intros Hs. unfold Extension.lookup_in_order.
  rewrite lower_bound_rank by exact Hs.
  pose proof (rank_le_length v key) as Hr.
  rewrite andb_true_iff, negb_true_iff, Nat.eqb_neq, Z.eqb_eq. split.
  - intros [Hne Hv]. apply list_elem_of_In, list_elem_of_lookup.
    exists (rank v key). rewrite <- Hv at 2.
    apply list_lookup_lookup_total_lt. lia.
  - intros Hin. apply list_elem_of_In, list_elem_of_lookup in Hin.
    destruct Hin as [i Hi].
    pose proof (lookup_lt_Some _ _ _ Hi) as Hlt.
    destruct (Nat.le_gt_cases (rank v key) i) as [Hle|Hgt].
    + split; [lia|].
      destruct (lookup_lt_is_Some_2 v (rank v key)) as [x Hx]; [lia|].
      rewrite (list_lookup_total_correct _ _ _ Hx).
      pose proof (rank_lookup_ge v key Hs _ _ (Nat.le_refl _) Hx).
      pose proof (sorted_lookup_le v Hs _ _ _ _ Hle Hx Hi). lia.
    + pose proof (rank_lookup_lt v key _ _ Hgt Hi). lia.
Qed.

(** ** One insert into an array leaf *)

Lemma sorted_core (cap : Z) (leaf : LeafNode) (key : Z) (s : Stats) :
  leaf_ok cap leaf -> count leaf < cap ->
  let pos := find_pos (keys leaf) (count leaf) key in
  let r := shift_right (keys leaf) s (count leaf) pos in
  let leaf' := mkLeaf (wr (fst r) pos key) (count leaf + 1) in
  leaf_ok cap leaf' /\
  live leaf' = insert_at_rank (live leaf) key /\
  wrap64 (Nw (snd r)) = wrap64 (Nw s + shifts leaf key) /\
  Nclf (snd r) = Nclf s /\ Nmf (snd r) = Nmf s.
Proof.
  intros [Hlen Hc] Hroom pos r leaf'.
  assert (Hpos : pos = Z.of_nat (rank (live leaf) key)).
  { subst pos. unfold live. apply find_pos_rank; lia. }
  pose proof (rank_le_length (live leaf) key) as Hr.
  unfold live in Hr. rewrite length_take in Hr.
  destruct (shift_store_live (keys leaf) s (count leaf) pos key)
    as [L E]; [unfold live in Hpos; lia|lia|].
  destruct (shift_loop_spec (Z.to_nat (count leaf - pos)) (keys leaf) s
              (count leaf) pos) as (_ & _ & W & F & M);
    [lia|unfold live in Hpos; lia|lia|].
  fold (shift_right (keys leaf) s (count leaf) pos) in W, F, M.
  fold r in L, E, W, F, M.
  split; [|split; [|split; [|split]]].
  - split; simpl; [lia|lia].
  - unfold live at 1. subst leaf'. cbn [keys count]. rewrite E.
    unfold insert_at_rank. fold (live leaf). rewrite Hpos, Nat2Z.id.
    reflexivity.
  - rewrite W. unfold shifts. rewrite <- Hpos. f_equal.
    unfold live in Hpos. lia.
  - exact F.
  - exact M.
Qed.

Lemma append_core (cap : Z) (leaf : LeafNode) (key : Z) :
  leaf_ok cap leaf -> count leaf < cap ->
  let leaf' := mkLeaf (wr (keys leaf) (count leaf) key) (count leaf + 1) in
  leaf_ok cap leaf' /\ live leaf' = live leaf ++ [key].
Proof.
  intros [Hlen Hc] Hroom leaf'. split.
  - split; simpl; [rewrite wr_length|]; lia.
  - unfold live. subst leaf'. cbn [keys count].
    replace (Z.to_nat (count leaf + 1)) with (S (Z.to_nat (count leaf))) by lia.
    rewrite (take_S_r _ _ key).
    + f_equal. unfold wr. destruct (Z.ltb_spec (count leaf) 0); [lia|].
      apply take_insert_ge. lia.
    + rewrite wr_lookup by lia. destruct (decide _); [reflexivity|lia].
Qed.

Ltac full_leaf H :=
  let Hcap := fresh in
  intros Hcap; unfold H;
  match goal with
  | |- context [?c <=? ?n] => destruct (Z.leb_spec c n); [reflexivity|lia]
  end.

Ltac open_guard H :=
  unfold H;
  match goal with
  | |- context [?c <=? ?n] => destruct (Z.leb_spec c n); [lia|]
  end.

Lemma insert_sorted_spec :
  array_insert_spec Article1.CAP Article1.insert_sorted insert_at_rank
    (fun leaf key => shifts leaf key + 1) 1 1.
Proof.
  intros leaf key s. split; [full_leaf Article1.insert_sorted|].
  intros Hok Hroom. open_guard Article1.insert_sorted.
  destruct (sorted_core Article1.CAP leaf key s Hok Hroom)
    as (A & B & W & F & M).
  destruct (shift_right _ _ _ _) as [a s1]. cbn [fst snd] in *.
  split; [exact A|]. split; [reflexivity|]. split; [exact B|].
  intros (H1 & H2 & H3). unfold advanced. simpl.
  rewrite F, M, <- wrap64_add_l, W, wrap64_add_l, Z.add_assoc. auto.
Qed.

Lemma insert_unsorted_spec :
  array_insert_spec Article1.CAP Article1.insert_unsorted append
    (fun _ _ => 1) 1 1.
Proof.
  intros leaf key s. split; [full_leaf Article1.insert_unsorted|].
  intros Hok Hroom. open_guard Article1.insert_unsorted.
  destruct (append_core Article1.CAP leaf key Hok Hroom) as (A & B).
  cbn [fst snd]. split; [exact A|]. split; [reflexivity|]. split; [exact B|].
  intros _. unfold advanced. simpl. auto.
Qed.

Lemma LeafBTreeVolatile_insert_spec :
  array_insert_spec Article2.CAP Article2.LeafBTreeVolatile_insert
    insert_at_rank (fun leaf key => shifts leaf key + 1) 0 0.
Proof.
  intros leaf key s. split; [full_leaf Article2.LeafBTreeVolatile_insert|].
  intros Hok Hroom. open_guard Article2.LeafBTreeVolatile_insert.
  destruct (sorted_core Article2.CAP leaf key s Hok Hroom)
    as (A & B & W & F & M).
  destruct (shift_right _ _ _ _) as [a s1]. cbn [fst snd] in *.
  split; [exact A|]. split; [reflexivity|]. split; [exact B|].
  intros (H1 & H2 & H3). unfold advanced. simpl.
  rewrite F, M, <- wrap64_add_l, W, wrap64_add_l, !Z.add_0_r, Z.add_assoc.
  rewrite (wrap64_small (Nclf s)), (wrap64_small (Nmf s)) by assumption. auto.
Qed.

Lemma LeafBTreeLog_insert_spec :
  array_insert_spec Article2.CAP Article2.LeafBTreeLog_insert
    insert_at_rank (fun leaf key => 4 + (shifts leaf key + 1)) 2 2.
Proof.
  intros leaf key s. split; [full_leaf Article2.LeafBTreeLog_insert|].
  intros Hok Hroom. open_guard Article2.LeafBTreeLog_insert.
  destruct (sorted_core Article2.CAP leaf key
              (pcm_fence (pcm_flush (pcm_write s 4))) Hok Hroom)
    as (A & B & W & F & M).
  destruct (shift_right _ _ _ _) as [a s1]. cbn [fst snd] in *.
  split; [exact A|]. split; [reflexivity|]. split; [exact B|].
  intros _. unfold advanced. simpl in *.
  rewrite F, M, <- wrap64_add_l, W, !wrap64_add_l.
  rewrite <- (Z.add_assoc (wrap64 _)), wrap64_add_l.
  repeat split; f_equal; lia.
Qed.

Lemma LeafWBTree_insert_spec :
  array_insert_spec Article2.CAP Article2.LeafWBTree_insert append
    (fun _ _ => 2) 1 1.
Proof.
  intros leaf key s. split; [full_leaf Article2.LeafWBTree_insert|].
  intros Hok Hroom. open_guard Article2.LeafWBTree_insert.
  destruct (append_core Article2.CAP leaf key Hok Hroom) as (A & B).
  cbn [fst snd]. split; [exact A|]. split; [reflexivity|]. split; [exact B|].
  intros _. unfold advanced. simpl. auto.
Qed.

(** ** The BzTree-style insert *)

Module BzTreeFacts.
Import Article3.

Lemma int_of_low32_small (x : Z) :
  0 <= x < 2 ^ 31 -> int_of_low32 (wrap64 x) = x.
Proof.
  intros Hx. unfold int_of_low32, wrap64.
  rewrite (Z.mod_small x (2 ^ 64)) by lia.
  rewrite (Z.mod_small x (2 ^ 32)) by lia.
  destruct (Z.ltb_spec x (2 ^ 31)); [reflexivity|lia].
Qed.

(** What the commit of the two-entry descriptor leaves in the leaf. *)
Lemma bztree_insert_leaf (leaf : LeafNode) (key : Z) (s : Stats) :
  0 <= count leaf < CAP ->
  fst (bztree_insert leaf key s)
  = mkLeaf (wr (keys leaf) (count leaf) key) (count leaf + 1).
Proof.
  intros Hc. unfold bztree_insert.
  destruct (Z.leb_spec CAP (count leaf)) as [?|_]; [lia|].
  unfold pmwcas, bztree_descriptor, push_back. simpl.
  rewrite int_of_low32_small; [reflexivity|]. unfold CAP in Hc. lia.
Qed.

Lemma bztree_insert_stats (leaf : LeafNode) (key : Z) (s : Stats) :
  count leaf < CAP ->
  snd (bztree_insert leaf key s)
  = snd (pmwcas (bztree_descriptor leaf key) leaf s).
Proof.
  intros Hc. unfold bztree_insert.
  destruct (Z.leb_spec CAP (count leaf)) as [?|_]; [lia|].
  destruct (pmwcas _ _ _) as [[ok lf] s']. reflexivity.
Qed.

Lemma bztree_insert_spec :
  array_insert_spec CAP bztree_insert append (fun _ _ => 4) 2 2.
Proof.
  intros leaf key s. split; [full_leaf bztree_insert|].
  intros Hok Hroom.
  destruct (append_core CAP leaf key Hok Hroom) as (A & B).
  destruct Hok as [Hlen Hc].
  rewrite bztree_insert_leaf by lia. rewrite bztree_insert_stats by lia.
  split; [exact A|]. split; [reflexivity|]. split; [exact B|].
  intros _.
  apply (Article3Facts.pmwcas_ledger (bztree_descriptor leaf key) leaf s).
Qed.

End BzTreeFacts.

(** ** The variants, one insert at a time *)

Lemma a_insert_spec (a : array_variant) :
  array_insert_spec (a_cap a) (a_insert a) (place (array_backed a))
    (a_w a) (a_f a) (a_f a).
Proof.
  destruct a; simpl.
  - apply insert_sorted_spec.
  - apply insert_unsorted_spec.
  - apply LeafBTreeVolatile_insert_spec.
  - apply LeafBTreeLog_insert_spec.
  - apply LeafWBTree_insert_spec.
  - apply BzTreeFacts.bztree_insert_spec.
Qed.

Lemma a_cap_pos (a : array_variant) : 0 < a_cap a.
Proof. destruct a; reflexivity. Qed.

Lemma new_good (v : variant) (junk : list Z) : good v (st_new (strategy v) junk).
Proof.
  destruct v as [a|e]; simpl.
  - split.
    + split; simpl; [apply length_resize|]. pose proof (a_cap_pos a). lia.
    + intros _. unfold live, fresh. simpl. constructor.
  - intros _. destruct e; simpl; constructor.
Qed.

Lemma place_sorted (v : variant) (l : list Z) (key : Z) :
  keeps_order v = true -> StronglySorted Z.le l ->
  StronglySorted Z.le (place v l key).
Proof.
  intros Hk Hs. unfold place. rewrite Hk. apply insert_at_rank_sorted, Hs.
Qed.

Lemma e_insert_keys (e : vector_variant) (n : Extension.leaf_t (e_leaf e))
  (key : Z) (s : Stats) :
  good (vector_backed e) n ->
  Extension.leaf_keys (e_leaf e)
    (fst (Extension.leaf_insert (e_leaf e) n key s))
  = place (vector_backed e) (Extension.leaf_keys (e_leaf e) n) key.
Proof.
  intros Hg. destruct e; simpl in *; try reflexivity;
    unfold Extension.insert_in_order, vector_insert, place, insert_at_rank;
    simpl; rewrite lower_bound_rank by (apply Hg; reflexivity); reflexivity.
Qed.

(** An accepted insert. *)
Lemma insert_accepts (v : variant) (n : st_node (strategy v)) (key : Z)
  (s : Stats) :
  good v n -> has_space (strategy v) n ->
  let n' := fst (st_insert (strategy v) n key s) in
  good v n' /\
  st_keys (strategy v) n' = place v (st_keys (strategy v) n) key /\
  st_count (strategy v) n' = st_count (strategy v) n + 1.
Proof.
  destruct v as [a|e]; cbn [strategy st_node st_insert st_keys st_count
                            good has_space st_cap].
  - intros [Hok Hs] Hroom.
    destruct (a_insert_spec a n key s) as [_ H].
    destruct (H Hok Hroom) as (A & B & C & _).
    split; [split; [exact A|]|split; [exact C|exact B]].
    intros Hk. rewrite C. apply place_sorted; auto.
  - intros Hg _. pose proof (e_insert_keys e n key s Hg) as E.
    split; [|split; [exact E|]].
    + intros Hk. rewrite E. apply place_sorted; auto.
    + rewrite E. unfold place.
      destruct (keeps_order _);
        [rewrite insert_at_rank_length|unfold append; rewrite length_app; simpl];
        lia.
Qed.

(** A dropped insert. *)
Lemma insert_drops (v : variant) (n : st_node (strategy v)) (key : Z)
  (s : Stats) (c : Z) :
  st_cap (strategy v) = Some c -> c <= st_count (strategy v) n ->
  st_insert (strategy v) n key s = (n, s).
Proof.
  destruct v as [a|e]; cbn [strategy st_node st_insert st_count st_cap];
    [|discriminate].
  intros [= <-] Hfull.
  destruct (a_insert_spec a n key s) as [H _]. apply H, Hfull.
Qed.

Lemma insert_good (v : variant) (n : st_node (strategy v)) (key : Z)
  (s : Stats) :
  good v n -> good v (fst (st_insert (strategy v) n key s)).
Proof.
  intros Hg.
  destruct (st_cap (strategy v)) as [c|] eqn:Hcap.
  - destruct (Z.le_gt_cases c (st_count (strategy v) n)) as [Hfull|Hroom].
    + rewrite (insert_drops v n key s c Hcap Hfull). exact Hg.
    + apply insert_accepts; [exact Hg|]. unfold has_space. rewrite Hcap. lia.
  - apply insert_accepts; [exact Hg|]. unfold has_space. rewrite Hcap. exact I.
Qed.

Lemma insert_all_good (v : variant) (ks : list Z) :
  forall (n : st_node (strategy v)) (s : Stats),
    good v n -> good v (fst (insert_all (strategy v) ks (n, s))).
Proof.
  induction ks as [|k ks IH]; intros n s Hg; simpl; [exact Hg|].
  destruct (st_insert (strategy v) n k s) as [n' s'] eqn:E.
  apply IH. change n' with (fst (n', s')). rewrite <- E.
  apply insert_good, Hg.
Qed.

Lemma good_sorted (v : variant) (n : st_node (strategy v)) :
  keeps_order v = true -> good v n ->
  StronglySorted Z.le (st_keys (strategy v) n).
Proof.
  destruct v as [a|e]; simpl; intros Hk Hg.
  - apply Hg, Hk.
  - apply Hg, Hk.
Qed.

(** C3. For every variant that inserts at the key's place in the order
    - the sorted-shift leaves [insert_sorted] and [LeafBTreeVolatile], the
    logging leaf [LeafBTreeLog], and the lower-bound leaves of the
    extension simulators - and for every sequence of insert calls on a
    new leaf, dropped ones included, the stored key sequence (the first
    [count] slots) is non-decreasing: each key is at most every later one. *)
Theorem sorted_after_inserts (v : variant) (junk ks : list Z) (s : Stats) :
  keeps_order v = true ->
  StronglySorted Z.le
    (st_keys (strategy v)
       (fst (insert_all (strategy v) ks (st_new (strategy v) junk, s)))).
Proof.
  intros Hk. apply good_sorted; [exact Hk|].
  apply insert_all_good, new_good.
Qed.

Lemma sorted_after_inserts_witness :
  keeps_order (array_backed btree_log) = true /\
  StronglySorted Z.le
    (st_keys (strategy (array_backed btree_log))
       (fst (insert_all (strategy (array_backed btree_log)) [5; 3; 4; 1; 2]
               (st_new (strategy (array_backed btree_log)) [9; 9], Stats0)))).
Proof.
  split; [reflexivity|].
  apply (sorted_after_inserts (array_backed btree_log) [9; 9] [5; 3; 4; 1; 2]
           Stats0).
  reflexivity.
Defined.

(** ** Search after inserts *)

Lemma search_spec (v : variant) (n : st_node (strategy v)) (k : Z) (s : Stats) :
  good v n ->
  fst (st_search (strategy v) n k s) = true <-> In k (st_keys (strategy v) n).
Proof.
  destruct v as [a|e]; cbn [strategy st_node st_search st_keys good].
  - intros [Hok Hs]. destruct a; simpl in *;
      try (apply (linear_scan_spec _ _ _ Hok));
      apply (binary_search_spec _ _ _ Hok); apply Hs; reflexivity.
  - intros Hg. destruct e; simpl in *;
      try apply lookup_by_scan_spec;
      apply lookup_in_order_spec; apply Hg; reflexivity.
Qed.

(** No search changes the ledger. *)
Lemma search_ledger (v : variant) (n : st_node (strategy v)) (k : Z) (s : Stats) :
  snd (st_search (strategy v) n k s) = s.
Proof. destruct v as [a|e]; [destruct a|destruct e]; reflexivity. Qed.

Lemma place_In (v : variant) (l : list Z) (key k : Z) :
  In k (place v l key) <-> k = key \/ In k l.
Proof.
  unfold place. destruct (keeps_order v).
  - apply insert_at_rank_In.
  - unfold append. rewrite in_app_iff. simpl. intuition.
Qed.

Lemma insert_all_keys (v : variant) (ks : list Z) :
  forall (n : st_node (strategy v)) (s : Stats),
    good v n ->
    (forall c, st_cap (strategy v) = Some c ->
               st_count (strategy v) n + Z.of_nat (length ks) <= c) ->
    forall k,
      In k (st_keys (strategy v) (fst (insert_all (strategy v) ks (n, s))))
      <-> In k (st_keys (strategy v) n) \/ In k ks.
Proof.
  induction ks as [|x ks IH]; intros n s Hg Hfit k.
  - simpl. tauto.
  - cbn [insert_all fold_left fst snd].
    assert (Hroom : has_space (strategy v) n).
    { unfold has_space. destruct (st_cap (strategy v)) as [c|]; [|exact I].
      specialize (Hfit c eq_refl). cbn [length] in Hfit. lia. }
    destruct (insert_accepts v n x s Hg Hroom) as (G & K & C).
    destruct (st_insert (strategy v) n x s) as [n' s'].
    cbn [fst] in G, K, C.
    fold (insert_all (strategy v) ks (n', s')).
    rewrite IH; [| exact G |].
    + rewrite K, place_In. simpl. intuition.
    + intros c Hc. specialize (Hfit c Hc). cbn [length] in Hfit. lia.
Qed.

Lemma new_empty (v : variant) (junk : list Z) :
  st_keys (strategy v) (st_new (strategy v) junk) = [] /\
  st_count (strategy v) (st_new (strategy v) junk) = 0.
Proof. destruct v as [a|e]; [destruct a|destruct e]; split; reflexivity. Qed.

(** C4. For each of the thirteen variants, binary-search and linear-scan
    ones alike, and every sequence [ks] of inserts into a new leaf none
    of which is dropped for capacity: [search] returns [true] for every
    key of [ks], and [false] for every key that is not in [ks]. *)
Theorem search_after_inserts (v : variant) (junk ks : list Z) (s s' : Stats)
  (k : Z) :
  fits (strategy v) ks ->
  let n := fst (insert_all (strategy v) ks (st_new (strategy v) junk, s)) in
  (In k ks -> fst (st_search (strategy v) n k s') = true) /\
  (~ In k ks -> fst (st_search (strategy v) n k s') = false).
Proof.
  intros Hfit n.
  assert (Hg : good v n) by (apply insert_all_good, new_good).
  pose proof (search_spec v n k s' Hg) as Hs.
  destruct (new_empty v junk) as [E0 C0].
  assert (Hk : In k (st_keys (strategy v) n) <-> In k ks).
  { subst n. rewrite insert_all_keys.
    - rewrite E0. simpl. tauto.
    - apply new_good.
    - intros c Hc. rewrite C0. unfold fits in Hfit. rewrite Hc in Hfit. lia. }
  split.
  - intros Hin. apply Hs, Hk, Hin.
  - intros Hnin. destruct (fst (st_search _ n k s')); [|reflexivity].
    exfalso. apply Hnin, Hk, Hs. reflexivity.
Qed.

Lemma search_after_inserts_witness :
  fits (strategy (array_backed btree_volatile)) [5; 3; 4; 1; 2] /\
  (let n := fst (insert_all (strategy (array_backed btree_volatile))
                   [5; 3; 4; 1; 2]
                   (st_new (strategy (array_backed btree_volatile)) [],
                    Stats0)) in
   (In 4 [5; 3; 4; 1; 2] ->
    fst (st_search (strategy (array_backed btree_volatile)) n 4 Stats0) = true)
   /\
   (~ In 4 [5; 3; 4; 1; 2] ->
    fst (st_search (strategy (array_backed btree_volatile)) n 4 Stats0) = false)).
Proof.
  assert (H : fits (strategy (array_backed btree_volatile)) [5; 3; 4; 1; 2]).
  { unfold fits. simpl. unfold Article2.CAP. lia. }
  split; [exact H|].
  exact (search_after_inserts (array_backed btree_volatile) [] [5; 3; 4; 1; 2]
           Stats0 Stats0 4 H).
Defined.

(** ** Capacity *)

Lemma vector_insert_length (v : list Z) (it : nat) (key : Z) :
  length (vector_insert v it key) = S (length v).
Proof.
  unfold vector_insert. rewrite length_app. simpl.
  rewrite length_take, length_drop. lia.
Qed.

Lemma e_insert_grows (e : vector_variant) (n : Extension.leaf_t (e_leaf e))
  (key : Z) (s : Stats) :
  length (Extension.leaf_keys (e_leaf e)
            (fst (Extension.leaf_insert (e_leaf e) n key s)))
  = S (length (Extension.leaf_keys (e_leaf e) n)).
Proof.
  destruct e; simpl;
    try (unfold Extension.insert_in_order; apply vector_insert_length).
  unfold vector_push_back. rewrite length_app. simpl. lia.
Qed.

Lemma e_insert_effect (e : vector_variant) (n : Extension.leaf_t (e_leaf e))
  (key : Z) (s : Stats) :
  snd (Extension.leaf_insert (e_leaf e) n key s)
  = charge s (e_w e) (e_f e) (e_m e).
Proof. destruct e; reflexivity. Qed.

Lemma charge_advanced (s : Stats) (w f m : Z) : advanced s (charge s w f m) w f m.
Proof. unfold advanced, charge. cbn [Nw Nclf Nmf]. repeat split. Qed.

(** [v.insert(v.begin() + it, key)] puts [key] between two parts of [v]. *)
Lemma vector_insert_split (v : list Z) (it : nat) (key : Z) :
  exists i : nat,
    (i <= length v)%nat /\
    vector_insert v it key = take i v ++ key :: drop i v.
Proof.
  destruct (Nat.le_gt_cases it (length v)) as [H|H].
  - exists it. split; [exact H|reflexivity].
  - exists (length v). split; [lia|]. unfold vector_insert.
    rewrite (take_ge v it) by lia. rewrite (drop_ge v it) by lia.
    rewrite (take_ge v (length v)) by lia.
    rewrite (drop_ge v (length v)) by lia. reflexivity.
Qed.

Lemma e_insert_places (e : vector_variant) (n : Extension.leaf_t (e_leaf e))
  (key : Z) (s : Stats) :
  exists i : nat,
    (i <= length (Extension.leaf_keys (e_leaf e) n))%nat /\
    Extension.leaf_keys (e_leaf e)
      (fst (Extension.leaf_insert (e_leaf e) n key s))
    = take i (Extension.leaf_keys (e_leaf e) n)
      ++ key :: drop i (Extension.leaf_keys (e_leaf e) n).
Proof.
  destruct e; simpl;
    try (unfold Extension.insert_in_order; apply vector_insert_split).
  exists (length n). split; [lia|]. unfold vector_push_back, id.
  rewrite (take_ge n (length n)) by lia.
  rewrite (drop_ge n (length n)) by lia. reflexivity.
Qed.

(** C2, as the code has it. For each of the six array leaves - the ones
    that check a capacity - [insert] on a leaf whose count has reached
    the capacity returns the leaf and the ledger as they were: same keys,
    same count, no write, flush or fence recorded, and nothing else is
    returned. The seven vector leaves of the extension simulators check
    no capacity. Whatever the number of keys one of them holds, its
    [insert] stores the key: the stored sequence becomes the old one with
    [key] put in at some position, every old key kept in its order, one
    key longer. And it records its cost: the ledger advances by the
    three coefficients of the leaf, each of them positive, so that on a
    ledger of 64-bit values the three counters all change. *)
Theorem insert_at_capacity (v : variant) (n : st_node (strategy v)) (key : Z)
  (s : Stats) :
  (forall c, st_cap (strategy v) = Some c -> c <= st_count (strategy v) n ->
             st_insert (strategy v) n key s = (n, s)) /\
  (st_cap (strategy v) = None ->
   length (st_keys (strategy v) (fst (st_insert (strategy v) n key s)))
   = S (length (st_keys (strategy v) n)) /\
   (exists i : nat,
      Nat.le i (length (st_keys (strategy v) n)) /\
      st_keys (strategy v) (fst (st_insert (strategy v) n key s))
      = take i (st_keys (strategy v) n)
        ++ key :: drop i (st_keys (strategy v) n)) /\
   In key (st_keys (strategy v) (fst (st_insert (strategy v) n key s))) /\
   (exists e : vector_variant,
      v = vector_backed e /\
      snd (st_insert (strategy v) n key s)
      = charge s (e_w e) (e_f e) (e_m e) /\
      advanced s (snd (st_insert (strategy v) n key s))
        (e_w e) (e_f e) (e_m e) /\
      0 < e_w e < 2 ^ 64 /\ 0 < e_f e < 2 ^ 64 /\ 0 < e_m e < 2 ^ 64 /\
      (stats_ok s ->
       Nw (snd (st_insert (strategy v) n key s)) <> Nw s /\
       Nclf (snd (st_insert (strategy v) n key s)) <> Nclf s /\
       Nmf (snd (st_insert (strategy v) n key s)) <> Nmf s))).
Proof.
  split.
  - intros c Hc Hfull. apply (insert_drops v n key s c Hc Hfull).
  - destruct v as [a|e]; [intros H; discriminate H|].
    intros _.
    destruct (e_insert_places e n key s) as (i & Hi & Hk).
    pose proof (e_insert_effect e n key s) as E.
    assert (HIn : In key (Extension.leaf_keys (e_leaf e)
                            (fst (Extension.leaf_insert (e_leaf e) n key s))))
      by (rewrite Hk; apply in_or_app; right; left; reflexivity).
    assert (A : advanced s (snd (Extension.leaf_insert (e_leaf e) n key s))
                  (e_w e) (e_f e) (e_m e))
      by (rewrite E; apply charge_advanced).
    assert (Hw : 0 < e_w e < 2 ^ 64) by (destruct e; simpl; lia).
    assert (Hf : 0 < e_f e < 2 ^ 64) by (destruct e; simpl; lia).
    assert (Hm : 0 < e_m e < 2 ^ 64) by (destruct e; simpl; lia).
    assert (B : stats_ok s ->
                Nw (snd (Extension.leaf_insert (e_leaf e) n key s)) <> Nw s /\
                Nclf (snd (Extension.leaf_insert (e_leaf e) n key s)) <> Nclf s /\
                Nmf (snd (Extension.leaf_insert (e_leaf e) n key s)) <> Nmf s).
    { intros (H1 & H2 & H3). rewrite E. unfold charge. cbn [Nw Nclf Nmf].
      repeat split; apply wrap64_moves; assumption. }
    split; [exact (e_insert_grows e n key s)|].
    split; [exists i; split; [exact Hi|exact Hk]|].
    split; [exact HIn|].
    exists e. split; [reflexivity|].
    split; [exact E|]. split; [exact A|].
    split; [exact Hw|]. split; [exact Hf|]. split; [exact Hm|]. exact B.
Qed.

Lemma insert_at_capacity_witness :
  let full := mkLeaf (repeat 7 32) 32 in
  (st_cap (strategy (array_backed bztree_sim)) = Some 32 /\
   32 <= st_count (strategy (array_backed bztree_sim)) full /\
   st_insert (strategy (array_backed bztree_sim)) full 9 Stats0
   = (full, Stats0)) /\
  (st_cap (strategy (vector_backed sorted_leaf)) = None /\
   stats_ok Stats0 /\
   In 9 (st_keys (strategy (vector_backed sorted_leaf))
           (fst (st_insert (strategy (vector_backed sorted_leaf))
                   (repeat 7 32) 9 Stats0)))).
Proof.
  intros full.
  assert (H1 : st_cap (strategy (array_backed bztree_sim)) = Some 32)
    by reflexivity.
  assert (H2 : 32 <= st_count (strategy (array_backed bztree_sim)) full)
    by (simpl; lia).
  assert (H3 : st_cap (strategy (vector_backed sorted_leaf)) = None)
    by reflexivity.
  assert (H4 : stats_ok Stats0) by (unfold stats_ok; simpl; lia).
  split.
  - split; [exact H1|]. split; [exact H2|].
    exact (proj1 (insert_at_capacity (array_backed bztree_sim) full 9 Stats0)
             32 H1 H2).
  - split; [exact H3|]. split; [exact H4|].
    exact (proj1 (proj2 (proj2
             (proj2 (insert_at_capacity (vector_backed sorted_leaf)
                       (repeat 7 32) 9 Stats0) H3)))).
Defined.

(** C2 fails for a vector leaf: a [SortedLeaf] that holds 32 keys, or
    128 keys, the two capacities of the repository, still takes the key
    and charges 4 writes, 2 flushes and 1 fence. *)
Lemma sorted_leaf_has_no_capacity :
  let v32 := map Z.of_nat (seq 1 32) in
  let v128 := map Z.of_nat (seq 1 128) in
  Extension.leaf_insert Extension.SortedLeaf v32 40 Stats0
  = (v32 ++ [40], mkStats 4 2 1) /\
  Extension.leaf_insert Extension.SortedLeaf v128 200 Stats0
  = (v128 ++ [200], mkStats 4 2 1).
Proof. split; vm_compute; reflexivity. Qed.

(** ** The BzTree-style insert, as a whole *)

(** C10. On a leaf with room ([count] below [CAP]), [bztree_insert]
    builds a descriptor of exactly two entries - the key for slot
    [count], and [count + 1] for the counter - and commits it: the key is
    stored at position [count] and no other slot changes, [count] grows
    by exactly 1, and the ledger advances by 4 word writes, 2 flushes and
    2 fences (modulo 2^64; the plain sums when the counters have room). *)
Theorem bztree_insert_commits (leaf : LeafNode) (key : Z) (s : Stats) :
  leaf_ok Article3.CAP leaf -> count leaf < Article3.CAP ->
  let d := Article3.bztree_descriptor leaf key in
  let r := Article3.bztree_insert leaf key s in
  Article3.entries d
  = [Article3.mkEntry (Article3.key_slot (count leaf)) key;
     Article3.mkEntry Article3.count_word (count leaf + 1)] /\
  keys (fst r) = <[Z.to_nat (count leaf) := key]> (keys leaf) /\
  live (fst r) = live leaf ++ [key] /\
  count (fst r) = count leaf + 1 /\
  advanced s (snd r) 4 2 2 /\
  (has_room s 4 2 2 ->
   Nw (snd r) = Nw s + 4 /\ Nclf (snd r) = Nclf s + 2 /\ Nmf (snd r) = Nmf s + 2).
Proof.
  intros Hok Hroom d r.
  assert (Hc : 0 <= count leaf < Article3.CAP) by (destruct Hok; lia).
  assert (Hd : Article3.entries d
               = [Article3.mkEntry (Article3.key_slot (count leaf)) key;
                  Article3.mkEntry Article3.count_word (count leaf + 1)]).
  { subst d. unfold Article3.bztree_descriptor, Article3.push_back. simpl.
    rewrite wrap64_small; [reflexivity|]. unfold Article3.CAP in Hc. lia. }
  assert (Hl : fst r = mkLeaf (wr (keys leaf) (count leaf) key) (count leaf + 1))
    by apply (BzTreeFacts.bztree_insert_leaf leaf key s Hc).
  assert (Ha : advanced s (snd r) 4 2 2).
  { subst r. rewrite BzTreeFacts.bztree_insert_stats by lia.
    apply (Article3Facts.pmwcas_ledger (Article3.bztree_descriptor leaf key)). }
  destruct (append_core Article3.CAP leaf key Hok Hroom) as [_ Hlive].
  split; [exact Hd|]. rewrite Hl. cbn [keys count].
  split; [|split; [exact Hlive|split; [reflexivity|split; [exact Ha|]]]].
  - unfold wr. destruct (Z.ltb_spec (count leaf) 0); [lia|reflexivity].
  - intros Hr. apply (advanced_exact s (snd r)); auto; lia.
Qed.

Lemma bztree_insert_commits_witness :
  let leaf := mkLeaf (5 :: 3 :: repeat 0 30) 2 in
  let r := Article3.bztree_insert leaf 8 Stats0 in
  leaf_ok Article3.CAP leaf /\ count leaf < Article3.CAP /\
  live (fst r) = [5; 3; 8] /\ count (fst r) = 3.
Proof.
  intros leaf r.
  assert (H1 : leaf_ok Article3.CAP leaf).
  { split; [reflexivity|]. simpl. unfold Article3.CAP. lia. }
  assert (H2 : count leaf < Article3.CAP) by reflexivity.
  split; [exact H1|]. split; [exact H2|].
  pose proof (bztree_insert_commits leaf 8 Stats0 H1 H2) as H.
  cbv zeta in H. destruct H as (_ & _ & A & B & _).
  split; [exact A|exact B].
Defined.

(** ** Word writes of the sorted shift *)

Lemma advanced_ok s s' w f m : advanced s s' w f m -> stats_ok s'.
Proof.
  intros (A & B & C). unfold stats_ok. rewrite A, B, C.
  repeat split; apply wrap64_range.
Qed.

Lemma live_length cap leaf : leaf_ok cap leaf -> Z.of_nat (length (live leaf)) = count leaf.
Proof. intros [Hlen Hc]. unfold live. rewrite length_take. lia. Qed.

Lemma insert_all_cons (S : Strategy) (k : Z) (ks : list Z)
  (n : st_node S) (s : Stats) :
  insert_all S (k :: ks) (n, s) = insert_all S ks (st_insert S n k s).
Proof. reflexivity. Qed.

Lemma shift_inserts_cost (a : array_variant) (ks : list Z) :
  a = sorted_a1 \/ a = btree_volatile ->
  forall (leaf : LeafNode) (s : Stats),
    leaf_ok (a_cap a) leaf -> stats_ok s ->
    count leaf + Z.of_nat (length ks) <= a_cap a ->
    let r := insert_all (strategy (array_backed a)) ks (leaf, s) in
    live (fst r) = fold_left insert_at_rank ks (live leaf) /\
    Nw (snd r) = wrap64 (Nw s + shift_writes (live leaf) ks).
Proof.
  intros Ha. induction ks as [|k ks IH]; intros leaf s Hok Hs Hfit r.
  - subst r. simpl. split; [reflexivity|].
    unfold shift_writes. simpl. rewrite Z.add_0_r, wrap64_small; [reflexivity|].
    apply Hs.
  - subst r. rewrite insert_all_cons.
    destruct (a_insert_spec a leaf k s) as [_ H].
    destruct H as (A & B & C & D); [exact Hok|cbn [length] in Hfit; lia|].
    specialize (D Hs).
    change (a_insert a) with (st_insert (strategy (array_backed a))) in A, B, C, D.
    destruct (st_insert (strategy (array_backed a)) leaf k s) as [leaf' s'].
    cbn [fst snd] in A, B, C, D.
    specialize (IH leaf' s' A (advanced_ok _ _ _ _ _ D)).
    cbv zeta in IH.
    destruct IH as [IH1 IH2]; [cbn [length] in Hfit; lia|].
    assert (P : place (array_backed a) = insert_at_rank)
      by (destruct Ha as [-> | ->]; reflexivity).
    assert (W : a_w a leaf k = shifts leaf k + 1)
      by (destruct Ha as [-> | ->]; reflexivity).
    rewrite P in C. rewrite W in D. destruct D as (D & _).
    split.
    + etransitivity; [exact IH1|]. rewrite C. reflexivity.
    + etransitivity; [exact IH2|]. rewrite D, C, wrap64_add_l. f_equal.
      unfold shift_writes, shifts. cbn [shift_distances fold_right length].
      rewrite (live_length _ _ Hok). lia.
Qed.

(** C6, as the code has it. Inserting 5, 3, 4, 1, 2 in that order into a
    new sorted-shift leaf ([insert_sorted] of article 1 or
    [LeafBTreeVolatile] of article 2), whatever the array held before,
    leaves exactly 1, 2, 3, 4, 5 stored; the inserts move 0, 1, 1, 3 and
    3 keys, and the word-write counter, started at 0, ends at
    8 + 5 = 13. *)
Theorem scenario_sorted_shift (a : array_variant) (junk : list Z) :
  a = sorted_a1 \/ a = btree_volatile ->
  let r := insert_all (strategy (array_backed a)) [5; 3; 4; 1; 2]
             (fresh (a_cap a) junk, Stats0) in
  live (fst r) = [1; 2; 3; 4; 5] /\
  count (fst r) = 5 /\
  shift_distances [] [5; 3; 4; 1; 2] = [0; 1; 1; 3; 3] /\
  Nw (snd r) = 13.
Proof.
  intros Ha r.
  assert (Hok : leaf_ok (a_cap a) (fresh (a_cap a) junk)).
  { split; simpl; [apply length_resize|]. pose proof (a_cap_pos a). lia. }
  assert (Hs : stats_ok Stats0) by (unfold stats_ok; simpl; lia).
  assert (Hfit : count (fresh (a_cap a) junk) + Z.of_nat (length [5; 3; 4; 1; 2])
                 <= a_cap a).
  { destruct Ha as [-> | ->]; simpl; [unfold Article1.CAP|unfold Article2.CAP];
      lia. }
  destruct (shift_inserts_cost a [5; 3; 4; 1; 2] Ha _ _ Hok Hs Hfit) as [L W].
  fold r in L, W.
  assert (G : good (array_backed a) (fst r)).
  { subst r. apply (insert_all_good (array_backed a)).
    apply (new_good (array_backed a)). }
  destruct G as [Hok' _].
  pose proof (live_length _ _ Hok') as Hlen. rewrite L in Hlen.
  split; [exact L|]. split; [symmetry; exact Hlen|].
  split; [reflexivity|]. rewrite W. reflexivity.
Qed.

Lemma scenario_sorted_shift_witness :
  (sorted_a1 = sorted_a1 \/ sorted_a1 = btree_volatile) /\
  (let r := insert_all (strategy (array_backed sorted_a1)) [5; 3; 4; 1; 2]
              (fresh (a_cap sorted_a1) [9; 8; 7], Stats0) in
   live (fst r) = [1; 2; 3; 4; 5] /\ Nw (snd r) = 13).
Proof.
  split; [left; reflexivity|].
  pose proof (scenario_sorted_shift sorted_a1 [9; 8; 7] (or_introl eq_refl)) as H.
  cbv zeta in H. destruct H as (A & _ & _ & B).
  split; [exact A|exact B].
Defined.

(** C6 fails as stated: on the zero-filled array the five inserts of
    [insert_sorted] record 13 word writes, not 12. *)
Lemma scenario_sorted_shift_not_12 :
  let r := insert_all (strategy (array_backed sorted_a1)) [5; 3; 4; 1; 2]
             (fresh Article1.CAP [], Stats0) in
  live (fst r) = [1; 2; 3; 4; 5] /\ Nw (snd r) = 13 /\ Nw (snd r) <> 12.
Proof. vm_compute. repeat split; congruence. Qed.

(** ** Comparisons of [double] values *)

Ltac sf_cases :=
  repeat match goal with
  | s : bool |- _ => destruct s
  end;
  simpl in *; try congruence;
  repeat match goal with
  | H : context [Z.compare ?x ?y] |- _ =>
      destruct (Z.compare_spec x y); simpl in H; try congruence
  | |- context [Z.compare ?x ?y] =>
      destruct (Z.compare_spec x y); simpl; try congruence
  | H : context [Pos.compare_cont Eq ?x ?y] |- _ =>
      change (Pos.compare_cont Eq x y) with (Pos.compare x y) in H;
      destruct (Pos.compare_spec x y); simpl in H; try congruence
  | |- context [Pos.compare_cont Eq ?x ?y] =>
      change (Pos.compare_cont Eq x y) with (Pos.compare x y);
      destruct (Pos.compare_spec x y); simpl; try congruence
  end;
  try lia.

Lemma SF_lt_le_trans a b c :
  SFltb a b = true -> SFleb b c = true -> SFltb a c = true.
Proof.
  unfold SFltb, SFleb.
  destruct a as [sa|sa| |sa ma ea], b as [sb|sb| |sb mb eb],
           c as [sc|sc| |sc mc ec]; simpl; intros H1 H2; sf_cases.
Qed.

Lemma SF_le_trans a b c :
  SFleb a b = true -> SFleb b c = true -> SFleb a c = true.
Proof.
  unfold SFleb.
  destruct a as [sa|sa| |sa ma ea], b as [sb|sb| |sb mb eb],
           c as [sc|sc| |sc mc ec]; simpl; intros H1 H2; sf_cases.
Qed.

Lemma SF_le_not_lt a b : SFleb a b = true -> SFltb b a = false.
Proof.
  unfold SFltb, SFleb.
  destruct a as [sa|sa| |sa ma ea], b as [sb|sb| |sb mb eb];
    simpl; intros H1; sf_cases.
Qed.

(** [x < y] and [y <= z] give [x < z]. *)
Lemma double_lt_le (x y z : float) :
  PrimFloat.ltb x y = true -> PrimFloat.leb y z = true ->
  PrimFloat.ltb x z = true.
Proof.
  rewrite !FloatAxioms.ltb_spec, FloatAxioms.leb_spec. apply SF_lt_le_trans.
Qed.

(** [x <= y] and [y <= z] exclude [z < x]. *)
Lemma double_le_le (x y z : float) :
  PrimFloat.leb x y = true -> PrimFloat.leb y z = true ->
  PrimFloat.ltb z x = false.
Proof.
  rewrite !FloatAxioms.leb_spec, FloatAxioms.ltb_spec. intros H1 H2.
  apply SF_le_not_lt. eapply SF_le_trans; eassumption.
Qed.

(** ** The mixed-workload driver *)

Lemma ledger_of_step (e : vector_variant) (n : nat) :
  charge (ledger_of e n) (e_w e) (e_f e) (e_m e) = ledger_of e (S n).
Proof.
  unfold charge, ledger_of. cbn [Nw Nclf Nmf]. rewrite !wrap64_add_l.
  f_equal; f_equal; lia.
Qed.

Module DriverFacts.
Import Extension.

Lemma e_search_ledger (e : vector_variant) (n : leaf_t (e_leaf e)) (k : Z)
  (s : Stats) :
  snd (leaf_search (e_leaf e) n k s) = s.
Proof. destruct e; reflexivity. Qed.

Section Steps.

Variable R : RandomSource.
Variable L : LeafType.
Hypothesis draws : unit_draws R.

(** At a ratio of 0.0 or less no draw is below the ratio. *)
Lemma timed_step_low (wr : float) (st : Locals R L) :
  PrimFloat.leb wr 0 = true ->
  timed_step R L wr st = timed_step R L 0 st.
Proof.
  intros Hwr. unfold timed_step.
  destruct (draws (l_rng st)) as [H0 _].
  destruct (dist01 R (l_rng st)) as [r g]. cbn [fst] in H0.
  destruct (dist_key R g) as [key g'].
  rewrite (double_le_le wr 0 r Hwr H0).
  assert (Hz : PrimFloat.leb 0 0 = true) by reflexivity.
  rewrite (double_le_le 0 0 r Hz H0). reflexivity.
Qed.

(** At a ratio of 1.0 or more every draw is below the ratio. *)
Lemma timed_step_high (wr : float) (st : Locals R L) :
  PrimFloat.leb 1 wr = true ->
  timed_step R L wr st = timed_step R L 1 st.
Proof.
  intros Hwr. unfold timed_step.
  destruct (draws (l_rng st)) as [_ H1].
  destruct (dist01 R (l_rng st)) as [r g]. cbn [fst] in H1.
  destruct (dist_key R g) as [key g'].
  rewrite (double_lt_le r 1 wr H1 Hwr), H1. reflexivity.
Qed.

(** At the ratio 0.0 the step is a search. *)
Lemma timed_step_zero (st : Locals R L) :
  timed_step R L 0 st
  = do_search R L st (fst (dist_key R (snd (dist01 R (l_rng st)))))
      (snd (dist_key R (snd (dist01 R (l_rng st))))).
Proof.
  unfold timed_step. destruct (draws (l_rng st)) as [H0 _].
  destruct (dist01 R (l_rng st)) as [r g]. cbn [fst snd] in *.
  destruct (dist_key R g) as [key g']. cbn [fst snd].
  assert (Hz : PrimFloat.leb 0 0 = true) by reflexivity.
  rewrite (double_le_le 0 0 r Hz H0). reflexivity.
Qed.

(** At the ratio 1.0 the step is an insert. *)
Lemma timed_step_one (st : Locals R L) :
  timed_step R L 1 st = insert_op R L st.
Proof.
  unfold timed_step, insert_op. destruct (draws (l_rng st)) as [_ H1].
  destruct (dist01 R (l_rng st)) as [r g]. cbn [fst snd] in *.
  destruct (dist_key R g) as [key g']. cbn [fst snd].
  rewrite H1. reflexivity.
Qed.

Lemma iter_ext (f g : Locals R L -> Locals R L) (n : nat) (st : Locals R L) :
  (forall x, f x = g x) -> Nat.iter n f st = Nat.iter n g st.
Proof.
  intros H. induction n as [|n IH]; simpl; [reflexivity|].
  rewrite IH. apply H.
Qed.

Hypothesis search_pure :
  forall n k s, snd (leaf_search L n k s) = s.

Lemma do_search_keeps (st : Locals R L) (key : Z) (g : engine R) :
  l_leaf (do_search R L st key g) = l_leaf st /\
  l_stats (do_search R L st key g) = l_stats st.
Proof.
  unfold do_search.
  pose proof (search_pure (l_leaf st) key (l_stats st)) as H.
  destruct (leaf_search L (l_leaf st) key (l_stats st)) as [b s].
  cbn [snd] in H. subst s. split; reflexivity.
Qed.

Lemma reads_keep (n : nat) (st : Locals R L) :
  l_leaf (Nat.iter n (timed_step R L 0) st) = l_leaf st /\
  l_stats (Nat.iter n (timed_step R L 0) st) = l_stats st.
Proof.
  induction n as [|n IH]; simpl; [split; reflexivity|].
  rewrite timed_step_zero.
  destruct (do_search_keeps (Nat.iter n (timed_step R L 0) st)
              (fst (dist_key R (snd (dist01 R
                 (l_rng (Nat.iter n (timed_step R L 0) st))))))
              (snd (dist_key R (snd (dist01 R
                 (l_rng (Nat.iter n (timed_step R L 0) st)))))))
    as [A B].
  rewrite A, B. exact IH.
Qed.

End Steps.

Section Replay.

Variable R : RandomSource.

Lemma insert_keys_app (L : LeafType) (ks1 ks2 : list Z)
  (st : leaf_t L * Stats) :
  insert_keys L (ks1 ++ ks2) st = insert_keys L ks2 (insert_keys L ks1 st).
Proof. unfold insert_keys. apply fold_left_app. Qed.

(** The prefill loop calls [insert] on the keys the engine yields. *)
Lemma prefill_replay (L : LeafType) (p : nat) (st : Locals R L) :
  Nat.iter p (prefill_step R L) st
  = mkLocals
      (fst (insert_keys L (key_draws R p (l_rng st)) (l_leaf st, l_stats st)))
      (snd (insert_keys L (key_draws R p (l_rng st)) (l_leaf st, l_stats st)))
      (Nat.iter p (skip_key R) (l_rng st)).
Proof.
  revert st. induction p as [|p IH]; intros st.
  - destruct st; reflexivity.
  - rewrite !Nat.iter_succ_r, IH. cbn [key_draws].
    unfold prefill_step, skip_key.
    destruct (dist_key R (l_rng st)) as [key g]. cbn [fst snd].
    unfold insert_keys. cbn [fold_left fst snd].
    destruct (leaf_insert L (l_leaf st) key (l_stats st)) as [lf s].
    reflexivity.
Qed.

(** The timed loop calls [insert] on the keys whose real is below the
    ratio; its searches leave the leaf and the ledger alone. *)
Lemma timed_replay (e : vector_variant) (wr : float) (n : nat)
  (st : Locals R (e_leaf e)) :
  l_leaf (Nat.iter n (timed_step R (e_leaf e) wr) st)
  = fst (insert_keys (e_leaf e) (timed_inserts R wr n (l_rng st))
           (l_leaf st, l_stats st)) /\
  l_stats (Nat.iter n (timed_step R (e_leaf e) wr) st)
  = snd (insert_keys (e_leaf e) (timed_inserts R wr n (l_rng st))
           (l_leaf st, l_stats st)).
Proof.
  revert st. induction n as [|n IH]; intros st; [split; reflexivity|].
  rewrite Nat.iter_succ_r.
  destruct (IH (timed_step R (e_leaf e) wr st)) as [A B]. rewrite A, B.
  clear A B IH. cbn [timed_inserts]. unfold timed_step, skip_op.
  destruct (dist01 R (l_rng st)) as [r g]. cbn [fst snd].
  destruct (dist_key R g) as [key g']. cbn [fst snd].
  destruct (PrimFloat.ltb r wr).
  - unfold do_insert, insert_keys. cbn [fold_left fst snd].
    destruct (leaf_insert (e_leaf e) (l_leaf st) key (l_stats st)) as [lf s].
    split; reflexivity.
  - unfold do_search.
    pose proof (e_search_ledger e (l_leaf st) key (l_stats st)) as H.
    destruct (leaf_search (e_leaf e) (l_leaf st) key (l_stats st)) as [b s].
    cbn [snd] in H. subst s. split; reflexivity.
Qed.

Lemma ledger_of_zero (e : vector_variant) : ledger_of e 0 = Stats0.
Proof. unfold ledger_of. cbn [Z.of_nat]. rewrite !Z.mul_0_r. reflexivity. Qed.

Lemma insert_keys_ledger (e : vector_variant) (ks : list Z)
  (n : leaf_t (e_leaf e)) (m : nat) :
  snd (insert_keys (e_leaf e) ks (n, ledger_of e m))
  = ledger_of e (m + length ks).
Proof.
  revert n m. induction ks as [|k ks IH]; intros n m.
  - simpl. rewrite Nat.add_0_r. reflexivity.
  - unfold insert_keys. cbn [fold_left fst snd].
    pose proof (e_insert_effect e n k (ledger_of e m)) as E.
    destruct (leaf_insert (e_leaf e) n k (ledger_of e m)) as [lf s].
    cbn [snd] in E. subst s. rewrite ledger_of_step.
    fold (insert_keys (e_leaf e) ks (lf, ledger_of e (S m))).
    rewrite IH. f_equal. simpl. lia.
Qed.

Lemma insert_keys_perm (e : vector_variant) (ks : list Z)
  (st : leaf_t (e_leaf e) * Stats) :
  Permutation
    (leaf_keys (e_leaf e) (fst (insert_keys (e_leaf e) ks st)))
    (leaf_keys (e_leaf e) (fst st) ++ ks).
Proof.
  revert st. induction ks as [|k ks IH]; intros st.
  - simpl. rewrite app_nil_r. reflexivity.
  - unfold insert_keys. cbn [fold_left].
    fold (insert_keys (e_leaf e) ks
            (leaf_insert (e_leaf e) (fst st) k (snd st))).
    etransitivity; [apply IH|].
    destruct (e_insert_places e (fst st) k (snd st)) as (i & _ & Hk).
    rewrite Hk.
    transitivity ((k :: leaf_keys (e_leaf e) (fst st)) ++ ks).
    + apply Permutation_app_tail. symmetry.
      etransitivity; [|apply Permutation_middle].
      rewrite take_drop. reflexivity.
    + simpl. apply Permutation_middle.
Qed.

(** A run of the driver on one of its seven leaf types, from the seed. *)
Lemma run_replay (e : vector_variant) (seed prefill num_ops : Z)
  (wr : float) :
  let st := after_timed R (e_leaf e) seed prefill num_ops wr in
  (l_leaf st, l_stats st)
  = insert_keys (e_leaf e) (inserted_keys R seed prefill num_ops wr)
      (leaf_new (e_leaf e), Stats0).
Proof.
  intros st. subst st. unfold after_timed, after_prefill, inserted_keys.
  destruct (timed_replay e wr (Z.to_nat num_ops)
              (Nat.iter (Z.to_nat prefill) (prefill_step R (e_leaf e))
                 (start R (e_leaf e) seed))) as [A B].
  rewrite A, B, <- surjective_pairing.
  rewrite prefill_replay. cbn [l_leaf l_stats l_rng start].
  rewrite <- surjective_pairing, insert_keys_app. reflexivity.
Qed.

End Replay.

End DriverFacts.

Lemma lcg_unit_draws : unit_draws lcg_source.
Proof.
  intros g. cbv [lcg_source dist01 fst].
  destruct (Z.testbit g 63); split; reflexivity.
Defined.

Module DriverClaims.
Import Extension.

(** C5. The engine is seeded with a constant and is the only source of
    the keys and the reals; its state after every draw is a function of
    the seed. So for a fixed seed, [write_ratio], [prefill] and
    [num_ops], and each of the seven leaf types the drivers run, what a
    run computes is fixed by the draws: the leaf and the ledger are
    those of [insert] called, first to last, on the keys the run
    inserts - the [prefill] keys drawn first, then the key of each
    timed operation whose real is below [write_ratio] - and the three
    counters are the leaf's coefficients times the number of those
    keys, modulo 2^64. Two runs, whatever the clock reads in either, therefore end
    with the same counter triple (Nw, Nclf, Nmf), in the returned
    result and in the local [stats], and with the same leaf contents;
    the two clock readings reach the throughput only. *)
Theorem same_seed_same_counters (R : RandomSource) (e : vector_variant)
  (seed prefill num_ops : Z) (write_ratio : float) (t0 t1 t0' t1' : Z) :
  let L := e_leaf e in
  let run1 := run_frame R L seed prefill num_ops write_ratio t0 t1 in
  let run2 := run_frame R L seed prefill num_ops write_ratio t0' t1' in
  let ks := inserted_keys R seed prefill num_ops write_ratio in
  ((l_leaf (fst run1), l_stats (fst run1))
   = insert_keys L ks (leaf_new L, Stats0) /\
   (l_leaf (fst run2), l_stats (fst run2))
   = insert_keys L ks (leaf_new L, Stats0) /\
   stats (snd run1) = ledger_of e (length ks) /\
   stats (snd run2) = ledger_of e (length ks) /\
   Permutation (leaf_keys L (l_leaf (fst run1))) ks /\
   Permutation (leaf_keys L (l_leaf (fst run2))) ks) /\
  ((Nw (stats (snd run1)), Nclf (stats (snd run1)), Nmf (stats (snd run1)))
   = (Nw (stats (snd run2)), Nclf (stats (snd run2)), Nmf (stats (snd run2)))
   /\ stats (run_mixed_workload R L seed prefill num_ops write_ratio t0 t1)
      = stats (run_mixed_workload R L seed prefill num_ops write_ratio t0' t1')
   /\ l_stats (fst run1) = l_stats (fst run2)
   /\ l_leaf (fst run1) = l_leaf (fst run2)
   /\ leaf_keys L (l_leaf (fst run1)) = leaf_keys L (l_leaf (fst run2))) /\
  (throughput_ops_sec (snd run1)
   = PrimFloat.div (u64_to_double num_ops) (seconds_between t0 t1) /\
   throughput_ops_sec (snd run2)
   = PrimFloat.div (u64_to_double num_ops) (seconds_between t0' t1')).
Proof.
  intros L run1 run2 ks.
  pose proof (DriverFacts.run_replay R e seed prefill num_ops write_ratio)
    as Hrun.
  cbv zeta in Hrun.
  fold L in Hrun. fold ks in Hrun.
  set (st := after_timed R L seed prefill num_ops write_ratio) in *.
  assert (H1 : fst run1 = st) by reflexivity.
  assert (H2 : fst run2 = st) by reflexivity.
  assert (S1 : stats (snd run1) = l_stats st) by reflexivity.
  assert (S2 : stats (snd run2) = l_stats st) by reflexivity.
  assert (Hs : l_stats st = ledger_of e (length ks)).
  { change (l_stats st) with (snd (l_leaf st, l_stats st)). rewrite Hrun.
    rewrite <- (DriverFacts.ledger_of_zero e).
    apply (DriverFacts.insert_keys_ledger e ks (leaf_new L) 0). }
  assert (Hp : Permutation (leaf_keys L (l_leaf st)) ks).
  { change (l_leaf st) with (fst (l_leaf st, l_stats st)). rewrite Hrun.
    etransitivity; [apply (DriverFacts.insert_keys_perm e ks)|].
    cbn [fst]. destruct e; reflexivity. }
  rewrite H1, H2, S1, S2.
  split; [|split; [repeat split; reflexivity|split; reflexivity]].
  repeat split; assumption.
Qed.

(** The throughput does follow the clock: one second against two. *)
Lemma throughput_follows_the_clock :
  throughput_ops_sec
    (run_mixed_workload lcg_source UnsortedLeaf seed_article1 0 8 0 0 1000000000)
  = 8%float /\
  throughput_ops_sec
    (run_mixed_workload lcg_source UnsortedLeaf seed_article1 0 8 0 0 2000000000)
  = 4%float.
Proof. split; reflexivity. Qed.

(** C7, as the code has it. The driver divides without looking at the
    divisor: whatever the clock read, it returns a result whose
    throughput is [double(num_ops) / elapsed] in binary64 arithmetic.
    Two equal readings make [elapsed] zero; the throughput is then
    [+infinity] for the 100000 operations of every [main], and NaN for no
    operation. The [main] of article3_bztree.cpp divides in the same way. *)
Theorem throughput_is_unguarded (R : RandomSource) (L : LeafType)
  (seed prefill num_ops : Z) (write_ratio : float) (t0 t1 t : Z) :
  throughput_ops_sec
    (run_mixed_workload R L seed prefill num_ops write_ratio t0 t1)
  = PrimFloat.div (u64_to_double num_ops) (seconds_between t0 t1) /\
  seconds_between t t = 0%float /\
  throughput_ops_sec
    (run_mixed_workload R L seed prefill 100000 write_ratio t t)
  = infinity /\
  throughput_ops_sec (run_mixed_workload R L seed prefill 0 write_ratio t t)
  = nan /\
  Article3.main_throughput t t = infinity.
Proof.
  assert (Hz : seconds_between t t = 0%float).
  { unfold seconds_between. rewrite Z.sub_diag. reflexivity. }
  unfold run_mixed_workload, run_frame, Article3.main_throughput.
  cbn [snd throughput_ops_sec]. rewrite Hz.
  repeat split; reflexivity.
Qed.

(** C7 fails as stated: with both clock readings equal the driver of
    article1_extension.cpp returns an infinite throughput for 100000
    operations and NaN for none, and with the second reading before the
    first a negative one; no error is raised. *)
Lemma zero_duration_is_not_rejected :
  throughput_ops_sec
    (run_mixed_workload lcg_source SortedLeaf seed_article1 5 100000
       0 1000 1000)
  = infinity /\
  throughput_ops_sec
    (run_mixed_workload lcg_source SortedLeaf seed_article1 5 0
       0 1000 1000)
  = nan /\
  PrimFloat.ltb
    (throughput_ops_sec
       (run_mixed_workload lcg_source SortedLeaf seed_article1 5 100000
          0 2000 1000))
    0 = true.
Proof. repeat split; reflexivity. Qed.

(** C9. No [search] of any variant changes the ledger it is handed.
    Hence, with draws in [0, 1), a run at [write_ratio = 0.0] makes a
    search of every timed operation, and ends with the leaf and the
    three counters exactly as the prefill left them, for each of the
    seven leaf types the drivers are instantiated with. *)
Theorem reads_leave_the_ledger (R : RandomSource) (e : vector_variant)
  (seed prefill num_ops : Z) (t0 t1 : Z) :
  unit_draws R ->
  let before := after_prefill R (e_leaf e) seed prefill in
  let run := run_frame R (e_leaf e) seed prefill num_ops 0 t0 t1 in
  (forall (v : variant) (n : st_node (strategy v)) (k : Z) (s : Stats),
      snd (st_search (strategy v) n k s) = s) /\
  (forall st : Locals R (e_leaf e),
      timed_step R (e_leaf e) 0 st
      = do_search R (e_leaf e) st
          (fst (dist_key R (snd (dist01 R (l_rng st)))))
          (snd (dist_key R (snd (dist01 R (l_rng st)))))) /\
  stats (snd run) = l_stats before /\
  Nw (stats (snd run)) = Nw (l_stats before) /\
  Nclf (stats (snd run)) = Nclf (l_stats before) /\
  Nmf (stats (snd run)) = Nmf (l_stats before) /\
  l_leaf (fst run) = l_leaf before.
Proof.
  intros Hd before run.
  destruct (DriverFacts.reads_keep R (e_leaf e) Hd
              (DriverFacts.e_search_ledger e) (Z.to_nat num_ops) before)
    as [A B].
  assert (Hs : stats (snd run) = l_stats before) by exact B.
  split; [exact search_ledger|].
  split; [exact (DriverFacts.timed_step_zero R (e_leaf e) Hd)|].
  split; [exact Hs|]. rewrite Hs.
  repeat split; try reflexivity. exact A.
Qed.

Lemma reads_leave_the_ledger_witness :
  unit_draws lcg_source /\
  stats (run_mixed_workload lcg_source UnsortedLeaf seed_article1 22 1000 0
           0 5000)
  = l_stats (after_prefill lcg_source UnsortedLeaf seed_article1 22).
Proof.
  split; [exact lcg_unit_draws|].
  pose proof (reads_leave_the_ledger lcg_source unsorted_leaf seed_article1
                22 1000 0 5000 lcg_unit_draws) as H.
  cbv zeta in H. destruct H as (_ & _ & H & _). exact H.
Defined.

(** C8, as the code has it. The driver checks nothing about its
    configuration and always returns a result. With [num_ops = 0] the
    timed loop is skipped: the result carries the prefill ledger and the
    throughput [0 / elapsed]. With draws in [0, 1), a [write_ratio] at
    or below 0.0 behaves as 0.0 does: every timed operation is a search -
    the two draws, then [leaf.search(key, stats)] - and the run is that
    many searches after the prefill. A [write_ratio] at or above 1.0
    behaves as 1.0 does: every timed operation is an insert - the two
    draws, then [leaf.insert(key, stats)] - and the run is that many
    inserts after the prefill. *)
Theorem any_configuration_runs (R : RandomSource) (L : LeafType)
  (seed prefill num_ops : Z) (write_ratio : float) (t0 t1 : Z) :
  unit_draws R ->
  run_mixed_workload R L seed prefill 0 write_ratio t0 t1
  = mkMixedResult (PrimFloat.div 0 (seconds_between t0 t1))
      (l_stats (after_prefill R L seed prefill)) /\
  (PrimFloat.leb write_ratio 0 = true ->
   run_frame R L seed prefill num_ops write_ratio t0 t1
   = run_frame R L seed prefill num_ops 0 t0 t1 /\
   (forall st : Locals R L,
       timed_step R L write_ratio st = search_op R L st) /\
   after_timed R L seed prefill num_ops write_ratio
   = Nat.iter (Z.to_nat num_ops) (search_op R L)
       (after_prefill R L seed prefill)) /\
  (PrimFloat.leb 1 write_ratio = true ->
   run_frame R L seed prefill num_ops write_ratio t0 t1
   = run_frame R L seed prefill num_ops 1 t0 t1 /\
   (forall st : Locals R L,
       timed_step R L write_ratio st = insert_op R L st) /\
   after_timed R L seed prefill num_ops write_ratio
   = Nat.iter (Z.to_nat num_ops) (insert_op R L)
       (after_prefill R L seed prefill)).
Proof.
  intros Hd. split; [reflexivity|]. split; intros Hwr.
  - assert (Hstep : forall st : Locals R L,
               timed_step R L write_ratio st = search_op R L st).
    { intros st. rewrite (DriverFacts.timed_step_low R L Hd write_ratio st Hwr).
      apply (DriverFacts.timed_step_zero R L Hd). }
    split; [|split; [exact Hstep|]].
    + unfold run_frame, after_timed.
      rewrite (DriverFacts.iter_ext R L (timed_step R L write_ratio)
                 (timed_step R L 0)); [reflexivity|].
      intros st. apply DriverFacts.timed_step_low; assumption.
    + unfold after_timed. apply DriverFacts.iter_ext. exact Hstep.
  - assert (Hstep : forall st : Locals R L,
               timed_step R L write_ratio st = insert_op R L st).
    { intros st. rewrite (DriverFacts.timed_step_high R L Hd write_ratio st Hwr).
      apply (DriverFacts.timed_step_one R L Hd). }
    split; [|split; [exact Hstep|]].
    + unfold run_frame, after_timed.
      rewrite (DriverFacts.iter_ext R L (timed_step R L write_ratio)
                 (timed_step R L 1)); [reflexivity|].
      intros st. apply DriverFacts.timed_step_high; assumption.
    + unfold after_timed. apply DriverFacts.iter_ext. exact Hstep.
Qed.

Lemma any_configuration_runs_witness :
  unit_draws lcg_source /\
  PrimFloat.leb 1 2 = true /\
  run_frame lcg_source LeafBaseline seed_article2 3 4 2 1000 2000
  = run_frame lcg_source LeafBaseline seed_article2 3 4 1 1000 2000 /\
  PrimFloat.leb (-0.5) 0 = true /\
  after_timed lcg_source LeafBaseline seed_article2 3 4 (-0.5)
  = Nat.iter 4 (search_op lcg_source LeafBaseline)
      (after_prefill lcg_source LeafBaseline seed_article2 3).
Proof.
  assert (H1 : PrimFloat.leb 1 2 = true) by reflexivity.
  assert (H2 : PrimFloat.leb (-0.5) 0 = true) by reflexivity.
  split; [exact lcg_unit_draws|]. split; [exact H1|].
  split.
  - exact (proj1 (proj2 (proj2 (any_configuration_runs lcg_source LeafBaseline
                                  seed_article2 3 4 2 1000 2000
                                  lcg_unit_draws)) H1)).
  - split; [exact H2|].
    exact (proj2 (proj2 (proj1 (proj2 (any_configuration_runs lcg_source
                                         LeafBaseline seed_article2 3 4 (-0.5)
                                         1000 2000 lcg_unit_draws)) H2))).
Defined.

(** C8 fails as stated: the driver of article2_extension.cpp, given a
    [write_ratio] of 2.0 or of -0.5, or no operation at all, returns a
    result like any other - 7 inserts charged for the first, the 3
    prefill inserts alone for the other two. *)
Lemma invalid_configuration_is_not_rejected :
  run_mixed_workload lcg_source LeafBaseline seed_article2 3 4 2 1000 2000
  = mkMixedResult 4000000 (mkStats 28 14 7) /\
  run_mixed_workload lcg_source LeafBaseline seed_article2 3 4 (-0.5) 1000 2000
  = mkMixedResult 4000000 (mkStats 12 6 3) /\
  run_mixed_workload lcg_source LeafBaseline seed_article2 3 0 0.5 1000 2000
  = mkMixedResult 0 (mkStats 12 6 3).
Proof. repeat split; vm_compute; reflexivity. Qed.

End DriverClaims.

(** * Further properties of the code *)

(** ** Sequences of inserts: what is kept and what is dropped *)

Lemma insert_all_app (S : Strategy) (ks1 ks2 : list Z) (st : st_node S * Stats) :
  insert_all S (ks1 ++ ks2) st = insert_all S ks2 (insert_all S ks1 st).
Proof. unfold insert_all. apply fold_left_app. Qed.

Lemma insert_all_full (v : variant) (c : Z) (ks : list Z) :
  st_cap (strategy v) = Some c ->
  forall (n : st_node (strategy v)) (s : Stats),
    c <= st_count (strategy v) n ->
    insert_all (strategy v) ks (n, s) = (n, s).
Proof.
  intros Hc. induction ks as [|k ks IH]; intros n s Hfull; [reflexivity|].
  rewrite insert_all_cons, (insert_drops v n k s c Hc Hfull).
  apply IH, Hfull.
Qed.

Lemma insert_all_accepted (v : variant) (ks : list Z) :
  forall (n : st_node (strategy v)) (s : Stats),
    good v n ->
    (forall c, st_cap (strategy v) = Some c ->
               st_count (strategy v) n + Z.of_nat (length ks) <= c) ->
    let n' := fst (insert_all (strategy v) ks (n, s)) in
    good v n' /\
    st_keys (strategy v) n' = fold_left (place v) ks (st_keys (strategy v) n) /\
    st_count (strategy v) n'
    = st_count (strategy v) n + Z.of_nat (length ks).
Proof.
  induction ks as [|x ks IH]; intros n s Hg Hfit n'.
  - subst n'. simpl. repeat split; [exact Hg|lia].
  - subst n'. rewrite insert_all_cons.
    assert (Hroom : has_space (strategy v) n).
    { unfold has_space. destruct (st_cap (strategy v)) as [c|]; [|exact I].
      specialize (Hfit c eq_refl). cbn [length] in Hfit. lia. }
    destruct (insert_accepts v n x s Hg Hroom) as (G & K & C).
    destruct (st_insert (strategy v) n x s) as [n1 s1]. cbn [fst] in G, K, C.
    destruct (IH n1 s1 G) as (G' & K' & C').
    { intros c Hc. specialize (Hfit c Hc). cbn [length] in Hfit. lia. }
    split; [exact G'|]. split.
    + rewrite K', K. reflexivity.
    + rewrite C', C. cbn [length]. lia.
Qed.

Lemma good_count (v : variant) (n : st_node (strategy v)) :
  good v n ->
  st_count (strategy v) n = Z.of_nat (length (st_keys (strategy v) n)) /\
  (forall c, st_cap (strategy v) = Some c -> st_count (strategy v) n <= c).
Proof.
  destruct v as [a|e]; simpl.
  - intros [Hok _]. split; [symmetry; apply (live_length _ _ Hok)|].
    intros c [= <-]. apply Hok.
  - intros _. split; [reflexivity|discriminate].
Qed.

(** Only the first [room] inserts of a sequence have an effect. *)
Lemma insert_all_room (v : variant) (ks : list Z) (n : st_node (strategy v))
  (s : Stats) :
  good v n ->
  insert_all (strategy v) ks (n, s)
  = insert_all (strategy v) (take (room (strategy v) n ks) ks) (n, s).
Proof.
  intros Hg. unfold room.
  destruct (st_cap (strategy v)) as [c|] eqn:Hc; [|rewrite firstn_all; reflexivity].
  destruct (good_count v n Hg) as [_ Hle]. specialize (Hle c Hc).
  set (m := Z.to_nat (c - st_count (strategy v) n)).
  destruct (Nat.le_gt_cases (length ks) m) as [Hshort|Hlong].
  - rewrite take_ge by exact Hshort. reflexivity.
  - rewrite <- (take_drop m ks) at 1. rewrite insert_all_app.
    destruct (insert_all_accepted v (take m ks) n s Hg) as (_ & _ & C).
    { intros c' Hc'. rewrite Hc in Hc'. injection Hc' as <-.
      rewrite length_take. lia. }
    destruct (insert_all (strategy v) (take m ks) (n, s)) as [n1 s1].
    cbn [fst] in C. apply (insert_all_full v c _ Hc).
    rewrite C, length_take. lia.
Qed.

(** X1. For every variant that checks a capacity [c]: after any sequence
    [ks] of inserts into a new leaf, the leaf holds exactly
    [min (length ks) c] keys - the inserts past the capacity are dropped
    - and the leaf and the ledger are those the first [c] inserts of the
    sequence produce alone. *)
Theorem inserts_saturate (a : array_variant) (junk ks : list Z) (s : Stats) :
  let S := strategy (array_backed a) in
  let r := insert_all S ks (fresh (a_cap a) junk, s) in
  count (fst r) = Z.min (Z.of_nat (length ks)) (a_cap a) /\
  leaf_ok (a_cap a) (fst r) /\
  r = insert_all S (take (Z.to_nat (a_cap a)) ks) (fresh (a_cap a) junk, s).
Proof.
  intros S r.
  pose proof (new_good (array_backed a) junk) as Hg.
  pose proof (a_cap_pos a) as Hpos.
  assert (E : r = insert_all S (take (Z.to_nat (a_cap a)) ks)
                    (fresh (a_cap a) junk, s)).
  { subst r S.
    etransitivity;
      [apply (insert_all_room (array_backed a) ks (fresh (a_cap a) junk) s Hg)|].
    unfold room. cbn [strategy st_cap st_count fresh count].
    rewrite Z.sub_0_r. reflexivity. }
  destruct (insert_all_accepted (array_backed a)
              (take (Z.to_nat (a_cap a)) ks) (fresh (a_cap a) junk) s Hg)
    as (G & _ & C).
  { intros c [= <-]. cbn [strategy st_count fresh count].
    rewrite length_take. lia. }
  assert (G' : leaf_ok (a_cap a) (fst r)) by (rewrite E; apply G).
  assert (C' : count (fst r)
               = 0 + Z.of_nat (length (take (Z.to_nat (a_cap a)) ks)))
    by (rewrite E; exact C).
  split; [|split; [exact G'|exact E]].
  rewrite C', length_take. lia.
Qed.

(** ** What a leaf stores after a sequence of inserts *)

Lemma place_perm (v : variant) (l : list Z) (k : Z) :
  Permutation (place v l k) (l ++ [k]).
Proof.
  unfold place. destruct (keeps_order v); [|reflexivity].
  unfold insert_at_rank. transitivity (k :: l).
  - symmetry. etransitivity; [|apply Permutation_middle].
    rewrite take_drop. reflexivity.
  - apply Permutation_cons_append.
Qed.

Lemma fold_place_perm (v : variant) (ks l : list Z) :
  Permutation (fold_left (place v) ks l) (l ++ ks).
Proof.
  revert l. induction ks as [|k ks IH]; intros l; simpl.
  - rewrite app_nil_r. reflexivity.
  - rewrite IH, place_perm, <- app_assoc. reflexivity.
Qed.

Lemma fold_append (ks l : list Z) : fold_left append ks l = l ++ ks.
Proof.
  revert l. induction ks as [|k ks IH]; intros l; simpl.
  - rewrite app_nil_r. reflexivity.
  - rewrite IH. unfold append. rewrite <- app_assoc. reflexivity.
Qed.

Lemma accepted_keys (v : variant) (junk ks : list Z) (s : Stats) :
  fits (strategy v) ks ->
  st_keys (strategy v)
    (fst (insert_all (strategy v) ks (st_new (strategy v) junk, s)))
  = fold_left (place v) ks [].
Proof.
  intros Hfit. destruct (new_empty v junk) as [E0 C0].
  destruct (insert_all_accepted v ks (st_new (strategy v) junk) s
              (new_good v junk)) as (_ & K & _).
  { intros c Hc. rewrite C0. unfold fits in Hfit. rewrite Hc in Hfit. lia. }
  rewrite K, E0. reflexivity.
Qed.

(** X2. For each of the thirteen variants: when no insert of [ks] is
    dropped for capacity, the stored key sequence is a rearrangement of
    [ks] - every key is kept once per insert, duplicates included, and
    nothing else is stored. *)
Theorem stored_keys_are_the_inserted_keys (v : variant) (junk ks : list Z)
  (s : Stats) :
  fits (strategy v) ks ->
  Permutation
    (st_keys (strategy v)
       (fst (insert_all (strategy v) ks (st_new (strategy v) junk, s))))
    ks.
Proof.
  intros Hfit. rewrite (accepted_keys v junk ks s Hfit).
  apply (fold_place_perm v ks []).
Qed.

Lemma stored_keys_are_the_inserted_keys_witness :
  fits (strategy (vector_backed logging)) [4; 9; 4; 1] /\
  Permutation
    (st_keys (strategy (vector_backed logging))
       (fst (insert_all (strategy (vector_backed logging)) [4; 9; 4; 1]
               (st_new (strategy (vector_backed logging)) [], Stats0))))
    [4; 9; 4; 1].
Proof.
  assert (H : fits (strategy (vector_backed logging)) [4; 9; 4; 1]) by exact I.
  split; [exact H|].
  exact (stored_keys_are_the_inserted_keys (vector_backed logging) []
           [4; 9; 4; 1] Stats0 H).
Defined.

(** X3. The four append leaves ([insert_unsorted], the array
    [LeafWBTree], [bztree_insert], and [UnsortedLeaf]) keep the keys in
    arrival order: after any sequence [ks] of inserts into a new leaf the
    stored sequence is [ks] itself, cut at the capacity when the leaf
    checks one. *)
Theorem append_leaves_keep_arrival_order (v : variant) (junk ks : list Z)
  (s : Stats) :
  keeps_order v = false ->
  st_keys (strategy v)
    (fst (insert_all (strategy v) ks (st_new (strategy v) junk, s)))
  = match st_cap (strategy v) with
    | Some c => take (Z.to_nat c) ks
    | None => ks
    end.
Proof.
  intros Hk.
  rewrite (insert_all_room v ks _ s (new_good v junk)).
  destruct (new_empty v junk) as [E0 C0].
  assert (Hr : take (room (strategy v) (st_new (strategy v) junk) ks) ks
               = match st_cap (strategy v) with
                 | Some c => take (Z.to_nat c) ks
                 | None => ks
                 end).
  { unfold room. rewrite C0. destruct (st_cap (strategy v)) as [c|].
    - rewrite Z.sub_0_r. reflexivity.
    - apply firstn_all. }
  rewrite Hr.
  set (ks' := match st_cap (strategy v) with
              | Some c => take (Z.to_nat c) ks
              | None => ks
              end).
  rewrite (accepted_keys v junk ks' s).
  - unfold place. rewrite Hk. apply (fold_append ks' []).
  - unfold fits. subst ks'.
    destruct (good_count v _ (new_good v junk)) as [_ Hc]. rewrite C0 in Hc.
    destruct (st_cap (strategy v)) as [c|]; [|exact I].
    specialize (Hc c eq_refl). rewrite length_take. lia.
Qed.

Lemma append_leaves_keep_arrival_order_witness :
  keeps_order (array_backed bztree_sim) = false /\
  st_keys (strategy (array_backed bztree_sim))
    (fst (insert_all (strategy (array_backed bztree_sim)) [4; 9; 4; 1]
            (st_new (strategy (array_backed bztree_sim)) [7], Stats0)))
  = [4; 9; 4; 1].
Proof.
  split; [reflexivity|].
  exact (append_leaves_keep_arrival_order (array_backed bztree_sim) [7]
           [4; 9; 4; 1] Stats0 eq_refl).
Defined.

(** X4. The hand-written sorted shift of the array leaves and the
    [std::lower_bound] insert of the vector leaves are the same insertion:
    any two ordered variants, fed the same keys in the same order with no
    insert dropped, store the same sequence, duplicates placed alike. *)
Theorem ordered_variants_agree (v1 v2 : variant) (junk1 junk2 ks : list Z)
  (s1 s2 : Stats) :
  keeps_order v1 = true -> keeps_order v2 = true ->
  fits (strategy v1) ks -> fits (strategy v2) ks ->
  st_keys (strategy v1)
    (fst (insert_all (strategy v1) ks (st_new (strategy v1) junk1, s1)))
  = st_keys (strategy v2)
      (fst (insert_all (strategy v2) ks (st_new (strategy v2) junk2, s2))).
Proof.
  intros K1 K2 F1 F2.
  rewrite (accepted_keys v1 junk1 ks s1 F1), (accepted_keys v2 junk2 ks s2 F2).
  unfold place. rewrite K1, K2. reflexivity.
Qed.

Lemma ordered_variants_agree_witness :
  keeps_order (array_backed btree_volatile) = true /\
  keeps_order (vector_backed sorted_leaf) = true /\
  fits (strategy (array_backed btree_volatile)) [5; 3; 5; 1] /\
  fits (strategy (vector_backed sorted_leaf)) [5; 3; 5; 1] /\
  st_keys (strategy (array_backed btree_volatile))
    (fst (insert_all (strategy (array_backed btree_volatile)) [5; 3; 5; 1]
            (st_new (strategy (array_backed btree_volatile)) [8; 8], Stats0)))
  = st_keys (strategy (vector_backed sorted_leaf))
      (fst (insert_all (strategy (vector_backed sorted_leaf)) [5; 3; 5; 1]
              (st_new (strategy (vector_backed sorted_leaf)) [], Stats0))).
Proof.
  assert (F1 : fits (strategy (array_backed btree_volatile)) [5; 3; 5; 1]).
  { unfold fits. simpl. unfold Article2.CAP. lia. }
  assert (F2 : fits (strategy (vector_backed sorted_leaf)) [5; 3; 5; 1])
    by exact I.
  split; [reflexivity|]. split; [reflexivity|].
  split; [exact F1|]. split; [exact F2|].
  exact (ordered_variants_agree (array_backed btree_volatile)
           (vector_backed sorted_leaf) [8; 8] [] [5; 3; 5; 1] Stats0 Stats0
           eq_refl eq_refl F1 F2).
Defined.

(** ** The ledger after a sequence of inserts *)

Lemma advanced_trans s1 s2 s3 w f m w' f' m' :
  advanced s1 s2 w f m -> advanced s2 s3 w' f' m' ->
  advanced s1 s3 (w + w') (f + f') (m + m').
Proof.
  intros (A1 & A2 & A3) (B1 & B2 & B3). unfold advanced.
  rewrite B1, B2, B3, A1, A2, A3, !wrap64_add_l, !Z.add_assoc. auto.
Qed.

Lemma advanced_eq s s' w f m w' f' m' :
  advanced s s' w f m -> w = w' -> f = f' -> m = m' -> advanced s s' w' f' m'.
Proof. intros H -> -> ->. exact H. Qed.

Lemma advanced_zero s : stats_ok s -> advanced s s 0 0 0.
Proof.
  intros (H1 & H2 & H3). unfold advanced. rewrite !Z.add_0_r.
  rewrite !wrap64_small; auto.
Qed.

Lemma a_w_split (a : array_variant) (leaf : LeafNode) (k : Z) :
  a_w a leaf k
  = a_fix a + (if keeps_order (array_backed a) then shifts leaf k else 0).
Proof. destruct a; simpl; lia. Qed.

Lemma array_ledger_accepted (a : array_variant) (ks : list Z) :
  forall (leaf : LeafNode) (s : Stats),
    leaf_ok (a_cap a) leaf -> stats_ok s ->
    count leaf + Z.of_nat (length ks) <= a_cap a ->
    advanced s (snd (insert_all (strategy (array_backed a)) ks (leaf, s)))
      (a_fix a * Z.of_nat (length ks) + moved_keys a (live leaf) ks)
      (a_f a * Z.of_nat (length ks)) (a_f a * Z.of_nat (length ks)).
Proof.
  induction ks as [|k ks IH]; intros leaf s Hok Hs Hfit.
  - simpl. eapply advanced_eq; [apply advanced_zero, Hs|..]; try lia.
    unfold moved_keys. destruct (keeps_order _); simpl; lia.
  - rewrite insert_all_cons.
    destruct (a_insert_spec a leaf k s) as [_ H].
    destruct H as (A & B & C & D); [exact Hok|cbn [length] in Hfit; lia|].
    specialize (D Hs).
    change (a_insert a) with (st_insert (strategy (array_backed a))) in A, B, C, D.
    destruct (st_insert (strategy (array_backed a)) leaf k s) as [leaf' s'].
    cbn [fst snd] in A, B, C, D.
    specialize (IH leaf' s' A (advanced_ok _ _ _ _ _ D)).
    assert (IH' := IH ltac:(cbn [length] in Hfit; lia)).
    eapply advanced_eq; [exact (advanced_trans _ _ _ _ _ _ _ _ _ D IH')|..];
      cbn [length]; try lia.
    rewrite a_w_split, C. unfold moved_keys, place, shifts.
    destruct (keeps_order (array_backed a)); cbn [shift_distances fold_right].
    + rewrite (live_length _ _ Hok). lia.
    + lia.
Qed.

(** X5. The ledger of an array leaf after any sequence [ks] of inserts
    into a new leaf, [m = min (length ks) CAP] of them accepted: [m]
    times the flushes and fences of one insert (1 for [insert_sorted],
    [insert_unsorted] and [LeafWBTree], 2 for [LeafBTreeLog] and
    [bztree_insert], none for [LeafBTreeVolatile]), and [m] times the fixed
    writes of one insert (1, 1, 1, 2, 4 and 5) plus, for the three sorted
    leaves, one write per key moved. Dropped inserts add nothing. *)
Theorem array_ledger_total (a : array_variant) (junk ks : list Z) (s : Stats) :
  stats_ok s ->
  let m := Z.min (Z.of_nat (length ks)) (a_cap a) in
  let r := insert_all (strategy (array_backed a)) ks (fresh (a_cap a) junk, s) in
  advanced s (snd r)
    (a_fix a * m + moved_keys a [] (take (Z.to_nat (a_cap a)) ks))
    (a_f a * m) (a_f a * m).
Proof.
  intros Hs m r.
  pose proof (new_good (array_backed a) junk) as Hg.
  pose proof (a_cap_pos a) as Hpos.
  assert (E : r = insert_all (strategy (array_backed a))
                    (take (Z.to_nat (a_cap a)) ks) (fresh (a_cap a) junk, s)).
  { subst r.
    etransitivity;
      [apply (insert_all_room (array_backed a) ks (fresh (a_cap a) junk) s Hg)|].
    unfold room. cbn [strategy st_cap st_count fresh count].
    rewrite Z.sub_0_r. reflexivity. }
  rewrite E.
  assert (Hm : Z.of_nat (length (take (Z.to_nat (a_cap a)) ks)) = m)
    by (subst m; rewrite length_take; lia).
  eapply advanced_eq;
    [apply (array_ledger_accepted a (take (Z.to_nat (a_cap a)) ks)
              (fresh (a_cap a) junk) s)|..].
  - apply Hg.
  - exact Hs.
  - rewrite Hm. subst m. simpl. lia.
  - rewrite Hm. reflexivity.
  - rewrite Hm. reflexivity.
  - rewrite Hm. reflexivity.
Qed.

Lemma array_ledger_total_witness :
  stats_ok Stats0 /\
  advanced Stats0
    (snd (insert_all (strategy (array_backed btree_log)) [5; 3; 4; 1; 2]
            (fresh (a_cap btree_log) [6; 6], Stats0)))
    33 10 10.
Proof.
  assert (H : stats_ok Stats0) by (unfold stats_ok; simpl; lia).
  split; [exact H|].
  exact (array_ledger_total btree_log [6; 6] [5; 3; 4; 1; 2] Stats0 H).
Defined.

(** ** The sorted shift, key by key *)

Lemma sorted_take_rank (l : list Z) (key : Z) :
  StronglySorted Z.le l ->
  take (rank l key) l = List.filter (fun x => x <? key) l /\
  drop (rank l key) l = List.filter (fun x => key <=? x) l.
Proof.
  induction 1 as [|x l Hs IH Hall]; [split; reflexivity|].
  simpl. destruct (Z.ltb_spec x key) as [Hlt|Hge].
  - destruct (Z.leb_spec key x) as [?|_]; [lia|].
    simpl. destruct IH as [IH1 IH2]. rewrite IH1, IH2. split; reflexivity.
  - destruct (Z.leb_spec key x) as [_|?]; [|lia]. simpl.
    assert (Hno : List.filter (fun y => y <? key) l = []).
    { clear IH Hs. induction Hall as [|y l Hy Hall IH]; [reflexivity|].
      simpl. destruct (Z.ltb_spec y key); [lia|exact IH]. }
    assert (Hyes : List.filter (fun y => key <=? y) l = l).
    { clear IH Hs Hno. induction Hall as [|y l Hy Hall IH]; [reflexivity|].
      simpl. destruct (Z.leb_spec key y); [|lia]. rewrite IH. reflexivity. }
    rewrite Hno, Hyes. split; reflexivity.
Qed.

(** X6. One accepted insert of a sorted array leaf ([insert_sorted],
    [LeafBTreeVolatile], [LeafBTreeLog]) into ordered stored keys: the
    keys below the new key stay, the new key follows them, and the keys
    not below it - equal keys included - all move up by one slot. The
    ledger gets one write per moved key on top of the fixed cost of the
    variant, so between 1 and [count + 1] writes for the two plain
    leaves. *)
Theorem sorted_insert_moves_keys_not_below (a : array_variant)
  (leaf : LeafNode) (key : Z) (s : Stats) :
  keeps_order (array_backed a) = true ->
  leaf_ok (a_cap a) leaf -> count leaf < a_cap a ->
  StronglySorted Z.le (live leaf) -> stats_ok s ->
  let r := a_insert a leaf key s in
  let moved := List.filter (fun x => key <=? x) (live leaf) in
  live (fst r)
  = List.filter (fun x => x <? key) (live leaf) ++ key :: moved /\
  advanced s (snd r) (a_fix a + Z.of_nat (length moved)) (a_f a) (a_f a) /\
  0 <= Z.of_nat (length moved) <= count leaf.
Proof.
  intros Hk Hok Hroom Hs Hst r moved.
  destruct (a_insert_spec a leaf key s) as [_ H].
  destruct (H Hok Hroom) as (_ & _ & C & D). specialize (D Hst).
  fold r in C, D.
  destruct (sorted_take_rank (live leaf) key Hs) as [T Dr].
  assert (Hm : Z.of_nat (length moved) = shifts leaf key).
  { subst moved. rewrite <- Dr, length_drop. unfold shifts.
    pose proof (rank_le_length (live leaf) key).
    pose proof (live_length _ _ Hok). lia. }
  split; [|split].
  - rewrite C. unfold place. rewrite Hk. unfold insert_at_rank.
    rewrite T, Dr. reflexivity.
  - eapply advanced_eq; [exact D| |reflexivity|reflexivity].
    rewrite a_w_split, Hk, Hm. reflexivity.
  - rewrite Hm. unfold shifts.
    pose proof (rank_le_length (live leaf) key).
    pose proof (live_length _ _ Hok). lia.
Qed.

Lemma sorted_insert_moves_keys_not_below_witness :
  let leaf := mkLeaf (2 :: 4 :: 4 :: 7 :: repeat 0 124) 4 in
  keeps_order (array_backed sorted_a1) = true /\
  leaf_ok (a_cap sorted_a1) leaf /\ count leaf < a_cap sorted_a1 /\
  StronglySorted Z.le (live leaf) /\ stats_ok Stats0 /\
  live (fst (a_insert sorted_a1 leaf 4 Stats0)) = [2; 4; 4; 4; 7] /\
  advanced Stats0 (snd (a_insert sorted_a1 leaf 4 Stats0)) 4 1 1.
Proof.
  intros leaf.
  assert (H1 : leaf_ok (a_cap sorted_a1) leaf).
  { split; [reflexivity|]. simpl. unfold Article1.CAP. lia. }
  assert (H2 : count leaf < a_cap sorted_a1) by reflexivity.
  assert (H3 : StronglySorted Z.le (live leaf)).
  { unfold live. simpl. repeat constructor; lia. }
  assert (H4 : stats_ok Stats0) by (unfold stats_ok; simpl; lia).
  split; [reflexivity|]. split; [exact H1|]. split; [exact H2|].
  split; [exact H3|]. split; [exact H4|].
  pose proof (sorted_insert_moves_keys_not_below sorted_a1 leaf 4 Stats0
                eq_refl H1 H2 H3 H4) as H.
  cbv zeta in H. destruct H as (A & B & _).
  split; [exact A|exact B].
Defined.

(** ** Logging against the volatile leaf *)

Lemma shift_loop_array (n : nat) :
  forall (a : list Z) (s s' : Stats) (i pos : Z),
    fst (shift_loop n a s i pos) = fst (shift_loop n a s' i pos).
Proof.
  induction n as [|n IH]; intros a s s' i pos; simpl; [reflexivity|].
  destruct (pos <? i); [apply IH|reflexivity].
Qed.

Lemma log_leaf_is_volatile_leaf (leaf : LeafNode) (k : Z) (s s' : Stats) :
  fst (Article2.LeafBTreeLog_insert leaf k s)
  = fst (Article2.LeafBTreeVolatile_insert leaf k s').
Proof.
  unfold Article2.LeafBTreeLog_insert, Article2.LeafBTreeVolatile_insert.
  destruct (Article2.CAP <=? count leaf); [reflexivity|].
  unfold shift_right.
  pose proof (shift_loop_array
                (Z.to_nat (count leaf - find_pos (keys leaf) (count leaf) k))
                (keys leaf) (pcm_fence (pcm_flush (pcm_write s 4))) s'
                (count leaf) (find_pos (keys leaf) (count leaf) k)) as H.
  destruct (shift_loop _ _ (pcm_fence _) _ _) as [a1 s1].
  destruct (shift_loop _ _ s' _ _) as [a2 s2].
  cbn [fst] in *. subst a2. reflexivity.
Qed.

Lemma log_leaves_are_volatile_leaves (ks : list Z) :
  forall (leaf : LeafNode) (s s' : Stats),
    fst (insert_all (strategy (array_backed btree_log)) ks (leaf, s))
    = fst (insert_all (strategy (array_backed btree_volatile)) ks (leaf, s')).
Proof.
  induction ks as [|k ks IH]; intros leaf s s'; [reflexivity|].
  rewrite !insert_all_cons.
  pose proof (log_leaf_is_volatile_leaf leaf k s s') as H.
  change (st_insert (strategy (array_backed btree_log)))
    with Article2.LeafBTreeLog_insert.
  change (st_insert (strategy (array_backed btree_volatile)))
    with Article2.LeafBTreeVolatile_insert.
  destruct (Article2.LeafBTreeLog_insert leaf k s) as [l1 s1].
  destruct (Article2.LeafBTreeVolatile_insert leaf k s') as [l2 s2].
  cbn [fst] in H. subst l2. apply IH.
Qed.

(** X7. [LeafBTreeLog] applies the in-place update of [LeafBTreeVolatile]
    unchanged: from the same leaf, whatever it holds, the same inserts
    leave the same array and the same count, slot for slot. Started on a
    new leaf with equal ledgers, the logging leaf ends with 4 more writes,
    2 more flushes and 2 more fences per accepted insert. *)
Theorem logging_overhead (leaf : LeafNode) (junk ks : list Z) (s : Stats) :
  stats_ok s ->
  let m := Z.min (Z.of_nat (length ks)) Article2.CAP in
  let lg := insert_all (strategy (array_backed btree_log)) ks in
  let vo := insert_all (strategy (array_backed btree_volatile)) ks in
  fst (lg (leaf, s)) = fst (vo (leaf, s)) /\
  advanced (snd (vo (fresh Article2.CAP junk, s)))
    (snd (lg (fresh Article2.CAP junk, s))) (4 * m) (2 * m) (2 * m).
Proof.
  intros Hs m lg vo. split; [apply log_leaves_are_volatile_leaves|].
  pose proof (array_ledger_accepted btree_log
                (take (Z.to_nat Article2.CAP) ks)) as L.
  pose proof (array_ledger_accepted btree_volatile
                (take (Z.to_nat Article2.CAP) ks)) as V.
  pose proof (new_good (array_backed btree_log) junk) as Gl.
  pose proof (new_good (array_backed btree_volatile) junk) as Gv.
  assert (Hm : Z.of_nat (length (take (Z.to_nat Article2.CAP) ks)) = m).
  { subst m. rewrite length_take. unfold Article2.CAP. lia. }
  specialize (L (fresh Article2.CAP junk) s (proj1 Gl) Hs).
  specialize (V (fresh Article2.CAP junk) s (proj1 Gv) Hs).
  rewrite Hm in L, V.
  assert (Hfit : count (fresh Article2.CAP junk) + m <= a_cap btree_log).
  { subst m. simpl. lia. }
  specialize (L Hfit). specialize (V Hfit).
  assert (El : lg (fresh Article2.CAP junk, s)
               = insert_all (strategy (array_backed btree_log))
                   (take (Z.to_nat Article2.CAP) ks)
                   (fresh Article2.CAP junk, s)).
  { subst lg.
    etransitivity;
      [apply (insert_all_room (array_backed btree_log) ks
                (fresh Article2.CAP junk) s Gl)|].
    unfold room. cbn [strategy st_cap st_count fresh count a_cap].
    rewrite Z.sub_0_r. reflexivity. }
  assert (Ev : vo (fresh Article2.CAP junk, s)
               = insert_all (strategy (array_backed btree_volatile))
                   (take (Z.to_nat Article2.CAP) ks)
                   (fresh Article2.CAP junk, s)).
  { subst vo.
    etransitivity;
      [apply (insert_all_room (array_backed btree_volatile) ks
                (fresh Article2.CAP junk) s Gv)|].
    unfold room. cbn [strategy st_cap st_count fresh count a_cap].
    rewrite Z.sub_0_r. reflexivity. }
  rewrite El, Ev.
  destruct L as (L1 & L2 & L3). destruct V as (V1 & V2 & V3).
  unfold advanced. rewrite L1, L2, L3, V1, V2, V3, !wrap64_add_l.
  unfold moved_keys. simpl.
  repeat split; f_equal; lia.
Qed.

Lemma logging_overhead_witness :
  stats_ok Stats0 /\
  advanced
    (snd (insert_all (strategy (array_backed btree_volatile)) [5; 3; 4]
            (fresh Article2.CAP [], Stats0)))
    (snd (insert_all (strategy (array_backed btree_log)) [5; 3; 4]
            (fresh Article2.CAP [], Stats0)))
    12 6 6.
Proof.
  assert (H : stats_ok Stats0) by (unfold stats_ok; simpl; lia).
  split; [exact H|].
  exact (proj2 (logging_overhead (fresh Article2.CAP []) [] [5; 3; 4] Stats0 H)).
Defined.

(** ** The two searches, and the library's lower bound *)

(** X8. On an array leaf whose stored keys are ordered, the binary search
    of [LeafBTreeVolatile] and [LeafBTreeLog] answers as the linear scan
    of [search_leaf] and [LeafWBTree] does, for every key - stored,
    missing, or equal to several stored keys - and on the empty leaf. *)
Theorem binary_search_is_linear_scan (cap : Z) (leaf : LeafNode) (k : Z) :
  leaf_ok cap leaf -> StronglySorted Z.le (live leaf) ->
  binary_search leaf k = linear_scan leaf k.
Proof.
  intros Hok Hs.
  pose proof (binary_search_spec cap leaf k Hok Hs) as B.
  pose proof (linear_scan_spec cap leaf k Hok) as L.
  destruct (binary_search leaf k), (linear_scan leaf k); try reflexivity.
  - symmetry. apply L, B. reflexivity.
  - apply B, L. reflexivity.
Qed.

Lemma binary_search_is_linear_scan_witness :
  let leaf := mkLeaf (2 :: 4 :: 4 :: 7 :: repeat 9 28) 4 in
  leaf_ok 32 leaf /\ StronglySorted Z.le (live leaf) /\
  binary_search leaf 9 = linear_scan leaf 9.
Proof.
  intros leaf.
  assert (H1 : leaf_ok 32 leaf) by (split; [reflexivity|simpl; lia]).
  assert (H2 : StronglySorted Z.le (live leaf)).
  { unfold live. simpl. repeat constructor; lia. }
  split; [exact H1|]. split; [exact H2|].
  exact (binary_search_is_linear_scan 32 leaf 9 H1 H2).
Defined.

Lemma lower_bound_loop_range (v : list Z) (val : Z) :
  forall (fuel first len : nat),
    (first + len <= length v)%nat ->
    (lower_bound_loop fuel v val first len <= length v)%nat.
Proof.
  induction fuel as [|fuel IH]; intros first len Hlen; simpl; [lia|].
  destruct (Nat.ltb_spec 0 len) as [Hpos|Hz]; [|lia].
  assert (Hh : (Nat.div2 len < len)%nat) by (apply Nat.lt_div2; lia).
  destruct (v !!! (first + Nat.div2 len)%nat <? val); apply IH; lia.
Qed.

(** X9. [std::lower_bound] as the leaves call it: on any vector the
    returned position is within the vector, its end included; on an
    ordered vector every key before the position is below the value and
    every key from the position on is not - so an absent value yields the
    place where it would go, and the end when it is above all keys. *)
Theorem lower_bound_contract (v : list Z) (val : Z) :
  (lower_bound v val <= length v)%nat /\
  (StronglySorted Z.le v ->
   forall (i : nat) (x : Z), v !! i = Some x ->
     ((i < lower_bound v val)%nat -> x < val) /\
     ((lower_bound v val <= i)%nat -> val <= x)).
Proof.
  split.
  - unfold lower_bound. apply lower_bound_loop_range. lia.
  - intros Hs i x Hx. rewrite (lower_bound_rank v val Hs). split.
    + intros Hi. apply (rank_lookup_lt v val i x Hi Hx).
    + intros Hi. apply (rank_lookup_ge v val Hs i x Hi Hx).
Qed.

Lemma lower_bound_contract_witness :
  StronglySorted Z.le [2; 4; 4; 7] /\
  lower_bound [2; 4; 4; 7] 4 = 1%nat /\
  lower_bound [2; 4; 4; 7] 8 = 4%nat /\
  ((1 <= 2)%nat -> 4 <= 4).
Proof.
  assert (H : StronglySorted Z.le [2; 4; 4; 7]) by (repeat constructor; lia).
  split; [exact H|]. split; [reflexivity|]. split; [reflexivity|].
  exact (proj2 (proj2 (lower_bound_contract [2; 4; 4; 7] 4) H 2%nat 4 eq_refl)).
Defined.

(** ** The lower-bound leaves of the extension simulators *)

Lemma vector_insert_perm (v : list Z) (it : nat) (key : Z) :
  Permutation (vector_insert v it key) (key :: v).
Proof.
  unfold vector_insert. symmetry.
  etransitivity; [|apply Permutation_middle].
  rewrite take_drop. reflexivity.
Qed.

(** X10. [insert] and [search] of the six lower-bound leaves
    ([SortedLeaf], [LeafBaseline], [LeafLogging], [LeafWBTree],
    [SimpleLeaf], [BzLeaf]) on any vector: the insert adds the key and
    loses none, whatever the vector holds, and charges the coefficients of
    the leaf. On an ordered vector the key goes after the keys below it
    and before the others, equal keys included, and [search] is [true]
    exactly for the keys in the vector - [false] on the empty vector. *)
Theorem lower_bound_leaf_insert_and_search (e : vector_variant)
  (v : Extension.leaf_t (e_leaf e)) (key k : Z) (s : Stats) :
  e <> unsorted_leaf ->
  let r := Extension.leaf_insert (e_leaf e) v key s in
  Permutation (Extension.leaf_keys (e_leaf e) (fst r))
    (key :: Extension.leaf_keys (e_leaf e) v) /\
  snd r = charge s (e_w e) (e_f e) (e_m e) /\
  (StronglySorted Z.le (Extension.leaf_keys (e_leaf e) v) ->
   Extension.leaf_keys (e_leaf e) (fst r)
   = List.filter (fun x => x <? key) (Extension.leaf_keys (e_leaf e) v)
       ++ key
       :: List.filter (fun x => key <=? x) (Extension.leaf_keys (e_leaf e) v)
   /\
   (fst (Extension.leaf_search (e_leaf e) v k s) = true
    <-> In k (Extension.leaf_keys (e_leaf e) v))).
Proof.
  intros He r.
  destruct e; try congruence; subst r;
    cbn [e_leaf e_w e_f e_m] in *;
    unfold Extension.SortedLeaf, Extension.LeafBaseline, Extension.LeafLogging,
      Extension.LeafWBTree, Extension.SimpleLeaf, Extension.BzLeaf in *;
    cbn [Extension.leaf_insert Extension.leaf_search Extension.leaf_keys
         Extension.leaf_t Extension.ordered_leaf Extension.ordered_insert
         Extension.ordered_search fst snd id] in *;
    (split; [apply vector_insert_perm|]; split; [reflexivity|];
     intros Hs; split;
     [unfold Extension.insert_in_order, vector_insert;
      rewrite (lower_bound_rank v key Hs);
      destruct (sorted_take_rank v key Hs) as [T D]; rewrite T, D; reflexivity
     |apply lookup_in_order_spec, Hs]).
Qed.

Lemma lower_bound_leaf_insert_and_search_witness :
  logging <> unsorted_leaf /\
  StronglySorted Z.le [2; 4; 4; 7] /\
  Extension.leaf_keys (e_leaf logging)
    (fst (Extension.leaf_insert (e_leaf logging) [2; 4; 4; 7] 4 Stats0))
  = [2; 4; 4; 4; 7] /\
  snd (Extension.leaf_insert (e_leaf logging) [2; 4; 4; 7] 4 Stats0)
  = mkStats 8 4 2.
Proof.
  assert (H1 : logging <> unsorted_leaf) by discriminate.
  assert (H2 : StronglySorted Z.le [2; 4; 4; 7]) by (repeat constructor; lia).
  split; [exact H1|]. split; [exact H2|].
  pose proof (lower_bound_leaf_insert_and_search logging [2; 4; 4; 7] 4 4
                Stats0 H1) as H.
  cbv zeta in H. destruct H as (_ & B & C).
  destruct (C H2) as [A _].
  split; [exact A|exact B].
Defined.

(** ** The multi-leaf tree of article 1 *)

Module TreeFacts.
Import Article1.

Lemma leaf_at_lookup (ls : list LeafNode) (i : nat) (leaf : LeafNode) :
  ls !! i = Some leaf -> leaf_at ls (Z.of_nat i) = leaf.
Proof.
  intros H. unfold leaf_at. rewrite Nat2Z.id.
  apply nth_lookup_Some with (d := mkLeaf [] 0) in H. exact H.
Qed.

Lemma stored_total_insert (ls : list LeafNode) (i : nat) (old new : LeafNode) :
  ls !! i = Some old ->
  stored_total (<[i := new]> ls) = stored_total ls - count old + count new.
Proof.
  revert i. induction ls as [|l ls IH]; intros i H; [discriminate|].
  destruct i as [|i]; simpl in *.
  - injection H as ->. lia.
  - rewrite (IH i H). lia.
Qed.

Lemma stored_total_bounds (ls : list LeafNode) :
  (forall i leaf, ls !! i = Some leaf -> leaf_ok CAP leaf) ->
  0 <= stored_total ls <= CAP * Z.of_nat (length ls).
Proof.
  induction ls as [|l ls IH]; intros H; simpl; [lia|].
  destruct (H 0%nat l eq_refl) as [_ Hc].
  assert (0 <= stored_total ls <= CAP * Z.of_nat (length ls))
    by (apply IH; intros i leaf Hi; apply (H (S i) leaf Hi)).
  lia.
Qed.

Lemma size_loop (ls : list LeafNode) :
  forall total,
    (forall i leaf, ls !! i = Some leaf -> leaf_ok CAP leaf) ->
    0 <= total -> total + CAP * Z.of_nat (length ls) < 2 ^ 64 ->
    fold_left (fun total l => wrap64 (total + count l)) ls total
    = total + stored_total ls.
Proof.
  induction ls as [|l ls IH]; intros total H H0 Hb; simpl; [lia|].
  destruct (H 0%nat l eq_refl) as [_ Hc]. cbn [length] in Hb.
  unfold CAP in Hb, Hc.
  rewrite wrap64_small by lia.
  rewrite IH; [lia| |lia|unfold CAP; lia].
  intros i leaf Hi. apply (H (S i) leaf Hi).
Qed.

Lemma tree_size_total (n : nat) (t : SimpleBPlusTree) :
  tree_ok n t -> Z.of_nat n < 2 ^ 31 ->
  SimpleBPlusTree_size t = stored_total (leaves t) /\
  0 <= stored_total (leaves t) <= CAP * Z.of_nat n.
Proof.
  intros [Hlen Hl] Hn.
  assert (Hok : forall i leaf, leaves t !! i = Some leaf -> leaf_ok CAP leaf)
    by (intros i leaf Hi; apply (Hl i leaf Hi)).
  pose proof (stored_total_bounds (leaves t) Hok) as Hb. rewrite Hlen in Hb.
  split; [|exact Hb].
  unfold SimpleBPlusTree_size. rewrite size_loop; [lia|exact Hok|lia|].
  rewrite Hlen. unfold CAP. lia.
Qed.

Lemma new_tree_ok (num_leaves : Z) :
  tree_ok (Z.to_nat num_leaves) (SimpleBPlusTree_new num_leaves).
Proof.
  split; [apply repeat_length|].
  intros i leaf Hi. cbn [SimpleBPlusTree_new leaves] in Hi.
  apply list_elem_of_lookup_2, list_elem_of_In, repeat_spec in Hi. subst leaf.
  split.
  - split; [apply length_resize|simpl; unfold CAP; lia].
  - intros k Hk. destruct Hk.
Qed.

(** One [insert] of the tree, in full. *)
Lemma tree_insert_step (n : nat) (t : SimpleBPlusTree) (key : Z) (s : Stats) :
  tree_ok n t -> (0 < n)%nat ->
  let i := Z.to_nat (key mod Z.of_nat n) in
  let old := leaf_at (leaves t) (key mod Z.of_nat n) in
  let r := SimpleBPlusTree_insert t key s in
  leaves t !! i = Some old /\
  tree_ok n (fst r) /\
  (forall j, j <> i -> leaves (fst r) !! j = leaves t !! j) /\
  (CAP <= count old -> r = (t, s)) /\
  (count old < CAP ->
   (exists new, leaves (fst r) !! i = Some new /\
                live new = live old ++ [key] /\
                count new = count old + 1) /\
   stored_total (leaves (fst r)) = stored_total (leaves t) + 1 /\
   snd r = pcm_fence (pcm_flush (pcm_write s 1))).
Proof.
  intros [Hlen Hl] Hn i old r.
  assert (Hi : 0 <= key mod Z.of_nat n < Z.of_nat n)
    by (apply Z.mod_pos_bound; lia).
  assert (Hlt : (i < length (leaves t))%nat) by (subst i; lia).
  destruct (lookup_lt_is_Some_2 _ _ Hlt) as [old' Hold].
  assert (old' = old).
  { subst old. symmetry. rewrite <- (leaf_at_lookup _ _ _ Hold).
    subst i. rewrite Z2Nat.id by lia. reflexivity. }
  subst old'.
  destruct (Hl i old Hold) as [Hok Hres].
  assert (Er : r = (mkTree (<[i := fst (insert_unsorted old key s)]> (leaves t)),
                    snd (insert_unsorted old key s))).
  { subst r. unfold SimpleBPlusTree_insert. rewrite Hlen. fold old.
    destruct (insert_unsorted old key s) as [lf s']. reflexivity. }
  destruct (insert_unsorted_spec old key s) as [Hfull Hacc].
  split; [exact Hold|].
  assert (Hother : forall j, j <> i -> leaves (fst r) !! j = leaves t !! j).
  { intros j Hj. rewrite Er. cbn [fst leaves].
    apply list_lookup_insert_ne. congruence. }
  destruct (Z.le_gt_cases CAP (count old)) as [Hc|Hc].
  - assert (Eq : r = (t, s)).
    { rewrite Er, (Hfull Hc). cbn [fst snd].
      rewrite (list_insert_id _ _ _ Hold). destruct t. reflexivity. }
    split; [rewrite Eq; split; assumption|].
    split; [exact Hother|]. split; [intros _; exact Eq|]. intros Hc'. lia.
  - destruct (Hacc Hok Hc) as (A & B & C & _).
    assert (Hnew : leaves (fst r) !! i = Some (fst (insert_unsorted old key s))).
    { rewrite Er. cbn [fst leaves]. apply list_lookup_insert_eq. exact Hlt. }
    split; [|split; [exact Hother|split; [intros Hc'; lia|intros _]]].
    + split.
      * rewrite Er. cbn [fst leaves]. rewrite length_insert. exact Hlen.
      * intros j leaf Hj. destruct (Nat.eq_dec j i) as [->|Hne].
        -- rewrite Hnew in Hj. injection Hj as <-. split; [exact A|].
           intros k Hk. rewrite C in Hk. unfold append in Hk.
           apply in_app_or in Hk. destruct Hk as [Hk|[<-|[]]].
           ++ apply Hres, Hk.
           ++ subst i. lia.
        -- rewrite (Hother j Hne) in Hj. apply (Hl j leaf Hj).
    + split; [|split].
      * exists (fst (insert_unsorted old key s)).
        split; [exact Hnew|]. split; [exact C|exact B].
      * rewrite Er. cbn [fst leaves].
        rewrite (stored_total_insert _ _ old _ Hold), B. lia.
      * rewrite Er. cbn [snd]. unfold insert_unsorted.
        destruct (Z.leb_spec CAP (count old)); [lia|reflexivity].
Qed.

(** X11. One [insert] of [SimpleBPlusTree] on a tree of [n > 0] leaves
    touches only the leaf numbered [key % n]. When that leaf has room the
    key is appended to it, [size()] grows by exactly 1 and the ledger gets
    1 write, 1 flush and 1 fence; when it is full the tree, [size()] and
    the ledger stay as they were, even if other leaves have room. *)
Theorem tree_insert_routes_by_remainder (n : nat) (t : SimpleBPlusTree)
  (key : Z) (s : Stats) :
  tree_ok n t -> (0 < n)%nat -> Z.of_nat n < 2 ^ 31 ->
  let i := Z.to_nat (key mod Z.of_nat n) in
  let old := leaf_at (leaves t) (key mod Z.of_nat n) in
  let r := SimpleBPlusTree_insert t key s in
  tree_ok n (fst r) /\
  (forall j, j <> i -> leaves (fst r) !! j = leaves t !! j) /\
  (CAP <= count old ->
   r = (t, s) /\ SimpleBPlusTree_size (fst r) = SimpleBPlusTree_size t) /\
  (count old < CAP ->
   live (leaf_at (leaves (fst r)) (key mod Z.of_nat n)) = live old ++ [key] /\
   SimpleBPlusTree_size (fst r) = SimpleBPlusTree_size t + 1 /\
   snd r = pcm_fence (pcm_flush (pcm_write s 1))).
Proof.
  intros Hok Hn Hn' i old r.
  destruct (tree_insert_step n t key s Hok Hn) as (Hold & Hok' & Ho & Hf & Ha).
  fold i old r in Hold, Hok', Ho, Hf, Ha.
  destruct (tree_size_total n t Hok Hn') as [S0 _].
  destruct (tree_size_total n (fst r) Hok' Hn') as [S1 _].
  split; [exact Hok'|]. split; [exact Ho|]. split.
  - intros Hc. specialize (Hf Hc). split; [exact Hf|]. rewrite Hf. reflexivity.
  - intros Hc. destruct (Ha Hc) as ((new & Hnew & Hlive & _) & Ht & Hs).
    split; [|split; [rewrite S1, S0; exact Ht|exact Hs]].
    assert (Hi : 0 <= key mod Z.of_nat n) by (apply Z.mod_pos_bound; lia).
    replace (key mod Z.of_nat n) with (Z.of_nat i) by (subst i; lia).
    rewrite (leaf_at_lookup _ _ _ Hnew). exact Hlive.
Qed.

Lemma tree_insert_routes_by_remainder_witness :
  let t := SimpleBPlusTree_new 4 in
  let r := SimpleBPlusTree_insert t 10 Stats0 in
  tree_ok 4 t /\ (0 < 4)%nat /\ Z.of_nat 4 < 2 ^ 31 /\
  live (leaf_at (leaves (fst r)) 2) = [10] /\
  SimpleBPlusTree_size (fst r) = 1.
Proof.
  intros t r.
  assert (H1 : tree_ok 4 t) by exact (new_tree_ok 4).
  assert (H2 : (0 < 4)%nat) by lia.
  assert (H3 : Z.of_nat 4 < 2 ^ 31) by reflexivity.
  split; [exact H1|]. split; [exact H2|]. split; [exact H3|].
  pose proof (tree_insert_routes_by_remainder 4 t 10 Stats0 H1 H2 H3) as H.
  cbv zeta in H. destruct H as (_ & _ & _ & H).
  destruct (H eq_refl) as (A & B & _).
  split; [exact A|exact B].
Defined.

Lemma tree_inserts_inv (n : nat) (ks : list Z) :
  forall (t : SimpleBPlusTree) (s : Stats),
    tree_ok n t -> (0 < n)%nat ->
    let r := SimpleBPlusTree_inserts ks (t, s) in
    tree_ok n (fst r) /\
    stored_total (leaves t) <= stored_total (leaves (fst r))
      <= stored_total (leaves t) + Z.of_nat (length ks) /\
    (forall i leaf k,
        leaves (fst r) !! i = Some leaf -> In k (live leaf) ->
        In k ks \/
        exists leaf0, leaves t !! i = Some leaf0 /\ In k (live leaf0)).
Proof.
  induction ks as [|x ks IH]; intros t s Hok Hn r.
  - subst r. simpl. split; [exact Hok|]. split; [lia|].
    intros i leaf k Hi Hk. right. exists leaf. split; assumption.
  - subst r. cbn [SimpleBPlusTree_inserts fold_left fst snd].
    destruct (tree_insert_step n t x s Hok Hn) as (Hold & Hok' & Ho & Hf & Ha).
    destruct (SimpleBPlusTree_insert t x s) as [t1 s1] eqn:E.
    cbn [fst snd] in *.
    fold (SimpleBPlusTree_inserts ks (t1, s1)).
    destruct (IH t1 s1 Hok' Hn) as (G & B & K).
    set (i0 := Z.to_nat (x mod Z.of_nat n)) in *.
    set (old := leaf_at (leaves t) (x mod Z.of_nat n)) in *.
    assert (Hstep : stored_total (leaves t) <= stored_total (leaves t1)
                    <= stored_total (leaves t) + 1 /\
                    forall i leaf k, leaves t1 !! i = Some leaf ->
                      In k (live leaf) ->
                      k = x \/ exists leaf0, leaves t !! i = Some leaf0 /\
                                             In k (live leaf0)).
    { destruct (Z.le_gt_cases CAP (count old)) as [Hc|Hc].
      - injection (Hf Hc) as -> ->. split; [lia|].
        intros i leaf k Hi Hk. right. exists leaf. split; assumption.
      - destruct (Ha Hc) as ((new & Hnew & Hlive & _) & Ht & _).
        split; [lia|]. intros i leaf k Hi Hk.
        destruct (Nat.eq_dec i i0) as [->|Hne].
        + rewrite Hnew in Hi. injection Hi as <-. rewrite Hlive in Hk.
          apply in_app_or in Hk. destruct Hk as [Hk|[<-|[]]].
          * right. exists old. split; assumption.
          * left. reflexivity.
        + right. exists leaf. rewrite <- (Ho i Hne). split; assumption. }
    destruct Hstep as [Hb Hk].
    split; [exact G|]. split; [cbn [length]; lia|].
    intros i leaf k Hi Hin.
    destruct (K i leaf k Hi Hin) as [Hin'|(leaf1 & H1 & H1')].
    + left. right. exact Hin'.
    + destruct (Hk i leaf1 k H1 H1') as [->|Hex].
      * left. left. reflexivity.
      * right. exact Hex.
Qed.

(** X12. After any sequence [ks] of inserts into a new tree of
    [num_leaves] leaves: every leaf is within its capacity of 128, leaf
    [i] holds only keys with [key % num_leaves = i], every stored key is
    one of [ks], and [size()] is the number of stored keys - at most
    [length ks] and at most [128 * num_leaves], however many inserts were
    made. *)
Theorem tree_after_inserts (num_leaves : Z) (ks : list Z) (s : Stats) :
  0 < num_leaves < 2 ^ 31 ->
  let t := fst (SimpleBPlusTree_inserts ks (SimpleBPlusTree_new num_leaves, s)) in
  length (leaves t) = Z.to_nat num_leaves /\
  (forall (i : nat) (leaf : LeafNode),
      leaves t !! i = Some leaf ->
      leaf_ok CAP leaf /\
      forall k, In k (live leaf) -> k mod num_leaves = Z.of_nat i /\ In k ks) /\
  SimpleBPlusTree_size t = stored_total (leaves t) /\
  0 <= SimpleBPlusTree_size t <= Z.min (Z.of_nat (length ks)) (CAP * num_leaves).
Proof.
  intros Hn t.
  destruct (tree_inserts_inv (Z.to_nat num_leaves) ks
              (SimpleBPlusTree_new num_leaves) s (new_tree_ok num_leaves))
    as (G & B & K); [lia|].
  fold t in G, B, K.
  destruct (tree_size_total _ t G) as [S1 S2]; [lia|].
  assert (Z0 : stored_total (leaves (SimpleBPlusTree_new num_leaves)) = 0).
  { unfold SimpleBPlusTree_new. cbn [leaves].
    generalize (Z.to_nat num_leaves) as m.
    induction m as [|m IH]; [reflexivity|].
    simpl. exact IH. }
  destruct G as [Hlen Hl].
  split; [exact Hlen|]. split; [|split; [exact S1|]].
  - intros i leaf Hi. destruct (Hl i leaf Hi) as [Hok Hres].
    split; [exact Hok|]. intros k Hk. split.
    + rewrite <- (Z2Nat.id num_leaves) at 1 by lia. apply Hres, Hk.
    + destruct (K i leaf k Hi Hk) as [Hin|(leaf0 & H0 & H0')]; [exact Hin|].
      exfalso. cbn [SimpleBPlusTree_new leaves] in H0.
      apply list_elem_of_lookup_2, list_elem_of_In, repeat_spec in H0.
      subst leaf0. destruct H0'.
  - rewrite S1. rewrite Z0 in B. rewrite Z2Nat.id in S2 by lia. lia.
Qed.

Lemma tree_after_inserts_witness :
  0 < 64 < 2 ^ 31 /\
  SimpleBPlusTree_size
    (fst (SimpleBPlusTree_inserts [70; 6; 134; 9]
            (SimpleBPlusTree_new 64, Stats0))) = 4.
Proof.
  assert (H : 0 < 64 < 2 ^ 31) by lia.
  split; [exact H|].
  pose proof (tree_after_inserts 64 [70; 6; 134; 9] Stats0 H) as T.
  cbv zeta in T. destruct T as (_ & _ & E & _).
  rewrite E. reflexivity.
Defined.

End TreeFacts.

(** ** What a PMwCAS commit writes *)

Module CommitFacts.
Import Article3.

Lemma apply_entries_leaf (es : list PMwCAS_Entry) :
  forall (leaf : LeafNode) (s : Stats),
    fst (fold_left apply_entry es (leaf, s)) = fold_left store_entry es leaf.
Proof.
  induction es as [|e es IH]; intros leaf s; [reflexivity|].
  simpl. unfold apply_entry at 2. cbn [fst snd]. apply IH.
Qed.

Lemma pmwcas_leaf (desc : PMwCAS_Descriptor) (leaf : LeafNode) (s : Stats) :
  snd (fst (pmwcas desc leaf s)) = fold_left store_entry (entries desc) leaf.
Proof.
  unfold pmwcas.
  rewrite <- (apply_entries_leaf (entries desc) leaf
                (pcm_fence (pcm_flush (pcm_write s 2)))).
  destruct (fold_left apply_entry _ _) as [lf s1]. reflexivity.
Qed.

Lemma rd_wr_other (a : list Z) (i j v : Z) : i <> j -> rd (wr a i v) j = rd a j.
Proof.
  intros Hne. unfold rd, wr.
  destruct (Z.ltb_spec j 0); [reflexivity|].
  destruct (Z.ltb_spec i 0); [reflexivity|].
  apply list_lookup_total_insert_ne. lia.
Qed.

Lemma rd_wr_same (a : list Z) (i v : Z) :
  0 <= i < Z.of_nat (length a) -> rd (wr a i v) i = v.
Proof.
  intros Hi. apply rd_lookup; [lia|]. rewrite wr_lookup by lia.
  destruct (decide _); [reflexivity|congruence].
Qed.

Lemma store_length (a : word_ptr) (v : Z) (leaf : LeafNode) :
  length (keys (store a v leaf)) = length (keys leaf).
Proof. destruct a; simpl; [apply wr_length|reflexivity]. Qed.

Lemma store_holds (a : word_ptr) (v : Z) (leaf : LeafNode) :
  in_leaf leaf a -> holds (store a v leaf) a v.
Proof. destruct a; simpl; [apply rd_wr_same|reflexivity]. Qed.

Lemma store_other (a b : word_ptr) (v : Z) (leaf : LeafNode) :
  a <> b -> same_word leaf (store a v leaf) b.
Proof.
  intros Hne. destruct a as [i|], b as [j|]; simpl; try reflexivity.
  - apply rd_wr_other. congruence.
  - congruence.
Qed.

Lemma stores_length (es : list PMwCAS_Entry) :
  forall leaf, length (keys (fold_left store_entry es leaf)) = length (keys leaf).
Proof.
  induction es as [|e es IH]; intros leaf; [reflexivity|].
  simpl. rewrite IH. apply store_length.
Qed.

Lemma stores_other (es : list PMwCAS_Entry) (b : word_ptr) :
  ~ In b (map addr es) ->
  forall leaf, same_word leaf (fold_left store_entry es leaf) b.
Proof.
  induction es as [|e es IH]; intros Hb leaf.
  - destruct b; reflexivity.
  - simpl in *. assert (Hne : addr e <> b) by tauto.
    assert (Hes : ~ In b (map addr es)) by tauto.
    specialize (IH Hes (store_entry leaf e)).
    pose proof (store_other (addr e) b (new_val e) leaf Hne) as H1.
    fold (store_entry leaf e) in H1.
    destruct b; simpl in *; congruence.
Qed.

(** X13. What a commit leaves in the leaf: [pmwcas] stores the entries in
    the order of the descriptor and looks at no old value. Each addressed
    word of the leaf ends with the value of the last entry that addresses
    it - for the counter, the low half of that value -, whatever it held
    and whatever earlier entries wrote there; every word no entry
    addresses is unchanged; the array keeps its length. *)
Theorem pmwcas_last_entry_wins (es1 es2 : list PMwCAS_Entry) (e : PMwCAS_Entry)
  (leaf : LeafNode) (s : Stats) :
  in_leaf leaf (addr e) -> ~ In (addr e) (map addr es2) ->
  let leaf' := snd (fst (pmwcas (mkDesc (es1 ++ e :: es2)) leaf s)) in
  holds leaf' (addr e) (new_val e) /\
  length (keys leaf') = length (keys leaf) /\
  (forall b, ~ In b (map addr (es1 ++ e :: es2)) -> same_word leaf leaf' b).
Proof.
  intros Hin Hlast leaf'. subst leaf'. rewrite pmwcas_leaf. cbn [entries].
  split; [|split].
  - rewrite fold_left_app. cbn [fold_left].
    set (l1 := fold_left store_entry es1 leaf).
    assert (Hin1 : in_leaf l1 (addr e)).
    { subst l1. destruct (addr e); simpl in *; [|exact I].
      rewrite stores_length. exact Hin. }
    pose proof (store_holds (addr e) (new_val e) l1 Hin1) as Hh.
    fold (store_entry l1 e) in Hh.
    pose proof (stores_other es2 (addr e) Hlast (store_entry l1 e)) as Hs.
    destruct (addr e); simpl in *; congruence.
  - apply stores_length.
  - intros b Hb. apply stores_other, Hb.
Qed.

Lemma pmwcas_last_entry_wins_witness :
  let leaf := mkLeaf [5; 6; 7; 8] 2 in
  let e := mkEntry (key_slot 1) 40 in
  let leaf' := snd (fst (pmwcas (mkDesc ([mkEntry (key_slot 1) 30] ++ e
                                           :: [mkEntry count_word 3]))
                           leaf Stats0)) in
  in_leaf leaf (addr e) /\
  ~ In (addr e) (map addr [mkEntry count_word 3]) /\
  rd (keys leaf') 1 = 40.
Proof.
  intros leaf e leaf'.
  assert (H1 : in_leaf leaf (addr e)) by (simpl; lia).
  assert (H2 : ~ In (addr e) (map addr [mkEntry count_word 3])).
  { simpl. intros [H|[]]. discriminate H. }
  split; [exact H1|]. split; [exact H2|].
  exact (proj1 (pmwcas_last_entry_wins [mkEntry (key_slot 1) 30]
                  [mkEntry count_word 3] e leaf Stats0 H1 H2)).
Defined.

End CommitFacts.

(** ** The driver: ledger against leaf, and the stream of draws *)

Module DriverExtras.
Import Extension.

Section Ledger.

Variable R : RandomSource.
Variable e : vector_variant.

Lemma do_insert_in_step (st : Locals R (e_leaf e)) (key : Z) (g : engine R) :
  in_step R e st ->
  in_step R e (do_insert R (e_leaf e) st key g) /\
  length (leaf_keys (e_leaf e) (l_leaf (do_insert R (e_leaf e) st key g)))
  = S (length (leaf_keys (e_leaf e) (l_leaf st))).
Proof.
  intros H. unfold in_step, do_insert in *.
  pose proof (e_insert_effect e (l_leaf st) key (l_stats st)) as E.
  pose proof (e_insert_grows e (l_leaf st) key (l_stats st)) as G.
  destruct (leaf_insert (e_leaf e) (l_leaf st) key (l_stats st)) as [lf s].
  cbn [fst snd l_leaf l_stats] in *.
  split; [|exact G]. rewrite G, E, H. apply ledger_of_step.
Qed.

Lemma do_search_in_step (st : Locals R (e_leaf e)) (key : Z) (g : engine R) :
  in_step R e st ->
  in_step R e (do_search R (e_leaf e) st key g) /\
  l_leaf (do_search R (e_leaf e) st key g) = l_leaf st.
Proof.
  intros H.
  destruct (DriverFacts.do_search_keeps R (e_leaf e)
              (DriverFacts.e_search_ledger e) st key g) as [A B].
  split; [|exact A]. unfold in_step. rewrite A, B. exact H.
Qed.

Lemma prefill_in_step (p : nat) (st : Locals R (e_leaf e)) :
  in_step R e st ->
  in_step R e (Nat.iter p (prefill_step R (e_leaf e)) st) /\
  length (leaf_keys (e_leaf e)
            (l_leaf (Nat.iter p (prefill_step R (e_leaf e)) st)))
  = (length (leaf_keys (e_leaf e) (l_leaf st)) + p)%nat.
Proof.
  intros H. induction p as [|p [IH1 IH2]]; simpl; [split; [exact H|lia]|].
  set (st' := Nat.iter p (prefill_step R (e_leaf e)) st) in *.
  unfold prefill_step. destruct (dist_key R (l_rng st')) as [key g].
  destruct (do_insert_in_step st' key g IH1) as [A B].
  unfold do_insert in A, B.
  destruct (leaf_insert (e_leaf e) (l_leaf st') key (l_stats st')) as [lf s].
  split; [exact A|]. rewrite B, IH2. lia.
Qed.

Lemma timed_in_step (wr : float) (n : nat) (st : Locals R (e_leaf e)) :
  in_step R e st ->
  in_step R e (Nat.iter n (timed_step R (e_leaf e) wr) st) /\
  (length (leaf_keys (e_leaf e) (l_leaf st))
   <= length (leaf_keys (e_leaf e)
                (l_leaf (Nat.iter n (timed_step R (e_leaf e) wr) st)))
   <= length (leaf_keys (e_leaf e) (l_leaf st)) + n)%nat.
Proof.
  intros H. induction n as [|n [IH1 IH2]]; simpl; [split; [exact H|lia]|].
  set (st' := Nat.iter n (timed_step R (e_leaf e) wr) st) in *.
  unfold timed_step. destruct (dist01 R (l_rng st')) as [r g].
  destruct (dist_key R g) as [key g'].
  destruct (PrimFloat.ltb r wr).
  - destruct (do_insert_in_step st' key g' IH1) as [A B].
    split; [exact A|]. rewrite B. lia.
  - destruct (do_search_in_step st' key g' IH1) as [A B].
    split; [exact A|]. rewrite B. lia.
Qed.

End Ledger.

(** X14. In every run of the mixed-workload driver the returned ledger
    is the leaf's three coefficients times the number of keys the leaf
    holds at the end (modulo 2^64): each key in the leaf was charged once,
    and nothing else was ever charged. The prefill stores exactly
    [prefill] keys, and the timed phase between none and [num_ops]
    more. *)
Theorem ledger_counts_stored_keys (R : RandomSource) (e : vector_variant)
  (seed prefill num_ops : Z) (write_ratio : float) (t0 t1 : Z) :
  let run := run_frame R (e_leaf e) seed prefill num_ops write_ratio t0 t1 in
  let n := length (leaf_keys (e_leaf e) (l_leaf (fst run))) in
  stats (snd run)
  = mkStats (wrap64 (e_w e * Z.of_nat n)) (wrap64 (e_f e * Z.of_nat n))
      (wrap64 (e_m e * Z.of_nat n)) /\
  length (leaf_keys (e_leaf e)
            (l_leaf (after_prefill R (e_leaf e) seed prefill)))
  = Z.to_nat prefill /\
  (Z.to_nat prefill <= n <= Z.to_nat prefill + Z.to_nat num_ops)%nat.
Proof.
  intros run n.
  assert (H0 : in_step R e (start R (e_leaf e) seed)).
  { unfold in_step, start, ledger_of. cbn [l_stats l_leaf].
    destruct e; reflexivity. }
  destruct (prefill_in_step R e (Z.to_nat prefill) _ H0) as [P1 P2].
  fold (after_prefill R (e_leaf e) seed prefill) in P1, P2.
  assert (Hz : length (leaf_keys (e_leaf e) (l_leaf (start R (e_leaf e) seed)))
               = 0%nat) by (destruct e; reflexivity).
  rewrite Hz in P2. cbn [Nat.add] in P2.
  destruct (timed_in_step R e write_ratio (Z.to_nat num_ops) _ P1) as [T1 T2].
  fold (after_timed R (e_leaf e) seed prefill num_ops write_ratio) in T1, T2.
  rewrite P2 in T2.
  split; [exact T1|]. split; [exact P2|exact T2].
Qed.

Lemma prefill_rng (R : RandomSource) (L : LeafType) (p : nat)
  (st : Locals R L) :
  l_rng (Nat.iter p (prefill_step R L) st) = Nat.iter p (skip_key R) (l_rng st).
Proof.
  induction p as [|p IH]; simpl; [reflexivity|]. rewrite <- IH.
  set (st' := Nat.iter p (prefill_step R L) st).
  unfold prefill_step, skip_key.
  destruct (dist_key R (l_rng st')) as [key g].
  destruct (leaf_insert L (l_leaf st') key (l_stats st')) as [lf s].
  reflexivity.
Qed.

Lemma timed_rng (R : RandomSource) (L : LeafType) (wr : float) (n : nat)
  (st : Locals R L) :
  l_rng (Nat.iter n (timed_step R L wr) st) = Nat.iter n (skip_op R) (l_rng st).
Proof.
  induction n as [|n IH]; simpl; [reflexivity|]. rewrite <- IH.
  set (st' := Nat.iter n (timed_step R L wr) st).
  unfold timed_step, skip_op.
  destruct (dist01 R (l_rng st')) as [r g]. cbn [snd].
  destruct (dist_key R g) as [key g']. cbn [snd].
  unfold do_insert, do_search.
  destruct (PrimFloat.ltb r wr).
  - destruct (leaf_insert L (l_leaf st') key (l_stats st')). reflexivity.
  - destruct (leaf_search L (l_leaf st') key (l_stats st')). reflexivity.
Qed.

(** X15. The leaf and the write ratio never reach the engine: after the
    prefill and any number of timed operations, the engine is in the state
    that [prefill] key draws followed by [num_ops] pairs of draws leave
    it in. So for one seed every leaf type and every write ratio is
    offered the same keys and the same coin values, operation by
    operation. *)
Theorem draws_ignore_leaf_and_ratio (R : RandomSource) (L L' : LeafType)
  (seed prefill num_ops : Z) (wr wr' : float) :
  l_rng (after_timed R L seed prefill num_ops wr)
  = Nat.iter (Z.to_nat num_ops) (skip_op R)
      (Nat.iter (Z.to_nat prefill) (skip_key R) (mt19937_64 R seed)) /\
  l_rng (after_timed R L seed prefill num_ops wr)
  = l_rng (after_timed R L' seed prefill num_ops wr').
Proof.
  assert (H : forall L0 w,
             l_rng (after_timed R L0 seed prefill num_ops w)
             = Nat.iter (Z.to_nat num_ops) (skip_op R)
                 (Nat.iter (Z.to_nat prefill) (skip_key R)
                    (mt19937_64 R seed))).
  { intros L0 w. unfold after_timed, after_prefill.
    rewrite timed_rng, prefill_rng. reflexivity. }
  split; [apply H|]. rewrite (H L wr), (H L' wr'). reflexivity.
Qed.

End DriverExtras.

(** ** The rows the mains report *)

Lemma ascendingb_bounds (l : list Z) :
  ascendingb l = true ->
  StronglySorted Z.lt l.
Proof.
  induction l as [|x l IH]; intros H; [constructor|].
  destruct l as [|y l]; [repeat constructor|].
  cbn [ascendingb] in H. apply andb_true_iff in H. destruct H as [H1 H2].
  apply Z.ltb_lt in H1. specialize (IH H2).
  constructor; [exact IH|].
  constructor; [exact H1|].
  apply StronglySorted_inv in IH. destruct IH as [_ Hall].
  eapply Forall_impl; [exact Hall|]. simpl. intros z Hz. lia.
Qed.

Lemma ascendingb_NoDup (l : list Z) : ascendingb l = true -> NoDup l.
Proof.
  intros H. apply ascendingb_bounds in H.
  induction H as [|x l Hs IH Hall]; constructor; [|exact IH].
  intros Hin. rewrite Forall_forall in Hall. specialize (Hall x Hin). lia.
Qed.

Lemma draw_keys_length (R : RandomSource) (n : nat) :
  forall g, length (fst (draw_keys R n g)) = n.
Proof.
  induction n as [|n IH]; intros g; simpl; [reflexivity|].
  destruct (dist_key R g) as [k g1]. specialize (IH g1).
  destruct (draw_keys R n g1) as [ks g2]. simpl in *. lia.
Qed.

Lemma insert_each_app insert (ks1 ks2 : list Z) (st : LeafNode * Stats) :
  insert_each insert (ks1 ++ ks2) st
  = insert_each insert ks2 (insert_each insert ks1 st).
Proof. unfold insert_each. apply fold_left_app. Qed.

Lemma stats_eq (s : Stats) (w f m : Z) :
  Nw s = w -> Nclf s = f -> Nmf s = m -> s = mkStats w f m.
Proof. destruct s. simpl. intros -> -> ->. reflexivity. Qed.

(** A run of inserts on a new array leaf, from a zero ledger. *)
Lemma array_run (a : array_variant) (junk ks : list Z) :
  let m := Z.min (Z.of_nat (length ks)) (a_cap a) in
  let kept := take (Z.to_nat (a_cap a)) ks in
  let r := insert_each (a_insert a) ks (fresh (a_cap a) junk, Stats0) in
  leaf_ok (a_cap a) (fst r) /\
  live (fst r) = fold_left (place (array_backed a)) kept [] /\
  snd r = mkStats (wrap64 (a_fix a * m + moved_keys a [] kept))
            (wrap64 (a_f a * m)) (wrap64 (a_f a * m)).
Proof.
  intros m kept r.
  change (insert_each (a_insert a))
    with (insert_all (strategy (array_backed a))) in r.
  pose proof (new_good (array_backed a) junk) as Hg.
  pose proof (a_cap_pos a) as Hpos.
  assert (E : r = insert_all (strategy (array_backed a)) kept
                    (fresh (a_cap a) junk, Stats0)).
  { subst r kept.
    etransitivity;
      [apply (insert_all_room (array_backed a) ks (fresh (a_cap a) junk)
                Stats0 Hg)|].
    unfold room. cbn [strategy st_cap st_count fresh count].
    rewrite Z.sub_0_r. reflexivity. }
  assert (Hm : Z.of_nat (length kept) = m)
    by (subst m kept; rewrite length_take; lia).
  assert (Hfit : count (fresh (a_cap a) junk) + Z.of_nat (length kept)
                 <= a_cap a) by (rewrite Hm; subst m; simpl; lia).
  destruct (insert_all_accepted (array_backed a) kept (fresh (a_cap a) junk)
              Stats0 Hg) as (G & K & _).
  { intros c [= <-]. exact Hfit. }
  assert (Hs0 : stats_ok Stats0) by (unfold stats_ok; simpl; lia).
  pose proof (array_ledger_accepted a kept (fresh (a_cap a) junk) Stats0
                (proj1 Hg) Hs0 Hfit) as L.
  rewrite Hm in L. rewrite E.
  split; [apply G|]. split; [exact K|].
  destruct L as (L1 & L2 & L3).
  apply stats_eq; [exact L1|exact L2|exact L3].
Qed.

Module Main3Facts.
Import Main3.

Lemma prefill_loop_spec (R : RandomSource) (n : nat) :
  forall (leaf : LeafNode) (s : Stats) (g : engine R),
    prefill_loop R n (leaf, s, g)
    = (insert_each Article3.bztree_insert (fst (draw_keys R n g)) (leaf, s),
       snd (draw_keys R n g)).
Proof.
  induction n as [|n IH]; intros leaf s g; simpl.
  - reflexivity.
  - destruct (dist_key R g) as [k g1].
    destruct (Article3.bztree_insert leaf k s) as [leaf1 s1] eqn:E.
    rewrite IH. destruct (draw_keys R n g1) as [ks g2]. cbn [fst snd].
    unfold insert_each. cbn [fold_left fst snd]. rewrite E. reflexivity.
Qed.

Lemma count_hits_filter (leaf : LeafNode) (ops : list Z) :
  count_hits leaf ops
  = Z.of_nat (length (List.filter (Article3.search_leaf leaf) (take 5000 ops))).
Proof.
  unfold count_hits.
  assert (H : forall l h,
             fold_left (fun hits k =>
                          if Article3.search_leaf leaf k then hits + 1 else hits)
               l h
             = h + Z.of_nat (length (List.filter (Article3.search_leaf leaf) l))).
  { induction l as [|k l IH]; intros h; simpl; [lia|].
    rewrite IH. destruct (Article3.search_leaf leaf k); simpl; lia. }
  rewrite H. lia.
Qed.

(** [main], with its loops replaced by what they compute. *)
Lemma main_unfolded (R : RandomSource) (junk : list Z) (t0 t1 : Z) :
  let r := insert_each Article3.bztree_insert (prefill_keys R ++ ops_keys R)
             (fresh Article3.CAP junk, Stats0) in
  main R junk t0 t1
  = mkRow (Article3.main_throughput t0 t1) (Nw (snd r)) (Nclf (snd r))
      (Nmf (snd r)) (count_hits (fst r) (ops_keys R)).
Proof.
  intros r. subst r. unfold main, prefill_keys, ops_keys.
  rewrite prefill_loop_spec, insert_each_app.
  destruct (draw_keys R (Z.to_nat PREFILL) (mt19937_64 R 123)) as [pre g1].
  cbn [fst snd].
  destruct (insert_each Article3.bztree_insert pre
              (fresh Article3.CAP junk, Stats0)) as [leaf1 s1].
  destruct (draw_keys R (Z.to_nat Article3.OPS) g1) as [ops g2].
  cbn [fst snd].
  destruct (insert_each Article3.bztree_insert ops (leaf1, s1)) as [leaf2 s2].
  reflexivity.
Qed.

Lemma main_leaf (R : RandomSource) (junk : list Z) :
  let r := insert_each Article3.bztree_insert (prefill_keys R ++ ops_keys R)
             (fresh Article3.CAP junk, Stats0) in
  leaf_ok Article3.CAP (fst r) /\
  live (fst r) = prefill_keys R ++ take 10 (ops_keys R) /\
  snd r = mkStats 128 64 64.
Proof.
  intros r.
  assert (Lp : length (prefill_keys R) = Z.to_nat PREFILL)
    by apply draw_keys_length.
  assert (Lo : length (ops_keys R) = Z.to_nat Article3.OPS)
    by apply draw_keys_length.
  assert (Hp : Z.to_nat PREFILL = 22%nat) by reflexivity.
  assert (Ho : Z.of_nat (Z.to_nat Article3.OPS) = 100000)
    by (unfold Article3.OPS; lia).
  destruct (array_run bztree_sim junk (prefill_keys R ++ ops_keys R))
    as (A & B & C).
  assert (A' : leaf_ok Article3.CAP (fst r)) by exact A.
  assert (B' : live (fst r)
               = fold_left append
                   (take 32 (prefill_keys R ++ ops_keys R)) []) by exact B.
  assert (C' : snd r
               = mkStats
                   (wrap64 (4 * Z.min (Z.of_nat (length (prefill_keys R
                                                           ++ ops_keys R))) 32
                            + 0))
                   (wrap64 (2 * Z.min (Z.of_nat (length (prefill_keys R
                                                           ++ ops_keys R))) 32))
                   (wrap64 (2 * Z.min (Z.of_nat (length (prefill_keys R
                                                           ++ ops_keys R))) 32)))
    by exact C.
  split; [exact A'|]. split.
  - rewrite B', (fold_append _ []). cbn [app].
    rewrite take_app, Lp, Hp, take_ge by lia. reflexivity.
  - rewrite C'.
    assert (Hmin : Z.min (Z.of_nat (length (prefill_keys R ++ ops_keys R))) 32
                   = 32) by (rewrite length_app, Lp, Lo, Hp; lia).
    rewrite Hmin. reflexivity.
Qed.

Lemma filter_all (f : Z -> bool) (l : list Z) :
  (forall x, In x l -> f x = true) -> List.filter f l = l.
Proof.
  induction l as [|x l IH]; intros H; simpl; [reflexivity|].
  rewrite (H x (or_introl eq_refl)), IH; [reflexivity|].
  intros y Hy. apply H. right. exact Hy.
Qed.

Lemma filter_none (f : Z -> bool) (l : list Z) :
  (forall x, In x l -> f x = false) -> List.filter f l = [].
Proof.
  induction l as [|x l IH]; intros H; simpl; [reflexivity|].
  rewrite (H x (or_introl eq_refl)). apply IH.
  intros y Hy. apply H. right. exact Hy.
Qed.

Lemma filter_length (f : Z -> bool) (l : list Z) :
  (length (List.filter f l) <= length l)%nat.
Proof.
  induction l as [|x l IH]; simpl; [lia|]. destruct (f x); simpl; lia.
Qed.

(** X16. The row [main] of article3_bztree.cpp reports, for every engine
    and every key stream: the leaf takes its 22 prefill keys and the first
    10 of the 100000 benchmark keys, then stays full, so the counters are
    always Nw = 128, Nclf = 64 and Nmf = 64. Of the 5000 benchmark keys
    searched afterwards at least the first 10 are found, and when the keys
    drawn are pairwise distinct exactly 10 are: every later key was
    dropped. *)
Theorem bztree_main_row (R : RandomSource) (junk : list Z) (t0 t1 : Z) :
  let row := main R junk t0 t1 in
  row_Nw row = 128 /\ row_Nclf row = 64 /\ row_Nmf row = 64 /\
  10 <= search_hits row <= 5000 /\
  (NoDup (prefill_keys R ++ take 5000 (ops_keys R)) -> search_hits row = 10).
Proof.
  intros row. subst row. rewrite main_unfolded.
  destruct (main_leaf R junk) as (Hok & Hlive & Hs).
  set (r := insert_each Article3.bztree_insert (prefill_keys R ++ ops_keys R)
              (fresh Article3.CAP junk, Stats0)) in *.
  cbn [row_Nw row_Nclf row_Nmf search_hits]. rewrite Hs. cbn [Nw Nclf Nmf].
  split; [reflexivity|]. split; [reflexivity|]. split; [reflexivity|].
  rewrite count_hits_filter.
  assert (Lo : length (ops_keys R) = Z.to_nat Article3.OPS)
    by apply draw_keys_length.
  assert (Ho : Z.of_nat (Z.to_nat Article3.OPS) = 100000)
    by (unfold Article3.OPS; lia).
  assert (Hfound : forall k,
             Article3.search_leaf (fst r) k = true
             <-> In k (prefill_keys R ++ take 10 (ops_keys R))).
  { intros k. rewrite <- Hlive. apply (linear_scan_spec _ _ _ Hok). }
  set (ops := ops_keys R) in *.
  assert (Hsplit : take 5000 ops = take 10 ops ++ drop 10 (take 5000 ops)).
  { rewrite <- (take_drop 10 (take 5000 ops)) at 1.
    rewrite take_take. reflexivity. }
  assert (Hfirst : List.filter (Article3.search_leaf (fst r)) (take 10 ops)
                   = take 10 ops).
  { apply filter_all. intros x Hx. apply Hfound, in_or_app. right. exact Hx. }
  assert (L10 : length (take 10 ops) = 10%nat) by (rewrite length_take; lia).
  rewrite Hsplit, List.filter_app, Hfirst, length_app, L10.
  pose proof (filter_length (Article3.search_leaf (fst r))
                (drop 10 (take 5000 ops))) as Hle.
  rewrite length_drop, length_take in Hle.
  split; [lia|].
  intros Hnd.
  assert (Hnd' : NoDup ((prefill_keys R ++ take 10 ops)
                          ++ drop 10 (take 5000 ops)))
    by (rewrite <- app_assoc; exact Hnd).
  apply NoDup_app in Hnd'. destruct Hnd' as (_ & Hdisj & _).
  rewrite filter_none; [reflexivity|].
  intros x Hx.
  destruct (Article3.search_leaf (fst r) x) eqn:E; [|reflexivity].
  exfalso. apply Hfound in E.
  apply (Hdisj x); apply list_elem_of_In; assumption.
Qed.

Lemma counter_keys_ascend :
  ascendingb (prefill_keys counter_source ++ take 5000 (ops_keys counter_source))
  = true.
Proof. vm_compute. reflexivity. Qed.

Lemma bztree_main_row_witness :
  NoDup (prefill_keys counter_source ++ take 5000 (ops_keys counter_source)) /\
  search_hits (main counter_source [] 0 1000) = 10.
Proof.
  assert (H : NoDup (prefill_keys counter_source
                       ++ take 5000 (ops_keys counter_source)))
    by exact (ascendingb_NoDup _ counter_keys_ascend).
  split; [exact H|].
  exact (proj2 (proj2 (proj2 (proj2 (bztree_main_row counter_source [] 0 1000))))
           H).
Defined.

End Main3Facts.

Lemma shift_distances_bound (ks : list Z) :
  forall l : list Z,
    0 <= fold_right Z.add 0 (shift_distances l ks) /\
    2 * fold_right Z.add 0 (shift_distances l ks)
    <= Z.of_nat (length ks)
       * (2 * Z.of_nat (length l) + Z.of_nat (length ks) - 1).
Proof.
  induction ks as [|k ks IH]; intros l; cbn [shift_distances fold_right length].
  - lia.
  - destruct (IH (insert_at_rank l k)) as [I1 I2].
    rewrite insert_at_rank_length in I2.
    pose proof (rank_le_length l k). nia.
Qed.

Module Main2Facts.
Import Main2.

(** One block of [main], with its loops replaced by what they compute. *)
Lemma block_unfolded insert (junk prefill bench : list Z) (t0 t1 : Z) :
  let r := insert_each insert (prefill ++ bench)
             (fresh Article2.CAP junk, Stats0) in
  block insert junk prefill bench t0 t1
  = mkRow (PrimFloat.div (u64_to_double (Z.of_nat (length bench)))
             (seconds_between t0 t1))
      (Nw (snd r)) (Nclf (snd r)) (Nmf (snd r)).
Proof.
  intros r. subst r. unfold block, run_insert_benchmark.
  rewrite insert_each_app.
  destruct (insert_each insert prefill (fresh Article2.CAP junk, Stats0))
    as [leaf1 s1].
  destruct (insert_each insert bench (leaf1, s1)) as [leaf2 s2].
  reflexivity.
Qed.

(** X17. The three rows [main] of article2_wbtree.cpp reports, for every
    engine and every key stream. Each leaf takes its 22 prefill keys and
    the first 10 of the 100000 benchmark keys, then stays full. The
    simplified wB+-Tree row is always Nw = 64, Nclf = 32, Nmf = 32; the
    volatile row has no flush and no fence and between 32 and 528 writes;
    the logging row has 64 flushes, 64 fences and exactly 128 writes more
    than the volatile row. *)
Theorem wbtree_main_rows (R : RandomSource) (junk1 junk2 junk3 : list Z)
  (c1 c2 c3 : Z * Z) :
  let rows := main R junk1 junk2 junk3 c1 c2 c3 in
  let vo := fst (fst rows) in
  let lg := snd (fst rows) in
  let wb := snd rows in
  row_Nclf vo = 0 /\ row_Nmf vo = 0 /\ 32 <= row_Nw vo <= 528 /\
  row_Nw lg = row_Nw vo + 128 /\ row_Nclf lg = 64 /\ row_Nmf lg = 64 /\
  row_Nw wb = 64 /\ row_Nclf wb = 32 /\ row_Nmf wb = 32.
Proof.
  intros rows vo lg wb. subst vo lg wb rows. unfold main.
  pose proof (draw_keys_length R (Z.to_nat PREFILL) (mt19937_64 R 123)) as Lp.
  destruct (draw_keys R (Z.to_nat PREFILL) (mt19937_64 R 123)) as [prefill g1].
  pose proof (draw_keys_length R (Z.to_nat OPS) g1) as Lb.
  destruct (draw_keys R (Z.to_nat OPS) g1) as [bench g2].
  cbn [fst snd] in *. rewrite !block_unfolded. cbn [row_Nw row_Nclf row_Nmf].
  assert (Hp : Z.to_nat PREFILL = 22%nat) by reflexivity.
  assert (Ho : Z.of_nat (Z.to_nat OPS) = 100000) by (unfold OPS; lia).
  assert (Hmin : Z.min (Z.of_nat (length (prefill ++ bench))) 32 = 32)
    by (rewrite length_app, Lp, Lb, Hp; lia).
  set (kept := take 32 (prefill ++ bench)).
  assert (Lk : length kept = 32%nat)
    by (subst kept; rewrite length_take, length_app, Lp, Lb, Hp; lia).
  destruct (shift_distances_bound kept []) as [M0 M1].
  rewrite Lk in M1. cbn [length] in M1.
  set (moved := fold_right Z.add 0 (shift_distances [] kept)) in *.
  destruct (array_run btree_volatile junk1 (prefill ++ bench)) as (_ & _ & V).
  destruct (array_run btree_log junk2 (prefill ++ bench)) as (_ & _ & L).
  destruct (array_run wbtree_simplified junk3 (prefill ++ bench))
    as (_ & _ & W).
  assert (V' : snd (insert_each Article2.LeafBTreeVolatile_insert
                      (prefill ++ bench) (fresh Article2.CAP junk1, Stats0))
               = mkStats (wrap64 (1 * 32 + moved)) (wrap64 (0 * 32))
                   (wrap64 (0 * 32)))
    by (rewrite <- Hmin; exact V).
  assert (L' : snd (insert_each Article2.LeafBTreeLog_insert
                      (prefill ++ bench) (fresh Article2.CAP junk2, Stats0))
               = mkStats (wrap64 (5 * 32 + moved)) (wrap64 (2 * 32))
                   (wrap64 (2 * 32)))
    by (rewrite <- Hmin; exact L).
  assert (W' : snd (insert_each Article2.LeafWBTree_insert
                      (prefill ++ bench) (fresh Article2.CAP junk3, Stats0))
               = mkStats (wrap64 (2 * 32 + 0)) (wrap64 (1 * 32))
                   (wrap64 (1 * 32)))
    by (rewrite <- Hmin; exact W).
  rewrite V', L', W'. cbn [Nw Nclf Nmf].
  rewrite !wrap64_small by lia.
  repeat split; lia.
Qed.

End Main2Facts.

(** A run of inserts on a new array leaf, from any ledger. *)
Lemma array_run_from (a : array_variant) (junk ks : list Z) (s : Stats) :
  stats_ok s ->
  let m := Z.min (Z.of_nat (length ks)) (a_cap a) in
  let kept := take (Z.to_nat (a_cap a)) ks in
  let r := insert_each (a_insert a) ks (fresh (a_cap a) junk, s) in
  leaf_ok (a_cap a) (fst r) /\
  live (fst r) = fold_left (place (array_backed a)) kept [] /\
  advanced s (snd r) (a_fix a * m + moved_keys a [] kept)
    (a_f a * m) (a_f a * m).
Proof.
  intros Hs m kept r.
  change (insert_each (a_insert a))
    with (insert_all (strategy (array_backed a))) in r.
  pose proof (new_good (array_backed a) junk) as Hg.
  pose proof (a_cap_pos a) as Hpos.
  assert (E : r = insert_all (strategy (array_backed a)) kept
                    (fresh (a_cap a) junk, s)).
  { subst r kept.
    etransitivity;
      [apply (insert_all_room (array_backed a) ks (fresh (a_cap a) junk)
                s Hg)|].
    unfold room. cbn [strategy st_cap st_count fresh count].
    rewrite Z.sub_0_r. reflexivity. }
  assert (Hm : Z.of_nat (length kept) = m)
    by (subst m kept; rewrite length_take; lia).
  assert (Hfit : count (fresh (a_cap a) junk) + Z.of_nat (length kept)
                 <= a_cap a) by (rewrite Hm; subst m; simpl; lia).
  destruct (insert_all_accepted (array_backed a) kept (fresh (a_cap a) junk)
              s Hg) as (G & K & _).
  { intros c [= <-]. exact Hfit. }
  pose proof (array_ledger_accepted a kept (fresh (a_cap a) junk) s
                (proj1 Hg) Hs Hfit) as L.
  rewrite Hm in L. rewrite E.
  split; [apply G|]. split; [exact K|exact L].
Qed.

Module Main1Facts.
Import Article1 Main1.

Section Facts.

Variable E : Type.
Variable rng0 : E.
Variable dist : E -> Z * E.

Lemma draw_length (n : nat) : forall g, length (fst (draw E dist n g)) = n.
Proof.
  induction n as [|n IH]; intros g; simpl; [reflexivity|].
  destruct (dist g) as [k g1]. specialize (IH g1).
  destruct (draw E dist n g1) as [ks g2]. simpl in *. lia.
Qed.

Lemma tree_prefill_loop_spec (n : nat) :
  forall (t : SimpleBPlusTree) (s : Stats) (g : E),
    prefill_loop E dist n (t, s, g)
    = (SimpleBPlusTree_inserts (fst (draw E dist n g)) (t, s),
       snd (draw E dist n g)).
Proof.
  induction n as [|n IH]; intros t s g; simpl; [reflexivity|].
  destruct (dist g) as [k g1].
  destruct (SimpleBPlusTree_insert t k s) as [t1 s1] eqn:Et.
  rewrite IH. destruct (draw E dist n g1) as [ks g2]. cbn [fst snd].
  unfold SimpleBPlusTree_inserts. cbn [fold_left fst snd]. rewrite Et.
  reflexivity.
Qed.

Lemma sorted_loop_spec (ks : list Z) :
  forall (leaf : LeafNode) (s : Stats) (ib : Z),
    sorted_loop ks (leaf, s, ib)
    = (insert_each insert_sorted ks (leaf, s), ib + Z.of_nat (length ks)).
Proof.
  induction ks as [|k ks IH]; intros leaf s ib.
  - simpl. rewrite Z.add_0_r. reflexivity.
  - unfold sorted_loop, insert_each in *. cbn [fold_left fst snd length].
    destruct (insert_sorted leaf k s) as [leaf1 s1].
    rewrite IH. f_equal. lia.
Qed.

Lemma tree_inserts_ledger (n : nat) (ks : list Z) :
  forall (t : SimpleBPlusTree) (s : Stats),
    tree_ok n t -> (0 < n)%nat -> stats_ok s ->
    let r := SimpleBPlusTree_inserts ks (t, s) in
    let d := stored_total (leaves (fst r)) - stored_total (leaves t) in
    tree_ok n (fst r) /\ 0 <= d /\ advanced s (snd r) d d d.
Proof.
  induction ks as [|k ks IH]; intros t s Hok Hn Hs r d.
  - subst d r. simpl. rewrite Z.sub_diag.
    split; [exact Hok|]. split; [lia|apply advanced_zero, Hs].
  - subst d r. cbn [SimpleBPlusTree_inserts fold_left fst snd].
    destruct (TreeFacts.tree_insert_step n t k s Hok Hn)
      as (_ & Hok' & _ & Hf & Ha).
    set (old := leaf_at (leaves t) (k mod Z.of_nat n)) in *.
    destruct (SimpleBPlusTree_insert t k s) as [t1 s1] eqn:Et.
    cbn [fst snd] in *.
    fold (SimpleBPlusTree_inserts ks (t1, s1)).
    assert (Hstep : 0 <= stored_total (leaves t1) - stored_total (leaves t) /\
                    advanced s s1
                      (stored_total (leaves t1) - stored_total (leaves t))
                      (stored_total (leaves t1) - stored_total (leaves t))
                      (stored_total (leaves t1) - stored_total (leaves t))).
    { destruct (Z.le_gt_cases CAP (count old)) as [Hc|Hc].
      - injection (Hf Hc) as -> ->. rewrite Z.sub_diag.
        split; [lia|apply advanced_zero, Hs].
      - destruct (Ha Hc) as (_ & Ht & Hs1). rewrite Ht, Hs1.
        replace (stored_total (leaves t) + 1 - stored_total (leaves t))
          with 1 by lia.
        split; [lia|]. unfold advanced. simpl. auto. }
    destruct Hstep as [H0 H1].
    destruct (IH t1 s1 Hok' Hn (advanced_ok _ _ _ _ _ H1)) as (G & D & A).
    split; [exact G|]. split; [lia|].
    eapply advanced_eq; [exact (advanced_trans _ _ _ _ _ _ _ _ _ H1 A)|..];
      lia.
Qed.

Lemma tree_loop_spec (n : nat) (ks : list Z) :
  forall (t : SimpleBPlusTree) (s : Stats) (iu : Z),
    tree_ok n t -> (0 < n)%nat -> stats_ok s ->
    let r := tree_loop ks (t, s, iu) in
    let d := stored_total (leaves (fst (fst r))) - stored_total (leaves t) in
    tree_ok n (fst (fst r)) /\ 0 <= d /\
    advanced s (snd (fst r)) (d + Z.of_nat (length ks)) d d /\
    snd r = iu + Z.of_nat (length ks).
Proof.
  induction ks as [|k ks IH]; intros t s iu Hok Hn Hs r d.
  - subst d r. simpl. rewrite Z.sub_diag, Z.add_0_r.
    split; [exact Hok|]. split; [lia|]. split; [apply advanced_zero, Hs|lia].
  - subst d r. unfold tree_loop. cbn [fold_left].
    destruct (TreeFacts.tree_insert_step n t k s Hok Hn)
      as (_ & Hok' & _ & Hf & Ha).
    set (old := leaf_at (leaves t) (k mod Z.of_nat n)) in *.
    destruct (SimpleBPlusTree_insert t k s) as [t1 s1] eqn:Et.
    cbn [fst snd] in *.
    fold (tree_loop ks (t1, pcm_write s1 1, iu + 1)).
    assert (Hstep : 0 <= stored_total (leaves t1) - stored_total (leaves t) /\
                    advanced s (pcm_write s1 1)
                      (stored_total (leaves t1) - stored_total (leaves t) + 1)
                      (stored_total (leaves t1) - stored_total (leaves t))
                      (stored_total (leaves t1) - stored_total (leaves t))).
    { assert (Hw : forall x, stats_ok x -> advanced x (pcm_write x 1) 1 0 0).
      { intros x (X1 & X2 & X3). unfold advanced. simpl.
        rewrite !Z.add_0_r, (wrap64_small (Nclf x)), (wrap64_small (Nmf x));
          auto. }
      destruct (Z.le_gt_cases CAP (count old)) as [Hc|Hc].
      - injection (Hf Hc) as -> ->. rewrite Z.sub_diag.
        split; [lia|apply Hw, Hs].
      - destruct (Ha Hc) as (_ & Ht & Hs1). rewrite Ht.
        replace (stored_total (leaves t) + 1 - stored_total (leaves t))
          with 1 by lia.
        split; [lia|]. rewrite Hs1. unfold advanced. simpl.
        rewrite wrap64_add_l. repeat split; f_equal; lia. }
    destruct Hstep as [H0 H1].
    destruct (IH t1 (pcm_write s1 1) (iu + 1) Hok' Hn
                (advanced_ok _ _ _ _ _ H1)) as (G & D & A & I).
    split; [exact G|]. split; [lia|]. split.
    + eapply advanced_eq; [exact (advanced_trans _ _ _ _ _ _ _ _ _ H1 A)|..];
        cbn [length]; lia.
    + rewrite I. cbn [length]. lia.
Qed.

Lemma tree_insert_tree (t : SimpleBPlusTree) (k : Z) (s s' : Stats) :
  fst (SimpleBPlusTree_insert t k s) = fst (SimpleBPlusTree_insert t k s').
Proof.
  unfold SimpleBPlusTree_insert, insert_unsorted.
  destruct (CAP <=? count (leaf_at (leaves t) (k mod Z.of_nat (length (leaves t)))));
    reflexivity.
Qed.

Lemma tree_loop_tree (ks : list Z) :
  forall (t : SimpleBPlusTree) (s s' : Stats) (iu iu' : Z),
    fst (fst (tree_loop ks (t, s, iu))) = fst (fst (tree_loop ks (t, s', iu'))).
Proof.
  induction ks as [|k ks IH]; intros t s s' iu iu'; [reflexivity|].
  unfold tree_loop. cbn [fold_left].
  pose proof (tree_insert_tree t k s s') as H.
  destruct (SimpleBPlusTree_insert t k s) as [t1 s1].
  destruct (SimpleBPlusTree_insert t k s') as [t2 s2].
  cbn [fst] in H. subst t2. apply IH.
Qed.

Lemma base_hits_filter (leaf : LeafNode) (ks : list Z) :
  count_hits leaf ks
  = Z.of_nat (length (List.filter (search_leaf leaf) (take 5000 ks))).
Proof.
  unfold count_hits.
  assert (H : forall l h,
             fold_left (fun hits k =>
                          if search_leaf leaf k then hits + 1 else hits) l h
             = h + Z.of_nat (length (List.filter (search_leaf leaf) l))).
  { induction l as [|k l IH]; intros h; simpl; [lia|].
    rewrite IH. destruct (search_leaf leaf k); simpl; lia. }
  rewrite H. lia.
Qed.

(** [main], with its loops replaced by what they compute. *)
Lemma article1_main_unfolded (junk : list Z) (t0 t1 t2 t3 : Z) :
  let bench := bench_keys E rng0 dist in
  let r1 := SimpleBPlusTree_inserts (prefill_keys E rng0 dist)
              (SimpleBPlusTree_new NUM_LEAVES, Stats0) in
  let r2 := insert_each insert_sorted bench (fresh CAP junk, snd r1) in
  let r3 := tree_loop bench (fst r1, snd r2, 0) in
  let s := snd (fst r3) in
  let hits := count_hits (fst r2) bench in
  main E rng0 dist junk t0 t1 t2 t3
  = (mkRow (PrimFloat.div (i64_to_double (0 + Z.of_nat (length bench)))
              (seconds_between t0 t1))
       (Nw s) (Nclf s) (Nmf s) hits,
     mkRow (PrimFloat.div (i64_to_double (snd r3)) (seconds_between t2 t3))
       (Nw s / 4) (Nclf s / 4) (Nmf s / 4) hits) /\
  final_index E rng0 dist = fst (fst (tree_loop bench (fst r1, snd r1, 0))).
Proof.
  intros bench r1 r2 r3 s hits. subst bench r1 r2 r3 s hits.
  unfold main, final_index, prefill_keys, bench_keys.
  rewrite tree_prefill_loop_spec.
  destruct (draw E dist (Z.to_nat PREFILL) rng0) as [pre g1]. cbn [fst snd].
  destruct (SimpleBPlusTree_inserts pre (SimpleBPlusTree_new NUM_LEAVES, Stats0))
    as [t1' s1].
  destruct (draw E dist (Z.to_nat BENCH_OPS) g1) as [bench g2]. cbn [fst snd].
  rewrite sorted_loop_spec.
  destruct (insert_each insert_sorted bench (fresh CAP junk, s1)) as [lf s2].
  cbn [fst snd].
  destruct (tree_loop bench (t1', s2, 0)) as [[t3' s3] iu].
  destruct (tree_loop bench (t1', s1, 0)) as [[t4' s4] iu'].
  split; reflexivity.
Qed.

(** X18. The two rows [main] of article1_sorted_unsorted.cpp reports, for
    every engine and every key stream. The counters are global, so the
    row labelled [sorted] carries the flushes and fences of the tree as
    well: Nclf = Nmf = [index.size()] + 128, where the tree ends with at
    most 8192 of the 250000 keys offered to it and the sorted leaf with
    128 of its 50000. Nw adds to that the 50000 extra writes of the tree
    loop and one write per key the sorted leaf moved, 8128 at most. The
    row labelled [unsorted] shows the same three counters divided by 4.
    Of the 5000 keys searched at least 128 are found, and exactly 128 when
    those keys are pairwise distinct. *)
Theorem article1_main_rows (junk : list Z) (t0 t1 t2 t3 : Z) :
  let rows := main E rng0 dist junk t0 t1 t2 t3 in
  let size := SimpleBPlusTree_size (final_index E rng0 dist) in
  0 <= size <= 8192 /\
  row_Nclf (fst rows) = size + 128 /\
  row_Nmf (fst rows) = size + 128 /\
  size + 50128 <= row_Nw (fst rows) <= size + 58256 /\
  row_Nw (snd rows) = row_Nw (fst rows) / 4 /\
  row_Nclf (snd rows) = (size + 128) / 4 /\
  row_Nmf (snd rows) = (size + 128) / 4 /\
  128 <= search_hits (fst rows) <= 5000 /\
  search_hits (snd rows) = search_hits (fst rows) /\
  (NoDup (take 5000 (bench_keys E rng0 dist)) -> search_hits (fst rows) = 128).
Proof.
  intros rows size. subst rows size.
  destruct (article1_main_unfolded junk t0 t1 t2 t3) as [Em Ef]. cbv zeta in Em, Ef.
  rewrite Em, Ef. clear Em Ef.
  cbn [fst snd row_Nw row_Nclf row_Nmf search_hits].
  set (bench := bench_keys E rng0 dist).
  set (r1 := SimpleBPlusTree_inserts (prefill_keys E rng0 dist)
               (SimpleBPlusTree_new NUM_LEAVES, Stats0)).
  set (r2 := insert_each insert_sorted bench (fresh CAP junk, snd r1)).
  set (r3 := tree_loop bench (fst r1, snd r2, 0)).
  rewrite (tree_loop_tree bench (fst r1) (snd r1) (snd r2) 0 0). fold r3.
  assert (Lb : length bench = Z.to_nat BENCH_OPS) by apply draw_length.
  assert (Hb : Z.of_nat (Z.to_nat BENCH_OPS) = 50000)
    by (unfold BENCH_OPS; lia).
  assert (Hs0 : stats_ok Stats0) by (unfold stats_ok; simpl; lia).
  (* the prefill of the tree *)
  destruct (tree_inserts_ledger 64 (prefill_keys E rng0 dist)
              (SimpleBPlusTree_new NUM_LEAVES) Stats0
              (TreeFacts.new_tree_ok NUM_LEAVES)) as (G1 & D1 & A1);
    [lia|exact Hs0|].
  fold r1 in G1, D1, A1.
  assert (Z0 : stored_total (leaves (SimpleBPlusTree_new NUM_LEAVES)) = 0)
    by reflexivity.
  rewrite Z0, Z.sub_0_r in D1, A1.
  (* the sorted leaf *)
  destruct (array_run_from sorted_a1 junk bench (snd r1)
              (advanced_ok _ _ _ _ _ A1)) as (Hok & Hlive & A2).
  assert (Hok' : leaf_ok CAP (fst r2)) by exact Hok.
  assert (Hlive' : live (fst r2) = fold_left insert_at_rank (take 128 bench) [])
    by exact Hlive.
  set (moved := fold_right Z.add 0 (shift_distances [] (take 128 bench))).
  assert (A2' : advanced (snd r1) (snd r2) (128 + moved) 128 128).
  { eapply advanced_eq; [exact A2|..].
    - rewrite Lb. change (a_cap sorted_a1) with 128.
      rewrite Z.min_r by lia. reflexivity.
    - rewrite Lb. change (a_cap sorted_a1) with 128.
      rewrite Z.min_r by lia. reflexivity.
    - rewrite Lb. change (a_cap sorted_a1) with 128.
      rewrite Z.min_r by lia. reflexivity. }
  assert (Lk : length (take 128 bench) = 128%nat)
    by (rewrite length_take; lia).
  destruct (shift_distances_bound (take 128 bench) []) as [M0 M1].
  rewrite Lk in M1. cbn [length] in M1. fold moved in M0, M1.
  (* the tree loop *)
  destruct (tree_loop_spec 64 bench (fst r1) (snd r2) 0 G1)
    as (G3 & D3 & A3 & _); [lia|exact (advanced_ok _ _ _ _ _ A2')|].
  fold r3 in G3, D3, A3.
  destruct (TreeFacts.tree_size_total 64 _ G3) as [S1 S2]; [lia|].
  rewrite S1.
  set (size := stored_total (leaves (fst (fst r3)))) in *.
  set (size1 := stored_total (leaves (fst r1))) in *.
  pose proof (advanced_trans _ _ _ _ _ _ _ _ _
                (advanced_trans _ _ _ _ _ _ _ _ _ A1 A2') A3) as A.
  rewrite Lb, Hb in A. destruct A as (AW & AF & AM).
  cbn [Nw Nclf Nmf Stats0] in AW, AF, AM.
  unfold CAP in S2.
  rewrite wrap64_small in AW by lia.
  rewrite wrap64_small in AF by lia.
  rewrite wrap64_small in AM by lia.
  rewrite AW, AF, AM.
  replace (0 + (size1 + 128 + (size - size1))) with (size + 128) by lia.
  split; [lia|]. split; [reflexivity|]. split; [reflexivity|].
  split; [lia|]. split; [reflexivity|]. split; [reflexivity|].
  split; [reflexivity|].
  (* the hits *)
  rewrite base_hits_filter.
  assert (Hfound : forall k,
             search_leaf (fst r2) k = true <-> In k (take 128 bench)).
  { intros k. unfold search_leaf.
    rewrite (linear_scan_spec _ _ _ Hok'), Hlive'.
    pose proof (fold_place_perm (array_backed sorted_a1) (take 128 bench) [])
      as P.
    change (place (array_backed sorted_a1)) with insert_at_rank in P.
    cbn [app] in P. rewrite <- !list_elem_of_In. rewrite P. reflexivity. }
  assert (Hsplit : take 5000 bench = take 128 bench ++ drop 128 (take 5000 bench)).
  { rewrite <- (take_drop 128 (take 5000 bench)) at 1.
    rewrite take_take. reflexivity. }
  assert (Hfirst : List.filter (search_leaf (fst r2)) (take 128 bench)
                   = take 128 bench).
  { apply Main3Facts.filter_all. intros x Hx. apply Hfound, Hx. }
  pose proof (Main3Facts.filter_length (search_leaf (fst r2))
                (drop 128 (take 5000 bench))) as Hle.
  rewrite length_drop, length_take in Hle.
  split; [|split; [reflexivity|]].
  - rewrite Hsplit, List.filter_app, Hfirst, length_app, Lk. lia.
  - intros Hnd.
    assert (Hnd' : NoDup (take 128 bench ++ drop 128 (take 5000 bench)))
      by (rewrite <- Hsplit; exact Hnd).
    apply NoDup_app in Hnd'. destruct Hnd' as (_ & Hdisj & _).
    rewrite Hsplit, List.filter_app, Hfirst, length_app, Lk.
    rewrite Main3Facts.filter_none; [reflexivity|].
    intros x Hx.
    destruct (search_leaf (fst r2) x) eqn:Ex; [|reflexivity].
    exfalso. apply Hfound in Ex.
    apply (Hdisj x); apply list_elem_of_In; assumption.
Qed.

End Facts.

Lemma counting_keys_ascend :
  ascendingb (take 5000 (bench_keys Z 123 counting_dist)) = true.
Proof. vm_compute. reflexivity. Qed.

Lemma article1_main_rows_witness :
  NoDup (take 5000 (bench_keys Z 123 counting_dist)) /\
  search_hits (fst (main Z 123 counting_dist [] 0 1000 2000 3000)) = 128.
Proof.
  assert (H : NoDup (take 5000 (bench_keys Z 123 counting_dist)))
    by exact (ascendingb_NoDup _ counting_keys_ascend).
  split; [exact H|].
  pose proof (article1_main_rows Z 123 counting_dist [] 0 1000 2000 3000) as T.
  cbv zeta in T. destruct T as (_ & _ & _ & _ & _ & _ & _ & _ & _ & T).
  exact (T H).
Defined.

End Main1Facts.
